(** * codegent: the tool functions and the agent loop of [main.go]

    A shallow embedding of [src/main.go] (package [main]) and of the parts of
    Go's standard library it calls, followed by the properties proved about
    it.

    Layout.
    - Part I gives the definitions: Go's [unicode/utf8], [strings], [path],
      [path/filepath], [encoding/json] and [os] as far as [main.go] uses
      them, then [main.go] itself ([ReadFile], [ListFiles], [EditFile],
      [createNewFile], [executeTool], [Run]).
    - Part II gives the lemmas and the theorems.
    - Part III runs the theorems on examples.
    - Part IV gives further properties of the program, Part V their examples.

    Conventions.
    - A Go [string] and a [[]byte] are a Rocq [string] (a sequence of bytes).
    - A Go [(T, error)] result is a [result T]; a function that can panic
      returns an [exec].
    - The file system is explicit state, threaded through every tool.
    - The operating system is a Unix-like one: the path separator is [/]. *)

From Stdlib Require Import String Ascii List ZArith Lia Bool Sorted.
From stdpp Require Import base option list gmap strings.

Set Warnings "-register-all".

Open Scope string_scope.
Open Scope list_scope.

(* ================================================================== *)
(** * Part I. Definitions *)
(* ================================================================== *)

(** ** Results, errors and panics *)

(** [syscall.Errno], the values the modelled file system reports. *)
Inductive Errno := ENOENT | ENOTDIR | EISDIR | EEXIST.

Definition Errno_Error (e : Errno) : string :=
  match e with
  | ENOENT => "no such file or directory"
  | ENOTDIR => "not a directory"
  | EISDIR => "is a directory"
  | EEXIST => "file exists"
  end.

(** Go's [error] values, as far as this program makes or meets them. *)
Inductive error :=
  | errorString (s : string)                  (* errors.New, fmt.Errorf without %w *)
  | wrapError (msg : string) (err : error)    (* fmt.Errorf("msg: %w", err) *)
  | PathError (Op Path : string) (Err : Errno) (* *fs.PathError *)
  | SyntaxError                               (* *json.SyntaxError *)
  | UnmarshalTypeError (Value Field : string) (* *json.UnmarshalTypeError *)
  | SkipDir                                   (* fs.SkipDir *)
  | SkipAll.                                  (* fs.SkipAll *)

(** [err.Error()].  The texts of the [encoding/json] errors are abridged. *)
Fixpoint Error (e : error) : string :=
  match e with
  | errorString s => s
  | wrapError msg err => msg +:+ ": " +:+ Error err
  | PathError op p errno => op +:+ " " +:+ p +:+ ": " +:+ Errno_Error errno
  | SyntaxError => "invalid character in JSON input"
  | UnmarshalTypeError v f =>
      "json: cannot unmarshal " +:+ v +:+ " into Go value " +:+ f +:+ " of type string"
  | SkipDir => "skip this directory"
  | SkipAll => "skip everything and stop the walk"
  end.

(** A Go result [(T, error)]: [Ok v] is [(v, nil)], [Err e] is [(zero, e)]. *)
Inductive result (T : Type) :=
  | Ok (v : T)
  | Err (e : error).
Arguments Ok {T} v.
Arguments Err {T} e.

(** The outcome of running a function that may panic. *)
Inductive exec (T : Type) :=
  | Returns (v : T)
  | Panics (msg : string).
Arguments Returns {T} v.
Arguments Panics {T} msg.

(** ** Sorting by a string key

    [sort.Strings] and the like, where the program's libraries sort by
    name: the result is in byte-wise order of the keys. *)

Fixpoint insertBy {A : Type} (key : A -> string) (x : A) (l : list A) : list A :=
  match l with
  | [] => [x]
  | y :: l' =>
      if String.leb (key x) (key y) then x :: l else y :: insertBy key x l'
  end.

Definition sortBy {A : Type} (key : A -> string) (l : list A) : list A :=
  fold_right (insertBy key) [] l.

(** ** [unicode/utf8] *)

Module utf8.

Definition byteval (c : ascii) : N := N_of_ascii c.

Definition inRange (lo hi : N) (c : ascii) : bool :=
  ((lo <=? byteval c) && (byteval c <=? hi))%N.

Definition locb : N := 128.  (* 0x80 *)
Definition hicb : N := 191.  (* 0xBF *)

(** The table [first]: what a first byte announces. *)
Inductive firstInfo :=
  | as_                               (* ASCII: one byte *)
  | xx                                (* invalid: one byte *)
  | multi (sz : nat) (lo hi : N).     (* size, accepted range of the second byte *)

Definition first (c : ascii) : firstInfo :=
  let b := byteval c in
  if (b <? 128)%N then as_
  else if (b <? 194)%N then xx                   (* 0x80-0xC1 *)
  else if (b <? 224)%N then multi 2 locb hicb    (* 0xC2-0xDF *)
  else if (b =? 224)%N then multi 3 160 hicb     (* 0xE0 *)
  else if (b <? 237)%N then multi 3 locb hicb    (* 0xE1-0xEC *)
  else if (b =? 237)%N then multi 3 locb 159     (* 0xED *)
  else if (b <? 240)%N then multi 3 locb hicb    (* 0xEE-0xEF *)
  else if (b =? 240)%N then multi 4 144 hicb     (* 0xF0 *)
  else if (b <? 244)%N then multi 4 locb hicb    (* 0xF1-0xF3 *)
  else if (b =? 244)%N then multi 4 locb 143     (* 0xF4 *)
  else xx.

(** The width [DecodeRuneInString(s)] returns: the number of bytes of the
    first UTF-8 sequence of [s], [1] for a byte that starts no valid
    sequence, [0] for the empty string. *)
Definition DecodeRuneInString (s : string) : nat :=
  match s with
  | "" => 0
  | String s0 t =>
      match first s0 with
      | as_ | xx => 1
      | multi sz lo hi =>
          if (String.length s <? sz)%nat then 1 else
          match t with
          | "" => 1
          | String s1 t1 =>
              if negb (inRange lo hi s1) then 1
              else if (sz <=? 2)%nat then 2
              else match t1 with
                   | "" => 1
                   | String s2 t2 =>
                       if negb (inRange locb hicb s2) then 1
                       else if (sz <=? 3)%nat then 3
                       else match t2 with
                            | "" => 1
                            | String s3 _ =>
                                if negb (inRange locb hicb s3) then 1 else 4
                            end
                   end
          end
      end
  end.

End utf8.

(** ** [strings] *)

Module strings.

(** [s[n:]] *)
Fixpoint sliceFrom (n : nat) (s : string) : string :=
  match n, s with
  | 0, _ => s
  | S n', String _ t => sliceFrom n' t
  | S _, "" => ""
  end.

(** [s[:n]] *)
Fixpoint sliceTo (n : nat) (s : string) : string :=
  match n, s with
  | 0, _ => ""
  | S n', String c t => String c (sliceTo n' t)
  | S _, "" => ""
  end.

Fixpoint HasPrefix (s prefix : string) : bool :=
  match prefix, s with
  | "", _ => true
  | String _ _, "" => false
  | String a p, String b t => if Ascii.eqb a b then HasPrefix t p else false
  end.

(** [Index(s, substr)]: the index of the first instance of [substr] in
    [s]; [None] stands for Go's [-1]. *)
Fixpoint Index (s substr : string) : option nat :=
  if HasPrefix s substr then Some 0
  else match s with
       | "" => None
       | String _ t => S <$> Index t substr
       end.

Definition Contains (s substr : string) : bool :=
  if Index s substr is Some _ then true else false.

(** [utf8.RuneCountInString]: one step per [DecodeRuneInString]. *)
Fixpoint runeCount (fuel : nat) (s : string) : nat :=
  match fuel, s with
  | 0, _ | _, "" => 0
  | S f, _ => S (runeCount f (sliceFrom (utf8.DecodeRuneInString s) s))
  end.

Definition RuneCountInString (s : string) : nat :=
  runeCount (String.length s) s.

(** The loop of [Count] for a non-empty [substr]. *)
Fixpoint countLoop (fuel : nat) (s substr : string) : nat :=
  match fuel with
  | 0 => 0
  | S f =>
      match Index s substr with
      | None => 0
      | Some i => S (countLoop f (sliceFrom (i + String.length substr) s) substr)
      end
  end.

(** [Count(s, substr)]: the number of non-overlapping instances of
    [substr] in [s]; for the empty [substr], one more than the number of
    UTF-8 sequences of [s]. *)
Definition Count (s substr : string) : nat :=
  if String.eqb substr "" then RuneCountInString s + 1
  else countLoop (S (String.length s)) s substr.

(** The loop of [Replace]: [n] replacements are still to be made in
    [rest = s[start:]]; [first] says that this is iteration [i = 0]. *)
Fixpoint replaceLoop (old new : string) (n : nat) (first : bool) (rest : string)
  : string :=
  match n with
  | 0 => rest
  | S n' =>
      let j :=
        if String.eqb old "" then
          if first then 0 else utf8.DecodeRuneInString rest
        else
          (* n never exceeds Count(s, old), so the instance is there *)
          default 0 (Index rest old) in
      sliceTo j rest +:+ new +:+
      replaceLoop old new n' false (sliceFrom (j + String.length old) rest)
  end.

(** [Replace(s, old, new, n)] *)
Definition Replace (s old new : string) (n : Z) : string :=
  if String.eqb old new || (n =? 0)%Z then s
  else
    let m := Z.of_nat (Count s old) in
    if (m =? 0)%Z then s
    else
      let n := if (n <? 0)%Z || (m <? n)%Z then m else n in
      replaceLoop old new (Z.to_nat n) true s.

End strings.

(** ** [path]

    The functions are given on the elements of a path (the pieces between
    slashes), as the documentation of [Clean] states its rules. *)

Module path.

Definition slash : ascii := "/"%char.

(** The elements of [s]: [strings.Split(s, "/")]. *)
Fixpoint elements (s : string) : list string :=
  match s with
  | "" => [""]
  | String c t =>
      if Ascii.eqb c slash then "" :: elements t
      else match elements t with
           | x :: r => String c x :: r
           | [] => [String c ""]
           end
  end.

(** [strings.Join(l, "/")] *)
Definition join (l : list string) : string := String.concat "/" l.

Definition IsAbs (s : string) : bool :=
  match s with
  | String c _ => Ascii.eqb c slash
  | "" => false
  end.

(** One element [e] met by [Clean]; [out] holds the elements written so
    far, the last one first. *)
Definition cleanStep (rooted : bool) (out : list string) (e : string)
  : list string :=
  if String.eqb e "" || String.eqb e "." then out    (* empty and . elements *)
  else if String.eqb e ".." then
    match out with
    | x :: out' =>
        if String.eqb x ".." then ".." :: out        (* nothing to backtrack over *)
        else out'                                    (* can backtrack *)
    | [] => if rooted then [] else [".."]
    end
  else e :: out.                                     (* real path element *)

Definition cleanElements (rooted : bool) (l : list string) : list string :=
  rev (fold_left (cleanStep rooted) l []).

(** The cleaned path written out: its elements joined, after the slash
    of a rooted path; the empty result is turned into [.]. *)
Definition assemble (rooted : bool) (out : list string) : string :=
  if rooted then "/" +:+ join out
  else if String.eqb (join out) "" then "." else join out.

(** [Clean(path)] *)
Definition Clean (p : string) : string :=
  if String.eqb p "" then "."
  else assemble (IsAbs p) (cleanElements (IsAbs p) (elements p)).

Fixpoint hasSlash (s : string) : bool :=
  match s with
  | "" => false
  | String c t => Ascii.eqb c slash || hasSlash t
  end.

(** The first component of [Split(path)]: [path] up to and including its
    final slash. *)
Fixpoint splitDir (s : string) : string :=
  match s with
  | "" => ""
  | String c t =>
      if hasSlash t then String c (splitDir t)
      else if Ascii.eqb c slash then "/" else ""
  end.

(** [Dir(path)] *)
Definition Dir (p : string) : string := Clean (splitDir p).

End path.

(** ** [encoding/json]

    JSON text is kept in parsed form: a [RawMessage] is either bytes that are
    not valid JSON ([Malformed]) or the value they spell ([Encoded v]).  A
    value of Go's [interface{}] that came from JSON is the [Value] itself. *)

Module json.

Inductive Value :=
  | JNull
  | JBool (b : bool)
  | JNumber (literal : string)
  | JString (s : string)
  | JArray (elems : list Value)
  | JObject (members : list (string * Value)).

Inductive RawMessage :=
  | Malformed
  | Encoded (v : Value).

(** The word [UnmarshalTypeError.Value] names a JSON value by. *)
Definition kindName (v : Value) : string :=
  match v with
  | JNull => "null"
  | JBool _ => "bool"
  | JNumber _ => "number"
  | JString _ => "string"
  | JArray _ => "array"
  | JObject _ => "object"
  end.

(** A Go struct type all of whose fields are strings: the JSON names of
    its fields in declaration order, and how a field is assigned. *)
Record StructType (T : Type) := {
  typeName : string;
  fieldNames : list string;
  setField : string -> string -> T -> T;
}.
Arguments typeName {T}.
Arguments fieldNames {T}.
Arguments setField {T}.

(** [d.saveError]: the first error is the one reported. *)
Definition saveError (saved : option error) (e : error) : option error :=
  match saved with
  | Some _ => saved
  | None => Some e
  end.

(** A number that is decoded into an [interface{}] becomes a [float64]:
    [convertNumber] calls [strconv.ParseFloat(s, 64)], which fails when
    the value is out of range, that is when it rounds to an infinity.
    (A value too small for a [float64] rounds to zero without an error.) *)

Definition digitValue (c : ascii) : option N :=
  let n := N_of_ascii c in
  if ((48 <=? n) && (n <=? 57))%N then Some (n - 48)%N else None.

(** The leading digits of [s]: their value after [acc], their number after
    [count], and what follows them. *)
Fixpoint readDigits (s : string) (acc : N) (count : nat) : N * nat * string :=
  match s with
  | "" => (acc, count, s)
  | String c t =>
      match digitValue c with
      | Some d => readDigits t (10 * acc + d)%N (S count)
      | None => (acc, count, s)
      end
  end.

(** A number literal [-? digits (. digits)? ([eE] [+-]? digits)?] read as
    [(M, L, E)]: its absolute value is [M * 10^E], and [M] is written with
    [L] digits. *)
Definition parseNumber (literal : string) : option (N * nat * Z) :=
  let unsigned :=
    match literal with
    | String "-" t => t
    | _ => literal
    end in
  let '(m1, c1, rest1) := readDigits unsigned 0%N 0 in
  if (c1 =? 0)%nat then None
  else
    let fraction :=
      match rest1 with
      | String "." t =>
          let '(m2, c2, rest2) := readDigits t m1 c1 in
          if (c2 =? c1)%nat then None else Some (m2, c2, rest2)
      | _ => Some (m1, c1, rest1)
      end in
    match fraction with
    | None => None
    | Some (m, c, rest) =>
        let scale := Z.of_nat (c - c1) in
        let exponent (negative : bool) (t : string) :=
          let '(e, ce, rest3) := readDigits t 0%N 0 in
          if (ce =? 0)%nat then None
          else if negb (String.eqb rest3 "") then None
          else Some (m, c, ((if negative then - Z.of_N e else Z.of_N e) - scale)%Z) in
        match rest with
        | "" => Some (m, c, (- scale)%Z)
        | String "e" t | String "E" t =>
            match t with
            | String "+" t' => exponent false t'
            | String "-" t' => exponent true t'
            | _ => exponent false t
            end
        | _ => None
        end
    end.

(** The least value that rounds to an infinity: the largest [float64],
    [2^1024 - 2^971], and half a unit in its last place. *)
Definition overflowThreshold : N := (2 ^ 1024 - 2 ^ 970)%N.

(** Whether [strconv.ParseFloat(literal, 64)] returns without an error.
    (The literal of a [JNumber] is a JSON number; for a text that is none
    [ParseFloat] fails too.) *)
Definition fitsFloat64 (literal : string) : bool :=
  match parseNumber literal with
  | None => false
  | Some (M, L, E) =>
      if (M =? 0)%N then true
      else if (308 <? E)%Z then false                     (* at least 10^309 *)
      else if (0 <=? E)%Z then (M * 10 ^ Z.to_N E <? overflowThreshold)%N
      else if (Z.of_nat L <=? - E)%Z then true            (* less than 1 *)
      else (M <? overflowThreshold * 10 ^ Z.to_N (- E))%N
  end.

(** Whether every number in [v] is converted without an error. *)
Fixpoint numbersFit (v : Value) : bool :=
  match v with
  | JNumber literal => fitsFloat64 literal
  | JArray elems =>
      (fix all (l : list Value) : bool :=
         match l with
         | [] => true
         | x :: l' => numbersFit x && all l'
         end) elems
  | JObject members =>
      (fix all (l : list (string * Value)) : bool :=
         match l with
         | [] => true
         | (_, x) :: l' => numbersFit x && all l'
         end) members
  | _ => true
  end.

(** [Unmarshal(data, &m)] for [m] of type [map[string]interface{}]:
    members are stored in order, so a repeated key keeps its last value;
    [null] leaves the (nil) map without entries.  A number that does not
    fit a [float64], at any depth, makes the call return an error (the
    program only tests the error against nil; its text is not modelled). *)
Definition UnmarshalMap (data : RawMessage) : result (gmap string Value) :=
  match data with
  | Malformed => Err SyntaxError
  | Encoded JNull => Ok ∅
  | Encoded (JObject members) =>
      if forallb (fun kv => numbersFit kv.2) members
      then Ok (fold_left (fun m kv => <[kv.1 := kv.2]> m) members ∅)
      else Err (UnmarshalTypeError "number" "float64")
  | Encoded v => Err (UnmarshalTypeError (kindName v) "map[string]interface {}")
  end.

(** [Marshal(m)] for [m] of type [map[string]interface{}]: the members
    are written sorted by key; [None] is the nil map, written [null]. *)
Definition MarshalMap (m : option (gmap string Value)) : RawMessage :=
  match m with
  | None => Encoded JNull
  | Some m => Encoded (JObject (sortBy fst (map_to_list m)))
  end.

Section Decoder.

(** [foldName]: the case folding under which [Unmarshal] matches an
    object key with a struct field when no field has exactly that name
    (upper-casing of ASCII letters, simple folding of other runes). *)
Variable foldName : string -> string.

Context {T : Type} (ty : StructType T).

(** The field a key is decoded into: the field of that exact name, else
    the first field with the same folded name. *)
Definition findField (key : string) : option string :=
  if bool_decide (key ∈ fieldNames ty) then Some key
  else List.find (fun f => String.eqb (foldName f) (foldName key)) (fieldNames ty).

(** One member of an object decoded into the struct [v]. *)
Definition decodeMember (st : T * option error) (kv : string * Value)
  : T * option error :=
  let (v, saved) := st in
  match findField kv.1 with
  | None => st                                   (* unknown key: skipped *)
  | Some f =>
      match kv.2 with
      | JString s => (setField ty f s v, saved)
      | JNull => st                              (* null leaves a string as it is *)
      | other =>
          (v, saveError saved
                (UnmarshalTypeError (kindName other) (typeName ty +:+ "." +:+ f)))
      end
  end.

(** [Unmarshal(data, &v)] for a struct [v]: the struct as the call
    leaves it, and the error returned ([None] is [nil]).  After a type
    error decoding goes on, and the first error is returned. *)
Definition Unmarshal (data : RawMessage) (v : T) : T * option error :=
  match data with
  | Malformed => (v, Some SyntaxError)
  | Encoded JNull => (v, None)
  | Encoded (JObject members) => fold_left decodeMember members (v, None)
  | Encoded other => (v, Some (UnmarshalTypeError (kindName other) (typeName ty)))
  end.

End Decoder.

End json.

(** ** [os] and [filepath.WalkDir]: the file system

    A file system is a tree of directories and regular files together with
    the working directory of the process.  Symbolic links, permissions and
    input/output failures are not modelled: every error a function reports
    comes from the shape of the tree. *)

Module os.

Inductive Node :=
  | File (data : string)
  | Dir (entries : list (string * Node)).

Record FileSystem := {
  root : Node;             (* the directory "/" *)
  cwd : list string;       (* the working directory, as names from the root *)
}.

Definition IsDir (n : Node) : bool :=
  match n with
  | Dir _ => true
  | File _ => false
  end.

(** The entry called [name] among [es]. *)
Fixpoint entry (name : string) (es : list (string * Node)) : option Node :=
  match es with
  | [] => None
  | (k, n) :: es' => if String.eqb k name then Some n else entry name es'
  end.

(** [es] with the entry [name] set to [n] (added when there is none). *)
Fixpoint setEntry (name : string) (n : Node) (es : list (string * Node))
  : list (string * Node) :=
  match es with
  | [] => [(name, n)]
  | (k, x) :: es' =>
      if String.eqb k name then (k, n) :: es' else (k, x) :: setEntry name n es'
  end.

(** The node reached from [n] along the names [p]. *)
Fixpoint nodeAt (n : Node) (p : list string) : option Node :=
  match p with
  | [] => Some n
  | name :: p' =>
      match n with
      | Dir es =>
          match entry name es with
          | Some c => nodeAt c p'
          | None => None
          end
      | File _ => None
      end
  end.

(** [n] with the node along [p] set to [new]; the directories on the way
    exist already. *)
Fixpoint setNodeAt (n : Node) (p : list string) (new : Node) : Node :=
  match p with
  | [] => new
  | name :: p' =>
      match n with
      | Dir es =>
          match p', entry name es with
          | [], _ => Dir (setEntry name new es)
          | _ :: _, Some c => Dir (setEntry name (setNodeAt c p' new) es)
          | _ :: _, None => n
          end
      | File _ => n
      end
  end.

(** One element of a path name, looked up from the directory [at]: the
    kernel's path walk without symbolic links. *)
Definition walkStep (r : Node) (at_ : list string) (e : string)
  : Errno + list string :=
  match nodeAt r at_ with
  | None => inl ENOENT
  | Some (File _) => inl ENOTDIR
  | Some (Dir _) =>
      if String.eqb e "" || String.eqb e "." then inr at_
      else if String.eqb e ".." then inr (removelast at_)
      else match nodeAt r (at_ ++ [e]) with
           | Some _ => inr (at_ ++ [e])
           | None => inl ENOENT
           end
  end.

Fixpoint walk (r : Node) (at_ : list string) (es : list string)
  : Errno + list string :=
  match es with
  | [] => inr at_
  | e :: es' =>
      match walkStep r at_ e with
      | inl err => inl err
      | inr at' => walk r at' es'
      end
  end.

(** Where the walk of [name] starts. *)
Definition start (fs : FileSystem) (name : string) : list string :=
  if path.IsAbs name then [] else cwd fs.

(** The place [name] names, as names from the root. *)
Definition resolve (fs : FileSystem) (name : string) : Errno + list string :=
  if String.eqb name "" then inl ENOENT
  else walk (root fs) (start fs name) (path.elements name).

(** [os.IsNotExist(err)] *)
Definition IsNotExist (err : error) : bool :=
  match err with
  | PathError _ _ ENOENT => true
  | _ => false
  end.

(** [os.ReadFile(name)] *)
Definition ReadFile (name : string) (fs : FileSystem) : result string :=
  match resolve fs name with
  | inl e => Err (PathError "open" name e)
  | inr p =>
      match nodeAt (root fs) p with
      | Some (File data) => Ok data
      | Some (Dir _) => Err (PathError "read" name EISDIR)
      | None => Err (PathError "open" name ENOENT)
      end
  end.

(** [fs.DirEntry] / [fs.FileInfo]: the name and the kind. *)
Record DirEntry := {
  Name : string;
  entryIsDir : bool;
}.

(** The last element of a path, for [FileInfo.Name]. *)
Definition baseName (name : string) : string :=
  List.last (path.elements name) "".

(** [os.Lstat(name)] (and [os.Stat]: there are no symbolic links) *)
Definition Lstat (name : string) (fs : FileSystem) : result DirEntry :=
  match resolve fs name with
  | inl e => Err (PathError "lstat" name e)
  | inr p =>
      match nodeAt (root fs) p with
      | Some n => Ok {| Name := baseName name; entryIsDir := IsDir n |}
      | None => Err (PathError "lstat" name ENOENT)
      end
  end.

(** The entries of a directory sorted by file name. *)
Definition sortedEntries (es : list (string * Node)) : list (string * Node) :=
  sortBy fst es.

(** [os.ReadDir(name)]: the entries of the directory, sorted by file
    name. *)
Definition ReadDir (name : string) (fs : FileSystem) : result (list DirEntry) :=
  match resolve fs name with
  | inl e => Err (PathError "open" name e)
  | inr p =>
      match nodeAt (root fs) p with
      | Some (Dir es) =>
          Ok (map (fun kn => {| Name := kn.1; entryIsDir := IsDir kn.2 |})
                  (sortedEntries es))
      | Some (File _) => Err (PathError "readdirent" name ENOTDIR)
      | None => Err (PathError "open" name ENOENT)
      end
  end.

(** [os.WriteFile(name, data, perm)]: opens [name] for writing, creating
    or truncating it, and writes [data].  The result is the error
    ([None] is [nil]) and the file system afterwards. *)
Definition WriteFile (name : string) (data : string) (fs : FileSystem)
  : option error * FileSystem :=
  if String.eqb name "" then (Some (PathError "open" name ENOENT), fs)
  else
    let es := path.elements name in
    let final := List.last es "" in
    match walk (root fs) (start fs name) (removelast es) with
    | inl e => (Some (PathError "open" name e), fs)
    | inr dir =>
        match nodeAt (root fs) dir with
        | None => (Some (PathError "open" name ENOENT), fs)
        | Some (File _) => (Some (PathError "open" name ENOTDIR), fs)
        | Some (Dir _) =>
            if String.eqb final "" || String.eqb final "." || String.eqb final ".."
            then (Some (PathError "open" name EISDIR), fs)
            else
              match nodeAt (root fs) (dir ++ [final]) with
              | Some (Dir _) => (Some (PathError "open" name EISDIR), fs)
              | _ =>
                  (None,
                   {| root := setNodeAt (root fs) (dir ++ [final]) (File data);
                      cwd := cwd fs |})
              end
        end
    end.

(** The loop behind [MkdirAll]: the elements [es] of the path are walked
    from the directory [at_]; a missing directory is made.  [done] is the
    part of the path behind, for the error's [Path].  The result is the
    error ([None] is [nil]) and the tree afterwards. *)
Fixpoint mkdirAll (r : Node) (at_ : list string) (done : string)
  (es : list string) : option error * Node :=
  match es with
  | [] => (None, r)
  | e :: es' =>
      let here := if String.eqb done "" then e else done +:+ "/" +:+ e in
      match nodeAt r at_ with
      | None => (Some (PathError "mkdir" here ENOENT), r)
      | Some (File _) => (Some (PathError "mkdir" here ENOTDIR), r)
      | Some (Dir _) =>
          if String.eqb e "" || String.eqb e "." then mkdirAll r at_ here es'
          else if String.eqb e ".." then mkdirAll r (removelast at_) here es'
          else
            match nodeAt r (at_ ++ [e]) with
            | Some (Dir _) => mkdirAll r (at_ ++ [e]) here es'
            | Some (File _) => (Some (PathError "mkdir" here ENOTDIR), r)
            | None => mkdirAll (setNodeAt r (at_ ++ [e]) (Dir [])) (at_ ++ [e]) here es'
            end
      end
  end.

(** [os.MkdirAll(path, perm)]: makes the directory [path] and every
    missing parent; a directory that is there already is left alone.
    The program calls it with a cleaned path ([path.Dir]), for which
    walking the elements in order is what [MkdirAll] does. *)
Definition MkdirAll (name : string) (fs : FileSystem)
  : option error * FileSystem :=
  if String.eqb name "" then (Some (PathError "mkdir" name ENOENT), fs)
  else
    let (err, r) := mkdirAll (root fs) (start fs name) "" (path.elements name) in
    (err, {| root := r; cwd := cwd fs |}).

End os.

(** ** [path/filepath]

    On a Unix-like system [filepath.Clean] and [filepath.Join] follow the
    rules of [path.Clean] and [path.Join]. *)

Module filepath.

Definition Clean := path.Clean.

(** [Join(a, b)]: empty elements are ignored, the result is cleaned. *)
Definition Join (a b : string) : string :=
  match String.eqb a "", String.eqb b "" with
  | true, true => ""
  | true, false => Clean b
  | false, true => Clean a
  | false, false => Clean (a +:+ "/" +:+ b)
  end.

(** The elements the loop of [Rel] steps through in a cleaned path. *)
Definition relElements (s : string) : list string :=
  if String.eqb s "" then []
  else if String.eqb s "/" then [""]
  else path.elements s.

(** Drops the common leading elements of [base] and [targ]. *)
Fixpoint dropCommon (base targ : list string) : list string * list string :=
  match base, targ with
  | b :: base', t :: targ' =>
      if String.eqb b t then dropCommon base' targ' else (base, targ)
  | _, _ => (base, targ)
  end.

(** [Rel(basepath, targpath)] *)
Definition Rel (basepath targpath : string) : result string :=
  let base := Clean basepath in
  let targ := Clean targpath in
  if String.eqb targ base then Ok "."
  else
    let base := if String.eqb base "." then "" else base in
    if negb (Bool.eqb (path.IsAbs base) (path.IsAbs targ)) then
      Err (errorString ("Rel: can't make " +:+ targpath +:+ " relative to " +:+ basepath))
    else
      match dropCommon (relElements base) (relElements targ) with
      | (b :: brest, t :: trest) =>
          (* the loop stopped at two different elements *)
          if String.eqb b ".." then
            Err (errorString ("Rel: can't make " +:+ targpath +:+ " relative to " +:+ basepath))
          else Ok (path.join (repeat ".." (S (length brest)) ++ t :: trest))
      | (b :: brest, []) =>
          (* base elements left: go up *)
          Ok (path.join (repeat ".." (S (length brest))))
      | ([], trest) => Ok (path.join trest)
      end.

(** The height of a tree: no walk goes deeper. *)
Fixpoint height (n : os.Node) : nat :=
  match n with
  | os.File _ => 0
  | os.Dir es =>
      S ((fix heights (l : list (string * os.Node)) : nat :=
            match l with
            | [] => 0
            | (_, c) :: l' => Nat.max (height c) (heights l')
            end) es)
  end.

Section Walk.

(** The state the callback of the walk works on (in Go, the variables
    its closure captures). *)
Context {A : Type}.

(** [fs.WalkDirFunc]: the path, the entry ([None] is [nil]), the error
    of the walk ([None] is [nil]); the result is the error returned. *)
Definition WalkDirFunc : Type :=
  string -> option os.DirEntry -> option error -> A -> A * option error.

(** The loop of [walkDir] over the entries [dirs] of the directory
    [path] (lines [for _, d1 := range dirs]); [walk] is [walkDir]
    itself, for the entries. *)
Fixpoint walkEntries (walk : string -> os.DirEntry -> A -> A * option error)
  (path : string) (dirs : list os.DirEntry) (a : A) : A * option error :=
  match dirs with
  | [] => (a, None)
  | d1 :: dirs' =>
      let path1 := Join path (os.Name d1) in
      match walk path1 d1 a with
      | (a', Some SkipDir) => (a', None)        (* break *)
      | (a', Some err) => (a', Some err)
      | (a', None) => walkEntries walk path dirs' a'
      end
  end.

(** [walkDir(path, d, walkDirFn)]; [fuel] bounds the depth of the
    recursion. *)
Fixpoint walkDir (fuel : nat) (fs : os.FileSystem) (path : string)
  (d : os.DirEntry) (walkDirFn : WalkDirFunc) (a : A) : A * option error :=
  match fuel with
  | 0 => (a, Some (errorString "walkDir: deeper than the tree"))
  | S fuel' =>
      match walkDirFn path (Some d) None a with
      | (a1, Some err) =>
          match err with
          | SkipDir => if os.entryIsDir d then (a1, None) else (a1, Some err)
          | _ => (a1, Some err)
          end
      | (a1, None) =>
          if negb (os.entryIsDir d) then (a1, None)
          else
            match os.ReadDir path fs with
            | Ok dirs =>
                walkEntries (fun path1 d1 a => walkDir fuel' fs path1 d1 walkDirFn a)
                  path dirs a1
            | Err err =>
                (* second call, to report the ReadDir error *)
                match walkDirFn path (Some d) (Some err) a1 with
                | (a2, Some SkipDir) =>
                    if os.entryIsDir d then (a2, None) else (a2, Some SkipDir)
                | (a2, Some err2) => (a2, Some err2)
                | (a2, None) => (a2, None)
                end
            end
      end
  end.

(** [WalkDir(root, fn)] *)
Definition WalkDir (root : string) (fn : WalkDirFunc) (fs : os.FileSystem) (a : A)
  : A * option error :=
  let (a', err) :=
    match os.Lstat root fs with
    | Err err => fn root None (Some err) a
    | Ok info => walkDir (S (height (os.root fs))) fs root info fn a
    end in
  match err with
  | Some SkipDir | Some SkipAll => (a', None)
  | _ => (a', err)
  end.

End Walk.

End filepath.

(** ** [genai]: what the program sees of the model gateway

    A response is read through [resp.Candidates[0].Content.Parts]; the
    pointers in between may be nil. *)

Module genai.

Record FunctionCall := {
  Name : string;
  Args : option (gmap string json.Value);     (* map[string]any; [None] is nil *)
}.

Record FunctionResponse := {
  respName : string;
  Response : gmap string json.Value;          (* map[string]any *)
}.

(** The interface [Part] with the implementations the program tells
    apart; [OtherPart] stands for the remaining ones ([Blob], ...). *)
Inductive Part :=
  | Text (s : string)
  | Call (c : FunctionCall)
  | Resp (r : FunctionResponse)
  | OtherPart.

Record Content := { Parts : list Part }.

Record Candidate := { Content_ : option Content }.       (* *Content *)

Record GenerateContentResponse := {
  Candidates : list (option Candidate);                  (* []*Candidate *)
}.

(** [genai.Type], the type of a value in a schema. *)
Inductive Type_ :=
  | TypeUnspecified
  | TypeString
  | TypeNumber
  | TypeInteger
  | TypeBoolean
  | TypeArray
  | TypeObject.

(** [genai.Schema], with the fields the program sets; [Properties] is a
    [map[string]*Schema]. *)
Inductive Schema :=
  | mkSchema (schemaType : Type_) (description : string)
             (properties : gmap string Schema) (required : list string).

Definition schemaType (s : Schema) : Type_ := let (t, _, _, _) := s in t.
Definition Description (s : Schema) : string := let (_, d, _, _) := s in d.
Definition Properties (s : Schema) : gmap string Schema := let (_, _, p, _) := s in p.
Definition Required (s : Schema) : list string := let (_, _, _, r) := s in r.

End genai.

(** ** [main.go] *)

(** What the program writes and asks for, in order. *)
Inductive Event :=
  | EvBanner                                   (* "=== Chat with Gemini ... ===" *)
  | EvPrompt                                   (* "You: " *)
  | EvUserMessage (line : option string)       (* a.getUserMessage(); [None]: no more input *)
  | EvSendMessage (parts : list genai.Part)    (* session.SendMessage(ctx, parts...) *)
  | EvGemini (text : string)                   (* "Gemini: <text>" *)
  | EvTool (name : string) (inputJSON : json.RawMessage)   (* "tool: name(inputJSON)" *)
  | EvLog (msg : string).                      (* log.Println *)

(** What a tool function does: it panics, or returns its [(string, error)]
    and leaves a file system. *)
Definition ToolRun : Type := exec (result string * os.FileSystem).

Record ToolDefinition := {
  Name : string;
  Description : string;
  (* InputSchema, the schema advertised to the model, plays no part in
     running a tool and is left out *)
  Function : json.RawMessage -> os.FileSystem -> ToolRun;
}.

Record ReadFileInput := { ReadFileInput_Path : string }.

Record ListFilesInput := { ListFilesInput_Path : string }.

Record EditFileInput := {
  Path : string;
  OldStr : string;
  NewStr : string;
}.

Definition ReadFileInputType : json.StructType ReadFileInput := {|
  json.typeName := "ReadFileInput";
  json.fieldNames := ["path"];
  json.setField f s v :=
    if String.eqb f "path" then {| ReadFileInput_Path := s |} else v;
|}.

Definition ListFilesInputType : json.StructType ListFilesInput := {|
  json.typeName := "ListFilesInput";
  json.fieldNames := ["path"];
  json.setField f s v :=
    if String.eqb f "path" then {| ListFilesInput_Path := s |} else v;
|}.

Definition EditFileInputType : json.StructType EditFileInput := {|
  json.typeName := "EditFileInput";
  json.fieldNames := ["path"; "old_str"; "new_str"];
  json.setField f s v :=
    if String.eqb f "path" then {| Path := s; OldStr := OldStr v; NewStr := NewStr v |}
    else if String.eqb f "old_str" then {| Path := Path v; OldStr := s; NewStr := NewStr v |}
    else if String.eqb f "new_str" then {| Path := Path v; OldStr := OldStr v; NewStr := s |}
    else v;
|}.

(** The name Go prints for the dynamic type of a decoded JSON value. *)
Definition goTypeName (v : json.Value) : string :=
  match v with
  | json.JNull => "nil"
  | json.JBool _ => "bool"
  | json.JNumber _ => "float64"
  | json.JString _ => "string"
  | json.JArray _ => "[]interface {}"
  | json.JObject _ => "map[string]interface {}"
  end.

(** The type assertion [v.(string)]: it panics unless [v] holds a string. *)
Definition assertString (v : json.Value) : exec string :=
  match v with
  | json.JString s => Returns s
  | _ => Panics ("interface conversion: interface {} is " +:+ goTypeName v +:+ ", not string")
  end.

(** [createNewFile(filePath, content)] *)
Definition createNewFile (filePath content : string) (fs : os.FileSystem)
  : result string * os.FileSystem :=
  let dir := path.Dir filePath in
  let (err, fs) :=
    if negb (String.eqb dir ".") then os.MkdirAll dir fs else (None, fs) in
  match err with
  | Some err => (Err (wrapError "failed to create directory" err), fs)
  | None =>
      match os.WriteFile filePath content fs with
      | (Some err, fs) => (Err (wrapError "failed to create file" err), fs)
      | (None, fs) => (Ok ("Successfully created file " +:+ filePath), fs)
      end
  end.

(** [EditFile] from its validation on (lines 397-437): [editFileInput] is
    the input as decoded. *)
Definition editFile (editFileInput : EditFileInput) (fs : os.FileSystem)
  : result string * os.FileSystem :=
  (* Validate that we have the necessary fields *)
  let Path_ :=
    if String.eqb (Path editFileInput) "" then "./failed.txt"
    else Path editFileInput in
  let OldStr_ := OldStr editFileInput in
  let NewStr_ := NewStr editFileInput in
  if String.eqb OldStr_ NewStr_ && negb (String.eqb OldStr_ "") then
    (Err (errorString "old_str and new_str must be different"), fs)
  else
    (* Handle file creation or modification *)
    match os.ReadFile Path_ fs with
    | Err err =>
        if os.IsNotExist err then
          (* For new files, we'll accept an empty old_str *)
          if negb (String.eqb OldStr_ "") then
            (Err (errorString "file does not exist and old_str is not empty"), fs)
          else createNewFile Path_ NewStr_ fs
        else (Err err, fs)
    | Ok oldContent =>
        let newContent := strings.Replace oldContent OldStr_ NewStr_ (-1) in
        if String.eqb oldContent newContent && negb (String.eqb OldStr_ "") then
          (Err (errorString "old_str not found in file"), fs)
        else
          match os.WriteFile Path_ newContent fs with
          | (Some err, fs) => (Err err, fs)
          | (None, fs) => (Ok ("File " +:+ Path_ +:+ " updated successfully"), fs)
          end
    end.

Section Tools.

(** The case folding of [encoding/json] (see [json.findField]). *)
Variable foldName : string -> string.

(** The JSON text [json.Marshal] writes for a value. *)
Variable MarshalText : json.Value -> string.

(** [ReadFile(input)] *)
Definition ReadFile (input : json.RawMessage) (fs : os.FileSystem) : ToolRun :=
  let (readFileInput, err) :=
    json.Unmarshal foldName ReadFileInputType input {| ReadFileInput_Path := "" |} in
  match err with
  | Some err => Returns (Err err, fs)
  | None =>
      match os.ReadFile (ReadFileInput_Path readFileInput) fs with
      | Err err => Returns (Err err, fs)
      | Ok content => Returns (Ok content, fs)
      end
  end.

(** The callback [ListFiles] hands to [filepath.WalkDir]; its state is the
    slice [files]. *)
Definition listFilesWalkFn (dir : string) : @filepath.WalkDirFunc (list string) :=
  fun path d err files =>
    match err with
    | Some err => (files, Some err)
    | None =>
        match filepath.Rel dir path with
        | Err err => (files, Some err)
        | Ok relPath =>
            if negb (String.eqb relPath ".") then
              if (if d is Some d then os.entryIsDir d else false)
              then (files ++ [relPath +:+ "/"], None)
              else (files ++ [relPath], None)
            else (files, None)
        end
    end.

(** [ListFiles(input)] *)
Definition ListFiles (input : json.RawMessage) (fs : os.FileSystem) : ToolRun :=
  let (listFilesInput, err) :=
    json.Unmarshal foldName ListFilesInputType input {| ListFilesInput_Path := "" |} in
  match err with
  | Some err => Returns (Err (wrapError "failed to parse input" err), fs)
  | None =>
      let dir :=
        if negb (String.eqb (ListFilesInput_Path listFilesInput) "")
        then ListFilesInput_Path listFilesInput else "." in
      match filepath.WalkDir dir (listFilesWalkFn dir) fs [] with
      | (_, Some err) => Returns (Err err, fs)
      | (files, None) =>
          Returns (Ok (MarshalText (json.JArray (map json.JString files))), fs)
      end
  end.

(** The start of [EditFile] (lines 369-395): decoding the input, with
    the recovery of incomplete inputs. *)
Definition decodeEditFileInput (input : json.RawMessage)
  : exec (result EditFileInput) :=
  let (editFileInput, err) :=
    json.Unmarshal foldName EditFileInputType input
      {| Path := ""; OldStr := ""; NewStr := "" |} in
  match err with
  | None => Returns (Ok editFileInput)
  | Some err =>
      (* Handle the case where we might have incomplete inputs *)
      match json.UnmarshalMap input with
      | Err _ => Returns (Err (wrapError "invalid input format" err))
      | Ok partialInput =>
          (* Create default values for missing fields *)
          let withPath : exec string :=
            match partialInput !! "path" with
            | None => Returns "./fizzbuzz.js"
            | Some path =>
                if (if path is json.JString "" then true else false)
                then Returns "./fizzbuzz.js"
                else assertString path
            end in
          match withPath with
          | Panics msg => Panics msg
          | Returns Path_ =>
              let withOldStr : exec string :=
                match partialInput !! "old_str" with
                | None => Returns ""
                | Some json.JNull => Returns (OldStr editFileInput)
                | Some oldStr => assertString oldStr
                end in
              match withOldStr with
              | Panics msg => Panics msg
              | Returns OldStr_ =>
                  let withNewStr : exec string :=
                    match partialInput !! "new_str" with
                    | None | Some json.JNull => Returns (NewStr editFileInput)
                    | Some newStr => assertString newStr
                    end in
                  match withNewStr with
                  | Panics msg => Panics msg
                  | Returns NewStr_ =>
                      Returns (Ok {| Path := Path_; OldStr := OldStr_; NewStr := NewStr_ |})
                  end
              end
          end
      end
  end.

(** [EditFile(input)] *)
Definition EditFile (input : json.RawMessage) (fs : os.FileSystem) : ToolRun :=
  match decodeEditFileInput input with
  | Panics msg => Panics msg
  | Returns (Err err) => Returns (Err err, fs)
  | Returns (Ok editFileInput) => Returns (editFile editFileInput fs)
  end.

Definition ReadFileDefinition : ToolDefinition := {|
  Name := "read_file";
  Description := "Read the contents of a given relative file path. Use this when you want to see what's inside a file. Do not use this with directory names.";
  Function := ReadFile;
|}.

Definition ListFilesDefinition : ToolDefinition := {|
  Name := "list_files";
  Description := "List files and directories at a given path. If no path is provided, lists files in the current directory.";
  Function := ListFiles;
|}.

Definition EditFileDefinition : ToolDefinition := {|
  Name := "edit_file";
  Description := "Make edits to a text file.

Replaces 'old_str' with 'new_str' in the given file. 'old_str' and 'new_str' MUST be different from each other.

If the file specified with path doesn't exist, it will be created with new_str as its contents when old_str is empty.
";
  Function := EditFile;
|}.

(** The tools [main] registers. *)
Definition tools : list ToolDefinition :=
  [ReadFileDefinition; ListFilesDefinition; EditFileDefinition].

End Tools.

Section Agent.

(** The chat session of the model gateway ([*genai.ChatSession]) and its
    [SendMessage]: the gateway is outside the program, so both are taken
    as given.  A call returns the response or an error and leaves the
    session (the history) changed. *)
Variable Session : Type.
Variable SendMessage :
  Session -> list genai.Part -> result genai.GenerateContentResponse * Session.

Record Agent := {
  (* client: reached through the session *)
  (* getUserMessage: the lines of input, an argument of [Run] *)
  agentTools : list ToolDefinition;
}.

(** What the program works on: the chat session, the file system, and
    what it has written and asked for so far. *)
Record World := {
  session : Session;
  files : os.FileSystem;
  trace : list Event;
}.

Definition emit (evs : list Event) (w : World) : World :=
  {| session := session w; files := files w; trace := trace w ++ evs |}.

(** How a piece of the program ends: it goes on with a value, or the
    process panics. *)
Inductive outcome (T : Type) :=
  | Done (v : T) (w : World)
  | Crash (msg : string) (w : World).
Arguments Done {T} v w.
Arguments Crash {T} msg w.

(** [a.executeTool(name, input)] *)
Definition executeTool (a : Agent) (name : string)
  (input : option (gmap string json.Value)) (w : World)
  : outcome (gmap string json.Value) :=
  match List.find (fun tool => String.eqb (Name tool) name) (agentTools a) with
  | None => Done {[ "error" := json.JString "tool not found" ]} w
  | Some toolDef =>
      let inputJSON := json.MarshalMap input in
      let w := emit [EvTool name inputJSON] w in
      match Function toolDef inputJSON (files w) with
      | Panics msg => Crash msg w
      | Returns (Err err, fs) =>
          Done {[ "error" := json.JString (Error err) ]}
               {| session := session w; files := fs; trace := trace w |}
      | Returns (Ok response, fs) =>
          Done {[ "result" := json.JString response ]}
               {| session := session w; files := fs; trace := trace w |}
      end
  end.

(** [a.runInference(ctx, session, userInput)] *)
Definition runInference (userInput : string) (w : World)
  : result genai.GenerateContentResponse * World :=
  let w := emit [EvSendMessage [genai.Text userInput]] w in
  match SendMessage (session w) [genai.Text userInput] with
  | (Err err, s) =>
      (Err (errorString ("error sending message: " +:+ Error err)),
       {| session := s; files := files w; trace := trace w |})
  | (Ok response, s) =>
      (Ok response, {| session := s; files := files w; trace := trace w |})
  end.

(** [resp.Candidates[0].Content.Parts]: an index out of range or a nil
    pointer on the way panics. *)
Definition firstParts (resp : genai.GenerateContentResponse) : exec (list genai.Part) :=
  match genai.Candidates resp with
  | [] => Panics "runtime error: index out of range [0] with length 0"
  | None :: _ => Panics "runtime error: invalid memory address or nil pointer dereference"
  | Some c :: _ =>
      match genai.Content_ c with
      | None => Panics "runtime error: invalid memory address or nil pointer dereference"
      | Some content => Returns (genai.Parts content)
      end
  end.

(** The first loop over the parts of a response (lines 116-124): a text
    is printed, a function call is collected. *)
Fixpoint processParts (parts : list genai.Part)
  (toolCalls : list genai.FunctionCall) (w : World)
  : list genai.FunctionCall * World :=
  match parts with
  | [] => (toolCalls, w)
  | genai.Text v :: parts' => processParts parts' toolCalls (emit [EvGemini v] w)
  | genai.Call v :: parts' => processParts parts' (toolCalls ++ [v]) w
  | _ :: parts' => processParts parts' toolCalls w
  end.

(** The loop over the tool calls (lines 129-135). *)
Fixpoint runToolCalls (a : Agent) (toolCalls : list genai.FunctionCall)
  (toolParts : list genai.Part) (w : World) : outcome (list genai.Part) :=
  match toolCalls with
  | [] => Done toolParts w
  | call :: toolCalls' =>
      match executeTool a (genai.Name call) (genai.Args call) w with
      | Crash msg w => Crash msg w
      | Done result w =>
          runToolCalls a toolCalls'
            (toolParts ++ [genai.Resp {| genai.respName := genai.Name call;
                                         genai.Response := result |}]) w
      end
  end.

(** The loop that prints the response after the tools have run (lines
    145-149). *)
Fixpoint printTexts (parts : list genai.Part) (w : World) : World :=
  match parts with
  | [] => w
  | genai.Text text :: parts' => printTexts parts' (emit [EvGemini text] w)
  | _ :: parts' => printTexts parts' w
  end.

(** The body of the loop of [Run] once a line of input is there (lines
    108-150).  [Done None] goes on with the loop, [Done (Some err)] is
    [return err]. *)
Definition iteration (a : Agent) (userInput : string) (w : World)
  : outcome (option error) :=
  (* Send the user message and get response *)
  match runInference userInput w with
  | (Err err, w) =>
      Done (Some err) (emit [EvLog ("ERROR running inference: " +:+ Error err)] w)
  | (Ok resp, w) =>
      (* Process response parts *)
      match firstParts resp with
      | Panics msg => Crash msg w
      | Returns parts =>
          let (toolCalls, w) := processParts parts [] w in
          (* If there are tool calls, execute them and send results back *)
          if (0 <? length toolCalls)%nat then
            match runToolCalls a toolCalls [] w with
            | Crash msg w => Crash msg w
            | Done toolParts w =>
                (* Send tool responses back to the model *)
                let w := emit [EvSendMessage toolParts] w in
                match SendMessage (session w) toolParts with
                | (Err err, s) =>
                    Done (Some err)
                      (emit [EvLog ("ERROR sending tool response: " +:+ Error err)]
                         {| session := s; files := files w; trace := trace w |})
                | (Ok resp, s) =>
                    let w := {| session := s; files := files w; trace := trace w |} in
                    (* Print the model's response after tool execution *)
                    match firstParts resp with
                    | Panics msg => Crash msg w
                    | Returns parts => Done None (printTexts parts w)
                    end
                end
            end
          else Done None w
      end
  end.

(** The loop of [Run] (lines 100-153) over the lines the input still
    holds; after the last one [getUserMessage] reports the end of the
    input. *)
Fixpoint loop (a : Agent) (lines : list string) (w : World) : outcome (option error) :=
  (* Prompt for user input *)
  match lines with
  | [] => Done None (emit [EvPrompt; EvUserMessage None] w)          (* break *)
  | userInput :: lines' =>
      match iteration a userInput (emit [EvPrompt; EvUserMessage (Some userInput)] w) with
      | Done None w => loop a lines' w            (* Continue the loop to get new user input *)
      | Done (Some err) w => Done (Some err) w    (* return err *)
      | Crash msg w => Crash msg w
      end
  end.

(** [a.Run(ctx)]: [session] is the chat started on the model, [lines]
    the input. *)
Definition Run (a : Agent) (lines : list string) (w : World) : outcome (option error) :=
  loop a lines (emit [EvBanner] w).

End Agent.

Arguments Done {Session T} v w.
Arguments Crash {Session T} msg w.
Arguments session {Session} w.
Arguments files {Session} w.
Arguments trace {Session} w.
Arguments emit {Session} evs w.
Arguments executeTool {Session} a name input w.
Arguments runInference {Session} SendMessage userInput w.
Arguments processParts {Session} parts toolCalls w.
Arguments runToolCalls {Session} a toolCalls toolParts w.
Arguments printTexts {Session} parts w.
Arguments iteration {Session} SendMessage a userInput w.
Arguments loop {Session} SendMessage a lines w.
Arguments Run {Session} SendMessage a lines w.

(** ** The vocabulary of the properties *)

(** The arguments the model gives for [edit_file(path, old, new)], as
    [executeTool] hands them to the tool. *)
Definition editArgs (path old new : string) : json.RawMessage :=
  json.MarshalMap
    (Some {[ "path" := json.JString path;
             "old_str" := json.JString old;
             "new_str" := json.JString new ]}).

(** [old] occurs in [s]. *)
Definition occursIn (old s : string) : Prop :=
  exists pre post, s = pre +:+ old +:+ post.

(** [pre +:+ old +:+ post] shows the leftmost occurrence of [old]. *)
Definition leftmost (old pre post : string) : Prop :=
  forall pre' post',
    pre +:+ old +:+ post = pre' +:+ old +:+ post' ->
    String.length pre <= String.length pre'.

(** [replacedAll old new s r]: [r] is [s] with every occurrence of [old]
    replaced by [new], the occurrences taken from left to right and not
    overlapping. *)
Inductive replacedAll (old new : string) : string -> string -> Prop :=
  | replaced_none s :
      ~ occursIn old s -> replacedAll old new s s
  | replaced_next pre post r :
      leftmost old pre post ->
      replacedAll old new post r ->
      replacedAll old new (pre +:+ old +:+ post) (pre +:+ new +:+ r).

(** The UTF-8 sequences of [s], one after the other (a byte that starts no
    valid sequence stands alone). *)
Fixpoint runesFuel (fuel : nat) (s : string) : list string :=
  match fuel, s with
  | 0, _ | _, "" => []
  | S f, _ =>
      let w := utf8.DecodeRuneInString s in
      strings.sliceTo w s :: runesFuel f (strings.sliceFrom w s)
  end.

Definition runes (s : string) : list string := runesFuel (String.length s) s.


(** A plain name: not empty, not [.] or [..], without a slash. *)
Definition plainName (n : string) : bool :=
  negb (String.eqb n "") && negb (String.eqb n ".") && negb (String.eqb n "..")
  && negb (path.hasSlash n).

(** The path made of the plain names [names], relative to the working
    directory or ([abs]) from the root. *)
Definition plainPath (abs : bool) (names : list string) : string :=
  (if abs then "/" else "") +:+ path.join names.

(** Where the walk of a path starts: the root for an absolute path, else
    the working directory. *)
Definition base (abs : bool) (fs : os.FileSystem) : list string :=
  if abs then [] else os.cwd fs.


(** A decoded value that [v.(string)] accepts or the recovery skips: a
    string or [null]. *)
Definition stringOrNull (v : json.Value) : Prop :=
  v = json.JNull \/ exists s, v = json.JString s.




(** The arguments the model gives for [list_files(path)], or for
    [list_files()] without a path. *)
Definition listArgs (p : option string) : json.RawMessage :=
  json.MarshalMap
    (Some match p with
          | Some p => {[ "path" := json.JString p ]}
          | None => ∅
          end).

(** The directory [list_files] lists: the path given, [.] when none is. *)
Definition listDir (p : option string) : string :=
  match p with
  | Some s => if String.eqb s "" then "." else s
  | None => "."
  end.

(** A well-formed tree: in every directory the names are plain and no
    name is used twice. *)
Fixpoint wfNode (n : os.Node) : bool :=
  match n with
  | os.File _ => true
  | os.Dir es =>
      forallb plainName (map fst es)
      && bool_decide (NoDup (map fst es))
      && (fix wfEntries (l : list (string * os.Node)) : bool :=
            match l with
            | [] => true
            | (_, c) :: l' => wfNode c && wfEntries l'
            end) es
  end.

(** Everything below a node: for each entry of a directory, in the order
    of the names, the entry and then what is below it.  An item is the
    names that lead to it and whether it is a directory. *)
Definition below (name : string) (items : list (list string * bool))
  : list (list string * bool) :=
  map (fun '(names, isDir) => (name :: names, isDir)) items.

Fixpoint treeItems (n : os.Node) : list (list string * bool) :=
  match n with
  | os.File _ => []
  | os.Dir es =>
      concat
        (map snd
           (sortBy fst
              ((fix blocks (l : list (string * os.Node)) :=
                  match l with
                  | [] => []
                  | (name, c) :: l' =>
                      (name, ([name], os.IsDir c) :: below name (treeItems c))
                        :: blocks l'
                  end) es)))
  end.

(** The text of an item in the list: the names joined by slashes, with a
    trailing slash for a directory. *)
Definition itemText (item : list string * bool) : string :=
  path.join item.1 +:+ (if item.2 then "/" else "").

(** What [list_files] reports of a directory. *)
Definition listing (n : os.Node) : list string := map itemText (treeItems n).

(** An element [Clean] keeps as it is or as [..]: not empty, not [.],
    without a slash. *)
Definition realElement (e : string) : Prop :=
  e <> "" /\ e <> "." /\ path.hasSlash e = false.

(** What [Clean] has written so far ([out], last element first) is made
    of such elements, and cleaning it again changes nothing. *)
Definition cleanInv (rooted : bool) (out : list string) : Prop :=
  Forall realElement out /\ fold_left (path.cleanStep rooted) (rev out) [] = out.

(** The elements [Clean] keeps of a path. *)
Definition cleaned (p : string) : list string :=
  path.cleanElements (path.IsAbs p) (path.elements p).

(** The path [WalkDir] builds for what lies [names] below [dir]. *)
Definition pathBelow (dir : string) (names : list string) : string :=
  path.assemble (path.IsAbs dir) (cleaned dir ++ names).

(** An item of [treeItems] seen from [names] above. *)
Definition under (names : list string) (item : list string * bool) : list string * bool :=
  (names ++ item.1, item.2).

(** What [walkDir] with [fuel] does, in [ListFiles], with what lies
    [names] below the directory [dir], whose node is at [c]: it adds the
    item and then the items below it. *)
Definition walkedBelow (fs : os.FileSystem) (dir : string) (c : list string)
  (fuel : nat) : Prop :=
  forall names nd d files,
    names <> [] -> forallb plainName names = true ->
    os.nodeAt (os.root fs) (c ++ names) = Some nd ->
    wfNode nd = true -> filepath.height nd < fuel ->
    os.entryIsDir d = os.IsDir nd ->
    filepath.walkDir fuel fs (pathBelow dir names) d (listFilesWalkFn dir) files =
    (files ++ itemText (names, os.IsDir nd)
           :: map itemText (map (under names) (treeItems nd)), None).

(** The entry [ReadDir] reports for an entry of a directory. *)
Definition toDirEntry (kn : string * os.Node) : os.DirEntry :=
  {| os.Name := kn.1; os.entryIsDir := os.IsDir kn.2 |}.

(** Whether a place of a tree holds nothing, a file or a directory. *)
Definition kindAt (r : os.Node) (q : list string) : option bool :=
  os.IsDir <$> os.nodeAt r q.

(** Two trees with the same kinds everywhere. *)
Definition sameShape (r r' : os.Node) : Prop :=
  forall q, kindAt r' q = kindAt r q.

(** [r'] holds what [r] holds, of the same kind, and maybe more. *)
Definition grows (r r' : os.Node) : Prop :=
  forall q, kindAt r q <> None -> kindAt r' q = kindAt r q.

(** The texts and the function calls among the parts of a response, in
    order. *)
Fixpoint textsOf (parts : list genai.Part) : list string :=
  match parts with
  | [] => []
  | genai.Text s :: parts' => s :: textsOf parts'
  | _ :: parts' => textsOf parts'
  end.

Fixpoint callsOf (parts : list genai.Part) : list genai.FunctionCall :=
  match parts with
  | [] => []
  | genai.Call c :: parts' => c :: callsOf parts'
  | _ :: parts' => callsOf parts'
  end.

(** The world when the tool calls of a turn are about to run: the user's
    line has been read and sent, the session is [s1], and the texts of the
    response [parts1] have been printed. *)
Definition beforeToolCalls {Session : Type} (w : World Session) (userInput : string)
  (s1 : Session) (parts1 : list genai.Part) : World Session :=
  {| session := s1;
     files := files w;
     trace := trace w ++ [EvPrompt; EvUserMessage (Some userInput);
                          EvSendMessage [genai.Text userInput]]
                      ++ map EvGemini (textsOf parts1) |}.

(** The world when the loop is back at its start after a turn with tool
    calls: [w2] is the world the tool calls left, [toolParts] their
    results, [s2] the session after the follow-up, [parts2] its parts. *)
Definition afterFollowUp {Session : Type} (w2 : World Session)
  (toolParts : list genai.Part) (s2 : Session) (parts2 : list genai.Part)
  : World Session :=
  {| session := s2;
     files := files w2;
     trace := trace w2 ++ [EvSendMessage toolParts] ++ map EvGemini (textsOf parts2) |}.

(** The result [executeTool] gives for a call that names no tool. *)
Definition toolNotFound : gmap string json.Value :=
  {[ "error" := json.JString "tool not found" ]}.

(** [toolParts] holds one result per call of [calls], in their order, each
    under the name of its call, and "tool not found" for a call that names
    no tool of the agent. *)
Definition oneResultPerCall (a : Agent) (calls : list genai.FunctionCall)
  (toolParts : list genai.Part) : Prop :=
  Forall2 (fun call part =>
             exists result,
               part = genai.Resp {| genai.respName := genai.Name call;
                                    genai.Response := result |} /\
               ((forall tool, In tool (agentTools a) -> Name tool <> genai.Name call) ->
                result = toolNotFound))
          calls toolParts.

(** The rest of a turn once its tool calls have left the world [w2] and
    the results [toolParts] (lines 137-153): the results are sent in one
    message; an error ends [Run]; else the texts of the answer are printed
    and the loop goes on with the next line. *)
Definition followUp {Session : Type}
  (SendMessage : Session -> list genai.Part -> result genai.GenerateContentResponse * Session)
  (a : Agent) (lines : list string) (w2 : World Session) (toolParts : list genai.Part)
  : outcome Session (option error) :=
  match SendMessage (session w2) toolParts with
  | (Err err, s2) =>
      Done (Some err)
        {| session := s2; files := files w2;
           trace := trace w2 ++ [EvSendMessage toolParts;
                                 EvLog ("ERROR sending tool response: " +:+ Error err)] |}
  | (Ok resp2, s2) =>
      match firstParts resp2 with
      | Panics msg =>
          Crash msg {| session := s2; files := files w2;
                       trace := trace w2 ++ [EvSendMessage toolParts] |}
      | Returns parts2 => loop SendMessage a lines (afterFollowUp w2 toolParts s2 parts2)
      end
  end.

(** ** Instances and inputs for the examples *)

(** [foldName] on ASCII: lower-case letters are upper-cased. *)
Definition upperASCII (c : ascii) : ascii :=
  let n := N_of_ascii c in
  if ((97 <=? n) && (n <=? 122))%N then ascii_of_N (n - 32) else c.

Fixpoint foldASCII (s : string) : string :=
  match s with
  | "" => ""
  | String c t => String (upperASCII c) (foldASCII t)
  end.

(** A working directory [/work] that holds [a.txt] and the directory [b]
    with [b/c.txt]. *)
Definition sampleFS : os.FileSystem := {|
  os.root :=
    os.Dir [("work", os.Dir [("a.txt", os.File "aab");
                             ("b", os.Dir [("c.txt", os.File "hello")])])];
  os.cwd := ["work"];
|}.

(** JSON text for values whose strings need no escaping: the instance of
    [MarshalText] in the examples. *)
Definition quote : string := String (ascii_of_nat 34) "".

Fixpoint plainJSON (v : json.Value) : string :=
  match v with
  | json.JNull => "null"
  | json.JBool true => "true"
  | json.JBool false => "false"
  | json.JNumber literal => literal
  | json.JString s => quote +:+ s +:+ quote
  | json.JArray elems => "[" +:+ String.concat "," (map plainJSON elems) +:+ "]"
  | json.JObject members =>
      "{" +:+ String.concat ","
                (map (fun '(k, x) => quote +:+ k +:+ quote +:+ ":" +:+ plainJSON x) members)
          +:+ "}"
  end.

(** A gateway that answers from a script: the session is the list of the
    answers still to give. *)
Definition Script : Type := list (result genai.GenerateContentResponse).

Definition scriptedSend (s : Script) (parts : list genai.Part)
  : result genai.GenerateContentResponse * Script :=
  match s with
  | [] => (Err (errorString "no answer left"), [])
  | r :: s' => (r, s')
  end.

(** The answer of the gateway that carries [parts]. *)
Definition answer (parts : list genai.Part) : result genai.GenerateContentResponse :=
  Ok {| genai.Candidates :=
          [Some {| genai.Content_ := Some {| genai.Parts := parts |} |}] |}.

(** The agent [main] builds. *)
Definition sampleAgent : Agent :=
  {| agentTools := tools foldASCII plainJSON |}.


(** The world at the start of [Run]: the session [script], the files of
    [sampleFS], nothing written yet. *)
Definition worldOf (script : Script) : World Script :=
  {| session := script; files := sampleFS; trace := [] |}.

(** A response with two tool calls: a name that is not registered, then
    [read_file] of [a.txt]. *)
Definition unknownAndKnown : list genai.Part :=
  [genai.Call {| genai.Name := "no_such_tool"; genai.Args := None |};
   genai.Call {| genai.Name := "read_file";
                 genai.Args := Some {[ "path" := json.JString "a.txt" ]} |}].

(** A call of [edit_file] whose path is the number 5. *)
Definition editNumberedPath : genai.Part :=
  genai.Call {| genai.Name := "edit_file";
                genai.Args := Some {[ "path" := json.JNumber "5" ]} |}.

(** A call of [edit_file] that would overwrite [a.txt]. *)
Definition editCall : genai.Part :=
  genai.Call {| genai.Name := "edit_file";
                genai.Args := Some {[ "path" := json.JString "a.txt";
                                      "old_str" := json.JString "aab";
                                      "new_str" := json.JString "gone" ]} |}.


(** A session of two answers: the two tool calls of [unknownAndKnown],
    then a text together with a further tool call. *)
Definition followUpAnswer : list genai.Part := [genai.Text "done"; editCall].

Definition sampleScript : Script := [answer unknownAndKnown; answer followUpAnswer].

(** What the two tool calls of [unknownAndKnown] give, and the world they
    leave when the user's line was [go]. *)
Definition twoResults : list genai.Part :=
  [genai.Resp {| genai.respName := "no_such_tool"; genai.Response := toolNotFound |};
   genai.Resp {| genai.respName := "read_file";
                 genai.Response := {[ "result" := json.JString "aab" ]} |}].

Definition afterTwoCalls : World Script :=
  {| session := [answer followUpAnswer];
     files := sampleFS;
     trace := [EvPrompt; EvUserMessage (Some "go"); EvSendMessage [genai.Text "go"];
               EvTool "read_file"
                 (json.Encoded (json.JObject [("path", json.JString "a.txt")]))] |}.

(** ** [GenerateSchema] and the libraries it reads a schema with *)

(** The ordered map of [github.com/wk8/go-ordered-map]: the pairs in the
    order in which the keys were set first, the oldest first.  A [Pair] is
    an element of its list: the pair, the older pairs behind it (the
    nearest first) and the newer ones ahead. *)
Module orderedmap.

Section OrderedMap.

Context {K V : Type}.

Definition OrderedMap : Type := list (K * V).

Record Pair := {
  older : list (K * V);
  Key : K;
  Value : V;
  newer : list (K * V);
}.

(** [om.Oldest()]: [None] is nil, for the map without pairs. *)
Definition Oldest (om : OrderedMap) : option Pair :=
  match om with
  | [] => None
  | (k, v) :: rest => Some {| older := []; Key := k; Value := v; newer := rest |}
  end.

(** [om.Newest()] *)
Definition Newest (om : OrderedMap) : option Pair :=
  match rev om with
  | [] => None
  | (k, v) :: rest => Some {| older := rest; Key := k; Value := v; newer := [] |}
  end.

(** [pair.Next()]: the pair set next after this one, nil after the
    newest. *)
Definition Next (p : Pair) : option Pair :=
  match newer p with
  | [] => None
  | (k, v) :: rest =>
      Some {| older := (Key p, Value p) :: older p; Key := k; Value := v; newer := rest |}
  end.

(** [pair.Prev()]: the pair set last before this one, nil before the
    oldest. *)
Definition Prev (p : Pair) : option Pair :=
  match older p with
  | [] => None
  | (k, v) :: rest =>
      Some {| older := rest; Key := k; Value := v; newer := (Key p, Value p) :: newer p |}
  end.

End OrderedMap.

Arguments OrderedMap K V : clear implicits.
Arguments Pair K V : clear implicits.

End orderedmap.

(** [github.com/invopop/jsonschema]: the schema [Reflect] returns, with the
    fields [GenerateSchema] reads.  A nil [Properties] holds no pair. *)
Module jsonschema.

Inductive Schema :=
  | mkSchema (schemaType : string) (description : string)
             (properties : orderedmap.OrderedMap string Schema)
             (required : list string).

Definition Type_ (s : Schema) : string := let (t, _, _, _) := s in t.
Definition Description (s : Schema) : string := let (_, d, _, _) := s in d.
Definition Properties (s : Schema) : orderedmap.OrderedMap string Schema :=
  let (_, _, p, _) := s in p.
Definition Required (s : Schema) : list string := let (_, _, _, r) := s in r.

End jsonschema.

(** The [switch] of [GenerateSchema] (lines 270-285): the type of a
    property. *)
Definition schemaTypeOf (jsType : string) : genai.Type_ :=
  if String.eqb jsType "string" then genai.TypeString
  else if String.eqb jsType "number" then genai.TypeNumber
  else if String.eqb jsType "integer" then genai.TypeInteger
  else if String.eqb jsType "boolean" then genai.TypeBoolean
  else if String.eqb jsType "array" then genai.TypeArray
  else if String.eqb jsType "object" then genai.TypeObject
  else genai.TypeString.     (* Default to string if unknown *)

(** The loop [for pair := schema.Properties.Newest(); pair != nil;
    pair = pair.Next()] (lines 264-291); [fuel] bounds its rounds. *)
Fixpoint schemaProperties (fuel : nat)
  (pair : option (orderedmap.Pair string jsonschema.Schema))
  (properties : gmap string genai.Schema) : gmap string genai.Schema :=
  match fuel, pair with
  | S fuel', Some p =>
      let key := orderedmap.Key p in
      let jsSchema := orderedmap.Value p in
      let schemaType := schemaTypeOf (jsonschema.Type_ jsSchema) in
      schemaProperties fuel' (orderedmap.Next p)
        (<[ key := genai.mkSchema schemaType (jsonschema.Description jsSchema) ∅ [] ]>
           properties)
  | _, _ => properties
  end.

(** [GenerateSchema[T]()] from the schema [reflector.Reflect(v)] gives
    for [T]. *)
Definition GenerateSchema (schema : jsonschema.Schema) : genai.Schema :=
  (* Convert jsonschema properties to genai.Schema properties *)
  let required := jsonschema.Required schema in
  (* Only include properties that are actually defined *)
  let properties :=
    schemaProperties (S (length (jsonschema.Properties schema)))
      (orderedmap.Newest (jsonschema.Properties schema)) ∅ in
  (* Verify each required property exists in properties map *)
  let filteredRequired :=
    List.filter (fun req => bool_decide (is_Some (properties !! req))) required in
  genai.mkSchema genai.TypeObject "" properties filteredRequired.

(** ** The vocabulary of the further properties *)

(** The arguments the model gives for [read_file(path)]. *)
Definition readArgs (p : string) : json.RawMessage :=
  json.MarshalMap (Some {[ "path" := json.JString p ]}).

(** The path [EditFile] works on when the arguments name [p]. *)
Definition editedPath (p : string) : string :=
  if String.eqb p "" then "./failed.txt" else p.

(** Whether a call names one of the tools in [ts]. *)
Definition registered (ts : list ToolDefinition) (call : genai.FunctionCall) : bool :=
  existsb (fun tool => String.eqb (Name tool) (genai.Name call)) ts.

(** The line [executeTool] prints for a call. *)
Definition toolLine (call : genai.FunctionCall) : Event :=
  EvTool (genai.Name call) (json.MarshalMap (genai.Args call)).

(** A gateway that answers every message with the one text [ok]; its
    session counts the messages. *)
Definition textOnlySend (n : nat) (parts : list genai.Part)
  : result genai.GenerateContentResponse * nat :=
  (answer [genai.Text "ok"], S n).

(** [sampleFS] after [aa] has been replaced by [c] in [a.txt]. *)
Definition editedFS : os.FileSystem := {|
  os.root :=
    os.Dir [("work", os.Dir [("a.txt", os.File "cb");
                             ("b", os.Dir [("c.txt", os.File "hello")])])];
  os.cwd := ["work"];
|}.

(** ** The vocabulary of the characters

    The UTF-8 encoding of the Unicode Standard (chapter 3, table 3-6),
    written from the code point to the bytes. *)





(** ** The vocabulary of the recovery branch of [EditFile] *)





(** ** Further inputs for the examples *)


(** A response without a candidate. *)
Definition noCandidates : result genai.GenerateContentResponse :=
  Ok {| genai.Candidates := [] |}.
(* ================================================================== *)
(** * Part II. Lemmas and theorems *)
(* ================================================================== *)

(** ** Strings *)

Lemma append_cons (c : ascii) (a b : string) : String c a +:+ b = String c (a +:+ b).
Proof. reflexivity. Qed.

Lemma append_nil_l (s : string) : "" +:+ s = s.
Proof. reflexivity. Qed.

(** [String.append] does not unfold under [simpl]: its equations are
    rewritten with. *)
Ltac str_simpl :=
  repeat first [rewrite append_cons | rewrite append_nil_l | progress simpl].
Tactic Notation "str_simpl" "in" hyp(H) :=
  repeat first [rewrite append_cons in H | rewrite append_nil_l in H | progress simpl in H].

Lemma append_nil_r (s : string) : s +:+ "" = s.
Proof. induction s as [|c s IH]; str_simpl; [reflexivity | now rewrite IH]. Qed.

Lemma append_assoc (a b c : string) : (a +:+ b) +:+ c = a +:+ (b +:+ c).
Proof. induction a as [|x a IH]; str_simpl; [reflexivity | now rewrite IH]. Qed.

Lemma length_append (a b : string) :
  String.length (a +:+ b) = String.length a + String.length b.
Proof. induction a as [|x a IH]; str_simpl; [reflexivity | now rewrite IH]. Qed.

Lemma length_zero (s : string) : String.length s = 0 -> s = "".
Proof. destruct s; simpl; [reflexivity | discriminate]. Qed.

Lemma append_inv_same_length (a b c d : string) :
  a +:+ b = c +:+ d -> String.length a = String.length c -> a = c /\ b = d.
Proof.
  revert c. induction a as [|x a IH]; intros [|y c] H Hl; str_simpl in H;
    simpl in Hl; try discriminate.
  - now split.
  - injection H as -> H. destruct (IH c H) as [-> ->]; [lia | now split].
Qed.

Lemma sliceTo_sliceFrom (n : nat) (s : string) :
  strings.sliceTo n s +:+ strings.sliceFrom n s = s.
Proof.
  revert s. induction n as [|n IH]; intros [|c s]; str_simpl; try reflexivity.
  now rewrite IH.
Qed.

Lemma sliceTo_append (a b : string) : strings.sliceTo (String.length a) (a +:+ b) = a.
Proof. induction a as [|x a IH]; str_simpl; [now destruct b | now rewrite IH]. Qed.

Lemma sliceFrom_append (a b : string) : strings.sliceFrom (String.length a) (a +:+ b) = b.
Proof. induction a as [|x a IH]; str_simpl; [reflexivity | exact IH]. Qed.

Lemma sliceFrom_add (n m : nat) (s : string) :
  strings.sliceFrom (n + m) s = strings.sliceFrom m (strings.sliceFrom n s).
Proof.
  revert s. induction n as [|n IH]; intros s; simpl; [reflexivity|].
  destruct s as [|c s]; [now destruct m | apply IH].
Qed.

Lemma length_sliceFrom (n : nat) (s : string) :
  String.length (strings.sliceFrom n s) = String.length s - n.
Proof.
  revert s. induction n as [|n IH]; intros [|c s]; simpl; try lia. apply IH.
Qed.

Lemma HasPrefix_true (s p : string) :
  strings.HasPrefix s p = true <-> exists t, s = p +:+ t.
Proof.
  revert s. induction p as [|a p IH]; intros s; simpl.
  - split; [intros _; now exists s | now destruct s].
  - destruct s as [|b s]; simpl.
    + split; [discriminate | intros [t Ht]; discriminate].
    + destruct (Ascii.eqb_spec a b) as [->|Hne].
      * rewrite IH. split; intros [t Ht]; exists t;
          [now rewrite Ht | str_simpl in Ht; now injection Ht].
      * split; [discriminate |].
        intros [t Ht]; str_simpl in Ht; injection Ht as Hab _; now elim Hne.
Qed.

Lemma Index_nil (old : string) :
  strings.Index "" old = if strings.HasPrefix "" old then Some 0 else None.
Proof. reflexivity. Qed.

Lemma Index_cons (c : ascii) (s old : string) :
  strings.Index (String c s) old =
  if strings.HasPrefix (String c s) old then Some 0 else S <$> strings.Index s old.
Proof. reflexivity. Qed.

(** [Index] finds the leftmost occurrence. *)
Lemma Index_Some (s old : string) (i : nat) :
  strings.Index s old = Some i ->
  exists pre post,
    s = pre +:+ old +:+ post /\ String.length pre = i /\ leftmost old pre post.
Proof.
  revert i. induction s as [|c s IH]; intros i.
  - rewrite Index_nil. destruct (strings.HasPrefix "" old) eqn:Hp; [|discriminate].
    intros [= <-]. apply HasPrefix_true in Hp as [t Ht].
    exists "", t. split; [exact Ht|]. split; [reflexivity|]. intros pre' post' _. simpl. lia.
  - rewrite Index_cons. destruct (strings.HasPrefix (String c s) old) eqn:Hp.
    + intros [= <-]. apply HasPrefix_true in Hp as [t Ht].
      exists "", t. split; [exact Ht|]. split; [reflexivity|]. intros pre' post' _. simpl. lia.
    + destruct (strings.Index s old) as [j|] eqn:Hj; simpl; [|discriminate].
      intros [= <-]. destruct (IH j eq_refl) as (pre & post & Hs & Hl & Hmin).
      exists (String c pre), post. split; [str_simpl; now rewrite Hs|].
      split; [simpl; now rewrite Hl|].
      intros pre' post' Heq. destruct pre' as [|c' pre'].
      * exfalso. str_simpl in Heq. rewrite <- Hs in Heq.
        assert (strings.HasPrefix (String c s) old = true) as Ht
          by (apply HasPrefix_true; now exists post').
        congruence.
      * str_simpl in Heq. injection Heq as _ Heq. simpl. apply Hmin in Heq. lia.
Qed.

Lemma Index_None (s old : string) : strings.Index s old = None -> ~ occursIn old s.
Proof.
  induction s as [|c s IH].
  - rewrite Index_nil.
    destruct (strings.HasPrefix "" old) eqn:Hp; [discriminate|]. intros _ (pre & post & H).
    destruct pre; [|discriminate]. str_simpl in H.
    assert (strings.HasPrefix "" old = true) by (apply HasPrefix_true; now exists post).
    congruence.
  - rewrite Index_cons.
    destruct (strings.HasPrefix (String c s) old) eqn:Hp; [discriminate|].
    destruct (strings.Index s old) eqn:Hj; simpl; [discriminate|].
    intros _ (pre & post & H). destruct pre as [|c' pre].
    + str_simpl in H.
      assert (strings.HasPrefix (String c s) old = true) by (apply HasPrefix_true; now exists post).
      congruence.
    + str_simpl in H. injection H as _ H. apply IH; [reflexivity|]. now exists pre, post.
Qed.

Lemma Index_occurs (s old : string) : occursIn old s -> exists i, strings.Index s old = Some i.
Proof.
  intros H. destruct (strings.Index s old) eqn:E; [eauto|]. now apply Index_None in E.
Qed.

(** The replacements [Replace] makes, counted by [countLoop]. *)
Lemma replaceLoop_replacedAll (old new : string) (fuel : nat) (s : string) (b : bool) :
  old <> "" -> String.length s < fuel ->
  replacedAll old new s (strings.replaceLoop old new (strings.countLoop fuel s old) b s).
Proof.
  intros Hold. revert s b. induction fuel as [|f IH]; intros s b Hlen; [lia|].
  simpl. destruct (strings.Index s old) as [i|] eqn:Hi.
  - destruct (Index_Some _ _ _ Hi) as (pre & post & -> & Hl & Hmin).
    simpl. rewrite (proj2 (String.eqb_neq old "")) by exact Hold. rewrite Hi. simpl.
    rewrite <- Hl, sliceTo_append, sliceFrom_add, sliceFrom_append, sliceFrom_append.
    apply replaced_next; [exact Hmin|]. apply IH.
    rewrite !length_append in Hlen. destruct old; [congruence|]. simpl in Hlen. lia.
  - simpl. apply replaced_none. now apply Index_None.
Qed.

Lemma Replace_all (s old new : string) :
  old <> "" -> old <> new -> replacedAll old new s (strings.Replace s old new (-1)).
Proof.
  intros Hold Hne. unfold strings.Replace.
  rewrite (proj2 (String.eqb_neq old new)) by exact Hne. simpl.
  unfold strings.Count. rewrite (proj2 (String.eqb_neq old "")) by exact Hold.
  destruct (Z.eqb_spec (Z.of_nat (strings.countLoop (S (String.length s)) s old)) 0) as [E|E].
  - assert (strings.countLoop (S (String.length s)) s old = 0) as E0 by lia.
    pose proof (replaceLoop_replacedAll old new (S (String.length s)) s true Hold ltac:(lia)) as H.
    rewrite E0 in H. exact H.
  - rewrite Nat2Z.id. apply replaceLoop_replacedAll; [exact Hold | lia].
Qed.

(** The lengths: every replacement trades [old] for [new]. *)
Lemma replacedAll_length (old new s r : string) :
  replacedAll old new s r ->
  exists k, String.length r + k * String.length old = String.length s + k * String.length new.
Proof.
  induction 1 as [s _|pre post r _ _ [k IH]].
  - now exists 0.
  - exists (S k). rewrite !length_append. lia.
Qed.

Lemma replacedAll_changes (old new s r : string) :
  replacedAll old new s r -> occursIn old s -> old <> new -> r <> s.
Proof.
  intros H Hocc Hne. destruct H as [s Hno|pre post r Hmin H]; [contradiction|].
  intros Heq. apply String.app_inj in Heq.
  destruct (replacedAll_length _ _ _ _ H) as [k Hk].
  assert (String.length new = String.length old) as Hl.
  { apply (f_equal String.length) in Heq. rewrite !length_append in Heq. nia. }
  apply append_inv_same_length in Heq as [E _]; [|exact Hl]. congruence.
Qed.

Lemma replacedAll_none (old new s r : string) :
  replacedAll old new s r -> ~ occursIn old s -> r = s.
Proof.
  intros H Hno. destruct H as [s _|pre post r _ _]; [reflexivity|].
  elim Hno. now exists pre, post.
Qed.

(** *** The empty pattern: [Replace] inserts around every UTF-8 sequence *)

Lemma DecodeRuneInString_pos (c : ascii) (s : string) :
  1 <= utf8.DecodeRuneInString (String c s).
Proof.
  unfold utf8.DecodeRuneInString.
  repeat match goal with
         | |- context [match ?x with _ => _ end] => destruct x
         end; lia.
Qed.

Lemma concat_empty_cons (x : string) (l : list string) :
  String.concat "" (x :: l) = x +:+ String.concat "" l.
Proof. destruct l; simpl; [now rewrite append_nil_r | reflexivity]. Qed.




(** The sequences [runes] cuts a string into make up the string. *)
Lemma runesFuel_concat (fuel : nat) (s : string) :
  String.length s <= fuel -> String.concat "" (runesFuel fuel s) = s.
Proof.
  revert s. induction fuel as [|f IH]; intros s Hlen.
  - destruct s; [reflexivity | simpl in Hlen; lia].
  - destruct s as [|c s]; [reflexivity|].
    change (runesFuel (S f) (String c s))
      with (strings.sliceTo (utf8.DecodeRuneInString (String c s)) (String c s)
            :: runesFuel f (strings.sliceFrom (utf8.DecodeRuneInString (String c s)) (String c s))).
    pose proof (DecodeRuneInString_pos c s) as Hw.
    set (w := utf8.DecodeRuneInString (String c s)) in *.
    rewrite concat_empty_cons, IH; [apply sliceTo_sliceFrom|].
    rewrite length_sliceFrom. simpl in *. lia.
Qed.

Lemma runes_concat (s : string) : String.concat "" (runes s) = s.
Proof. now apply runesFuel_concat. Qed.

(** ** Characters and their UTF-8 encoding *)










(** ** The file system: trees *)

Lemma entry_setEntry_eq (name : string) (n : os.Node) (es : list (string * os.Node)) :
  os.entry name (os.setEntry name n es) = Some n.
Proof.
  induction es as [|[k x] es IH]; simpl.
  - now rewrite String.eqb_refl.
  - destruct (String.eqb_spec k name) as [->|Hne]; simpl.
    + now rewrite String.eqb_refl.
    + now rewrite (proj2 (String.eqb_neq k name)).
Qed.

Lemma entry_setEntry_ne (name k : string) (n : os.Node) (es : list (string * os.Node)) :
  name <> k -> os.entry k (os.setEntry name n es) = os.entry k es.
Proof.
  intros Hne. induction es as [|[k' x] es IH]; simpl.
  - now rewrite (proj2 (String.eqb_neq name k)).
  - destruct (String.eqb_spec k' name) as [->|Hne']; simpl.
    + now rewrite (proj2 (String.eqb_neq name k)).
    + now rewrite IH.
Qed.

Lemma setEntry_same (name : string) (n : os.Node) (es : list (string * os.Node)) :
  os.entry name es = Some n -> os.setEntry name n es = es.
Proof.
  induction es as [|[k x] es IH]; simpl; [discriminate|].
  destruct (String.eqb_spec k name) as [->|Hne].
  - now intros [= ->].
  - intros H. now rewrite IH.
Qed.

Lemma nodeAt_app (r : os.Node) (p q : list string) :
  os.nodeAt r (p ++ q) =
  match os.nodeAt r p with
  | Some n => os.nodeAt n q
  | None => None
  end.
Proof.
  revert r. induction p as [|name p IH]; intros r; simpl; [reflexivity|].
  destruct r as [data|es]; [reflexivity|].
  destruct (os.entry name es); [apply IH | reflexivity].
Qed.

Lemma nodeAt_File (data : string) (q : list string) :
  os.nodeAt (os.File data) q = match q with [] => Some (os.File data) | _ => None end.
Proof. now destruct q. Qed.

(** A node that has something below it is a directory. *)
Lemma nodeAt_below (r : os.Node) (p : list string) (e : string) (n : os.Node) :
  os.nodeAt r (p ++ [e]) = Some n -> exists es, os.nodeAt r p = Some (os.Dir es).
Proof.
  rewrite nodeAt_app. destruct (os.nodeAt r p) as [[data|es]|]; simpl; try discriminate.
  intros _. now exists es.
Qed.

(** The directory above a directory is a directory. *)
Lemma nodeAt_removelast (r : os.Node) (p : list string) (es : list (string * os.Node)) :
  os.nodeAt r p = Some (os.Dir es) ->
  exists es', os.nodeAt r (removelast p) = Some (os.Dir es').
Proof.
  intros H. destruct (list.nil_or_length_pos p) as [->|Hp]; [now exists es|].
  destruct (exists_last (l := p)) as (p' & e & ->); [now destruct p|].
  rewrite removelast_last. now apply (nodeAt_below r p' e (os.Dir es)).
Qed.

(** What [setNodeAt] builds at the place it sets, when the directory above
    is there. *)
Lemma nodeAt_setNodeAt (r : os.Node) (c q : list string) (new : os.Node) :
  c = [] \/ (exists es, os.nodeAt r (removelast c) = Some (os.Dir es)) ->
  os.nodeAt (os.setNodeAt r c new) (c ++ q) = os.nodeAt new q.
Proof.
  revert r. induction c as [|name c IH]; intros r H; [reflexivity|].
  destruct H as [H|[es0 H]]; [discriminate|].
  destruct r as [data|es].
  - destruct c; simpl in H; discriminate.
  - destruct c as [|name' c].
    + simpl. now rewrite entry_setEntry_eq.
    + change (removelast (name :: name' :: c)) with (name :: removelast (name' :: c)) in H.
      simpl in H. simpl. destruct (os.entry name es) as [ch|] eqn:E; [|discriminate].
      simpl. rewrite entry_setEntry_eq. apply (IH ch). right. now exists es0.
Qed.

(** The directory above a place that holds something. *)
Lemma nodeAt_above (r : os.Node) (c : list string) (n : os.Node) :
  os.nodeAt r c = Some n ->
  c = [] \/ (exists es, os.nodeAt r (removelast c) = Some (os.Dir es)).
Proof.
  intros H. destruct c as [|x c]; [now left | right].
  destruct (exists_last (l := x :: c)) as (p' & e & E); [discriminate|].
  rewrite E in *. rewrite removelast_last. now apply (nodeAt_below r p' e n).
Qed.

(** Elsewhere [setNodeAt] changes nothing. *)
Lemma nodeAt_setNodeAt_other (r : os.Node) (c q : list string) (new : os.Node) :
  ~ c `prefix_of` q -> ~ q `prefix_of` c ->
  os.nodeAt (os.setNodeAt r c new) q = os.nodeAt r q.
Proof.
  revert r q. induction c as [|name c IH]; intros r q Hcq Hqc.
  - elim Hcq. apply prefix_nil.
  - destruct q as [|k q]; [elim Hqc; apply prefix_nil|].
    destruct r as [data|es]; [reflexivity|].
    assert (name = k -> ~ c `prefix_of` q /\ ~ q `prefix_of` c) as Hsub.
    { intros ->. split; intros Hp; [apply Hcq | apply Hqc]; now apply prefix_cons. }
    destruct c as [|name' c].
    + simpl. destruct (String.eqb_spec name k) as [->|Hne].
      * elim Hcq. apply prefix_cons, prefix_nil.
      * now rewrite entry_setEntry_ne.
    + simpl. destruct (os.entry name es) as [ch|] eqn:E; [|reflexivity].
      simpl. destruct (String.eqb_spec name k) as [->|Hne].
      * rewrite entry_setEntry_eq, E. destruct Hsub as [H1 H2]; [reflexivity|]. now apply IH.
      * now rewrite entry_setEntry_ne.
Qed.

(** Above and beside the place it sets, [setNodeAt] keeps every kind. *)
Lemma kindAt_setNodeAt_other (r : os.Node) (c q : list string) (new : os.Node) :
  ~ c `prefix_of` q -> kindAt (os.setNodeAt r c new) q = kindAt r q.
Proof.
  unfold kindAt. revert r q. induction c as [|name c IH]; intros r q Hcq.
  - elim Hcq. apply prefix_nil.
  - destruct r as [data|es]; [reflexivity|].
    destruct q as [|k q].
    + destruct c as [|name' c]; simpl; [reflexivity|]. now destruct (os.entry name es).
    + assert (name = k -> ~ c `prefix_of` q) as Hsub.
      { intros -> Hp. apply Hcq. now apply prefix_cons. }
      destruct c as [|name' c].
      * simpl. destruct (String.eqb_spec name k) as [->|Hne].
        -- elim Hcq. apply prefix_cons, prefix_nil.
        -- now rewrite entry_setEntry_ne.
      * simpl. destruct (os.entry name es) as [ch|] eqn:E; [|reflexivity].
        simpl. destruct (String.eqb_spec name k) as [->|Hne].
        -- rewrite entry_setEntry_eq, E. now apply IH, Hsub.
        -- now rewrite entry_setEntry_ne.
Qed.

(** Writing new data into a file keeps the shape of the tree. *)
Lemma sameShape_setFile (r : os.Node) (c : list string) (old new : string) :
  os.nodeAt r c = Some (os.File old) -> sameShape r (os.setNodeAt r c (os.File new)).
Proof.
  intros H q. destruct (decide (c `prefix_of` q)) as [[q' ->]|Hn].
  - unfold kindAt. rewrite nodeAt_setNodeAt by (now apply nodeAt_above in H).
    rewrite nodeAt_app, H, !nodeAt_File. now destruct q'.
  - now apply kindAt_setNodeAt_other.
Qed.

(** ** The file system: walking a path *)

Lemma walk_app (r : os.Node) (at_ : list string) (es es' : list string) :
  os.walk r at_ (es ++ es') =
  match os.walk r at_ es with
  | inl e => inl e
  | inr at' => os.walk r at' es'
  end.
Proof.
  revert at_. induction es as [|e es IH]; intros at_; simpl; [reflexivity|].
  destruct (os.walkStep r at_ e); [reflexivity | apply IH].
Qed.

Lemma kindAt_Some_Dir (r : os.Node) (q : list string) :
  kindAt r q = Some true <-> exists es, os.nodeAt r q = Some (os.Dir es).
Proof.
  unfold kindAt. destruct (os.nodeAt r q) as [[data|es]|]; simpl.
  - split; [discriminate | intros [es' H]; discriminate].
  - split; [intros _; now exists es | reflexivity].
  - split; [discriminate | intros [es' H]; discriminate].
Qed.

Lemma walkStep_kinds (r : os.Node) (at_ : list string) (e : string) :
  os.walkStep r at_ e =
  match kindAt r at_ with
  | None => inl ENOENT
  | Some false => inl ENOTDIR
  | Some true =>
      if String.eqb e "" || String.eqb e "." then inr at_
      else if String.eqb e ".." then inr (removelast at_)
      else match kindAt r (at_ ++ [e]) with
           | Some _ => inr (at_ ++ [e])
           | None => inl ENOENT
           end
  end.
Proof.
  unfold os.walkStep, kindAt.
  destruct (os.nodeAt r at_) as [[data|es]|]; simpl; try reflexivity.
  now destruct (os.nodeAt r (at_ ++ [e])).
Qed.

Lemma walkStep_sameShape (r r' : os.Node) (at_ : list string) (e : string) :
  sameShape r r' -> os.walkStep r' at_ e = os.walkStep r at_ e.
Proof. intros H. now rewrite !walkStep_kinds, !H. Qed.

Lemma walk_sameShape (r r' : os.Node) (at_ : list string) (es : list string) :
  sameShape r r' -> os.walk r' at_ es = os.walk r at_ es.
Proof.
  intros H. revert at_. induction es as [|e es IH]; intros at_; simpl; [reflexivity|].
  rewrite (walkStep_sameShape r r') by exact H.
  destruct (os.walkStep r at_ e); [reflexivity | apply IH].
Qed.

(** A step ends in a directory unless it goes down by a name. *)
Lemma walkStep_inr (r : os.Node) (at_ : list string) (e : string) (c : list string) :
  os.walkStep r at_ e = inr c ->
  (exists es, os.nodeAt r at_ = Some (os.Dir es)) /\
  ((exists es, os.nodeAt r c = Some (os.Dir es)) \/
   (c = at_ ++ [e] /\ e <> "" /\ e <> "." /\ e <> ".." /\
    exists n, os.nodeAt r c = Some n)).
Proof.
  unfold os.walkStep. destruct (os.nodeAt r at_) as [[data|es]|] eqn:Hat; try discriminate.
  intros Hs. split; [now exists es|]. revert Hs.
  destruct (String.eqb_spec e "") as [->|H1]; simpl.
  { intros [= <-]. left. now exists es. }
  destruct (String.eqb_spec e ".") as [->|H2]; simpl.
  { intros [= <-]. left. now exists es. }
  destruct (String.eqb_spec e "..") as [->|H3].
  { intros [= <-]. left. now apply (nodeAt_removelast r at_ es). }
  destruct (os.nodeAt r (at_ ++ [e])) as [n|] eqn:Hn; [|discriminate].
  intros [= <-]. right. repeat split; try assumption. now exists n.
Qed.

(** The place a walk ends at holds something. *)
Lemma walk_inr_file (r : os.Node) (at_ c : list string) (es : list string) (data : string) :
  es <> [] ->
  os.walk r at_ es = inr c -> os.nodeAt r c = Some (os.File data) ->
  exists dir ents,
    os.walk r at_ (removelast es) = inr dir /\
    os.nodeAt r dir = Some (os.Dir ents) /\
    c = dir ++ [List.last es ""] /\
    List.last es "" <> "" /\ List.last es "" <> "." /\ List.last es "" <> "..".
Proof.
  intros Hes Hw Hc.
  destruct (exists_last Hes) as (es' & e & ->).
  rewrite removelast_last, last_last. rewrite walk_app in Hw.
  destruct (os.walk r at_ es') as [err|dir] eqn:Hd; [discriminate|].
  simpl in Hw. destruct (os.walkStep r dir e) as [err|c'] eqn:Hs; [discriminate|].
  injection Hw as ->. apply walkStep_inr in Hs as [[ents Hdir] [[es0 H0]|(-> & H1 & H2 & H3 & _)]].
  - congruence.
  - exists dir, ents. now repeat split.
Qed.

Lemma elements_nonempty (s : string) : path.elements s <> [].
Proof.
  destruct s as [|c s]; simpl; [discriminate|].
  destruct (Ascii.eqb c path.slash); [discriminate|].
  now destruct (path.elements s).
Qed.

(** ** The file system: reading and writing a file that is there *)

Lemma ReadFile_Ok (p : string) (fs : os.FileSystem) (data : string) :
  os.ReadFile p fs = Ok data <->
  exists c, os.resolve fs p = inr c /\ os.nodeAt (os.root fs) c = Some (os.File data).
Proof.
  unfold os.ReadFile. destruct (os.resolve fs p) as [e|c].
  - split; [discriminate | intros (c & H & _); discriminate].
  - destruct (os.nodeAt (os.root fs) c) as [[d|es]|] eqn:Hn.
    + split; [intros [= ->]; now exists c | intros (c' & [= <-] & H); congruence].
    + split; [discriminate | intros (c' & [= <-] & H); congruence].
    + split; [discriminate | intros (c' & [= <-] & H); congruence].
Qed.

Lemma resolve_nonempty (p : string) (fs : os.FileSystem) (c : list string) :
  os.resolve fs p = inr c -> p <> "".
Proof. unfold os.resolve. now destruct (String.eqb_spec p "") as [->|]. Qed.

Lemma resolve_walk (p : string) (fs : os.FileSystem) :
  p <> "" -> os.resolve fs p = os.walk (os.root fs) (os.start fs p) (path.elements p).
Proof. intros H. unfold os.resolve. now rewrite (proj2 (String.eqb_neq p "")). Qed.

(** Writing to a file that is there succeeds and leaves the new data in
    it. *)
Lemma WriteFile_existing (p : string) (fs : os.FileSystem) (old new : string) :
  os.ReadFile p fs = Ok old ->
  exists fs', os.WriteFile p new fs = (None, fs') /\ os.ReadFile p fs' = Ok new.
Proof.
  intros H. apply ReadFile_Ok in H as (c & Hr & Hc).
  pose proof (resolve_nonempty _ _ _ Hr) as Hp. rewrite resolve_walk in Hr by exact Hp.
  destruct (walk_inr_file _ _ _ _ _ (elements_nonempty p) Hr Hc)
    as (dir & ents & Hd & Hdir & -> & H1 & H2 & H3).
  unfold os.WriteFile. rewrite (proj2 (String.eqb_neq p "")) by exact Hp.
  rewrite Hd, Hdir.
  rewrite (proj2 (String.eqb_neq _ "")) by exact H1.
  rewrite (proj2 (String.eqb_neq _ ".")) by exact H2.
  rewrite (proj2 (String.eqb_neq _ "..")) by exact H3.
  simpl. rewrite Hc. eexists. split; [reflexivity|].
  apply ReadFile_Ok. exists (dir ++ [List.last (path.elements p) ""]).
  unfold os.resolve. rewrite (proj2 (String.eqb_neq p "")) by exact Hp.
  unfold os.start. simpl.
  rewrite (walk_sameShape (os.root fs)) by (eapply sameShape_setFile; exact Hc).
  split; [exact Hr|].
  rewrite <- (app_nil_r (dir ++ _)) at 2. rewrite nodeAt_setNodeAt; [reflexivity|].
  now apply nodeAt_above in Hc.
Qed.

(** ** The tools on well-formed arguments *)
Lemma editArgs_eq (p o n : string) :
  editArgs p o n =
  json.Encoded (json.JObject [("new_str", json.JString n); ("old_str", json.JString o);
                              ("path", json.JString p)]).
Proof. vm_compute. reflexivity. Qed.

Lemma decode_editArgs (foldName : string -> string) (p o n : string) :
  decodeEditFileInput foldName (editArgs p o n) =
  Returns (Ok {| Path := p; OldStr := o; NewStr := n |}).
Proof. rewrite editArgs_eq. reflexivity. Qed.

Section EditFileProperties.

Variable foldName : string -> string.

Lemma EditFile_editArgs (p o n : string) (fs : os.FileSystem) :
  EditFile foldName (editArgs p o n) fs =
  Returns (editFile {| Path := p; OldStr := o; NewStr := n |} fs).
Proof. unfold EditFile. now rewrite decode_editArgs. Qed.

Lemma ReadFile_Ok_nonempty (p : string) (fs : os.FileSystem) (data : string) :
  os.ReadFile p fs = Ok data -> p <> "".
Proof. intros H. apply ReadFile_Ok in H as (c & H & _). now apply resolve_nonempty in H. Qed.

(** [editFile] on a file that is there, past the check of the strings. *)
Lemma editFile_existing (p old new C : string) (fs : os.FileSystem) :
  os.ReadFile p fs = Ok C ->
  (String.eqb old new && negb (String.eqb old "")) = false ->
  editFile {| Path := p; OldStr := old; NewStr := new |} fs =
  if String.eqb C (strings.Replace C old new (-1)) && negb (String.eqb old "")
  then (Err (errorString "old_str not found in file"), fs)
  else match os.WriteFile p (strings.Replace C old new (-1)) fs with
       | (Some err, fs) => (Err err, fs)
       | (None, fs) => (Ok ("File " +:+ p +:+ " updated successfully"), fs)
       end.
Proof.
  intros HC Hchk. unfold editFile. cbn [Path OldStr NewStr].
  rewrite (proj2 (String.eqb_neq p "")) by (now apply ReadFile_Ok_nonempty in HC).
  now rewrite Hchk, HC.
Qed.

(** C6. For every non-empty string X and every path, edit_file(path,
    old=X, new=X) fails with the error "old_str and new_str must be
    different", whether or not the file exists, and leaves the file
    system as it was. *)
Theorem C6_same_strings_rejected (p X : string) (fs : os.FileSystem) :
  X <> "" ->
  EditFile foldName (editArgs p X X) fs =
  Returns (Err (errorString "old_str and new_str must be different"), fs).
Proof.
  intros HX. rewrite EditFile_editArgs. unfold editFile. cbn [Path OldStr NewStr].
  now rewrite String.eqb_refl, (proj2 (String.eqb_neq X "")).
Qed.

(** C5. For every existing file whose content does not contain the
    non-empty string old (old distinct from new), edit_file(path, old,
    new) fails with the error "old_str not found in file" and the file
    system, so the file's content, is unchanged. *)
Theorem C5_no_match_unchanged (p old new C : string) (fs : os.FileSystem) :
  os.ReadFile p fs = Ok C -> old <> "" -> old <> new -> ~ occursIn old C ->
  EditFile foldName (editArgs p old new) fs =
  Returns (Err (errorString "old_str not found in file"), fs).
Proof.
  intros HC Hold Hne Hno. rewrite EditFile_editArgs.
  rewrite (editFile_existing p old new C) by
    (try exact HC; now rewrite (proj2 (String.eqb_neq old new))).
  rewrite (replacedAll_none old new C _ (Replace_all C old new Hold Hne) Hno).
  now rewrite String.eqb_refl, (proj2 (String.eqb_neq old "")).
Qed.

(** The edit of a file that holds [old]. *)
Lemma EditFile_replaces (p old new C : string) (fs : os.FileSystem) :
  os.ReadFile p fs = Ok C -> old <> "" -> old <> new -> occursIn old C ->
  exists fs',
    EditFile foldName (editArgs p old new) fs =
      Returns (Ok ("File " +:+ p +:+ " updated successfully"), fs') /\
    os.ReadFile p fs' = Ok (strings.Replace C old new (-1)).
Proof.
  intros HC Hold Hne Hocc. rewrite EditFile_editArgs.
  rewrite (editFile_existing p old new C) by
    (try exact HC; now rewrite (proj2 (String.eqb_neq old new))).
  pose proof (Replace_all C old new Hold Hne) as Hall.
  pose proof (replacedAll_changes _ _ _ _ Hall Hocc Hne) as Hch.
  rewrite (proj2 (String.eqb_neq C _)) by congruence. simpl.
  destruct (WriteFile_existing p fs C (strings.Replace C old new (-1)) HC) as (fs' & -> & Hr).
  now exists fs'.
Qed.

(** C4 (amended). For every existing file with content C and every
    non-empty string old occurring in C (old distinct from new),
    edit_file succeeds and rewrites the file with every occurrence of old,
    taken from left to right without overlap, replaced by new (the strings
    are compared literally); the content changes.  Re-applying the same
    edit fails with "old_str not found in file" and changes nothing when
    old no longer occurs in the new content; when old occurs in it again,
    the edit succeeds once more and changes the content again. *)
Theorem C4_replaces_every_occurrence (p old new C : string) (fs : os.FileSystem) :
  os.ReadFile p fs = Ok C -> old <> "" -> old <> new -> occursIn old C ->
  exists fs' C',
    EditFile foldName (editArgs p old new) fs =
      Returns (Ok ("File " +:+ p +:+ " updated successfully"), fs') /\
    os.ReadFile p fs' = Ok C' /\
    replacedAll old new C C' /\ C' <> C /\
    (~ occursIn old C' ->
     EditFile foldName (editArgs p old new) fs' =
       Returns (Err (errorString "old_str not found in file"), fs')) /\
    (occursIn old C' ->
     exists fs'' C'',
       EditFile foldName (editArgs p old new) fs' =
         Returns (Ok ("File " +:+ p +:+ " updated successfully"), fs'') /\
       os.ReadFile p fs'' = Ok C'' /\ replacedAll old new C' C'' /\ C'' <> C').
Proof.
  intros HC Hold Hne Hocc.
  destruct (EditFile_replaces p old new C fs HC Hold Hne Hocc) as (fs' & He & Hr).
  pose proof (Replace_all C old new Hold Hne) as Hall.
  exists fs', (strings.Replace C old new (-1)). repeat split; try assumption.
  - now apply (replacedAll_changes old new).
  - intros Hno. now apply (C5_no_match_unchanged p old new _ fs' Hr).
  - intros Hocc'.
    destruct (EditFile_replaces p old new _ fs' Hr Hold Hne Hocc') as (fs'' & He' & Hr').
    pose proof (Replace_all (strings.Replace C old new (-1)) old new Hold Hne) as Hall'.
    exists fs'', (strings.Replace (strings.Replace C old new (-1)) old new (-1)).
    repeat split; try assumption. now apply (replacedAll_changes old new).
Qed.


End EditFileProperties.

(** ** Paths made of plain names *)

Lemma plainName_spec (n : string) :
  plainName n = true ->
  n <> "" /\ n <> "." /\ n <> ".." /\ path.hasSlash n = false.
Proof.
  unfold plainName. rewrite !andb_true_iff, !negb_true_iff, !String.eqb_neq. tauto.
Qed.

Lemma elements_noSlash (n : string) : path.hasSlash n = false -> path.elements n = [n].
Proof.
  induction n as [|c n IH]; simpl; [reflexivity|].
  destruct (Ascii.eqb c path.slash); simpl; [discriminate|].
  intros H. now rewrite IH.
Qed.

Lemma elements_append_slash (n s : string) :
  path.hasSlash n = false -> path.elements (n +:+ "/" +:+ s) = n :: path.elements s.
Proof.
  induction n as [|c n IH]; [reflexivity|].
  change (String c n +:+ "/" +:+ s) with (String c (n +:+ "/" +:+ s)). simpl.
  destruct (Ascii.eqb c path.slash); simpl; [discriminate|].
  intros H. now rewrite IH.
Qed.

Lemma join_cons (n : string) (l : list string) :
  l <> [] -> path.join (n :: l) = n +:+ "/" +:+ path.join l.
Proof. destruct l; [congruence | reflexivity]. Qed.

Lemma join_snoc (l : list string) (n : string) :
  l <> [] -> path.join (l ++ [n]) = path.join l +:+ "/" +:+ n.
Proof.
  induction l as [|x l IH]; [congruence|]. intros _.
  destruct l as [|y l]; [reflexivity|].
  change ((x :: y :: l) ++ [n]) with (x :: ((y :: l) ++ [n])).
  rewrite join_cons by (now destruct l). rewrite IH by discriminate.
  rewrite (join_cons x (y :: l)) by discriminate. now rewrite !append_assoc.
Qed.

Lemma elements_join (names : list string) :
  names <> [] -> forallb plainName names = true ->
  path.elements (path.join names) = names.
Proof.
  induction names as [|n names IH]; [congruence|]. intros _ H.
  apply andb_true_iff in H as [Hn H]. apply plainName_spec in Hn as (_ & _ & _ & Hn).
  destruct names as [|m names]; [now apply elements_noSlash|].
  rewrite join_cons by discriminate. rewrite elements_append_slash by exact Hn.
  now rewrite IH.
Qed.

Lemma join_nonempty (names : list string) :
  names <> [] -> forallb plainName names = true -> path.join names <> "".
Proof.
  intros Hn H E. pose proof (elements_join names Hn H) as He. rewrite E in He.
  simpl in He. destruct names as [|n [|m names]]; try discriminate.
  injection He as <-. discriminate.
Qed.

Lemma IsAbs_join (names : list string) :
  forallb plainName names = true -> path.IsAbs (path.join names) = false.
Proof.
  destruct names as [|n names]; [reflexivity|]. simpl. intros H.
  apply andb_true_iff in H as [Hn _]. apply plainName_spec in Hn as (Hne & _ & _ & Hs).
  destruct n as [|c n]; [congruence|]. simpl in Hs. apply orb_false_iff in Hs as [Hc _].
  destruct names as [|m names]; [exact Hc|].
  rewrite join_cons by discriminate. rewrite append_cons. exact Hc.
Qed.

Lemma hasSlash_append (a b : string) :
  path.hasSlash (a +:+ b) = path.hasSlash a || path.hasSlash b.
Proof.
  induction a as [|c a IH]; [reflexivity|]. rewrite append_cons. simpl.
  now rewrite IH, orb_assoc.
Qed.

Lemma splitDir_noSlash (n : string) : path.hasSlash n = false -> path.splitDir n = "".
Proof.
  destruct n as [|c n]; simpl; [reflexivity|]. intros H.
  apply orb_false_iff in H as [-> ->]. reflexivity.
Qed.

Lemma splitDir_append_slash (s n : string) :
  path.hasSlash n = false -> path.splitDir (s +:+ "/" +:+ n) = s +:+ "/".
Proof.
  intros Hn. induction s as [|c s IH].
  - change ("" +:+ "/" +:+ n) with (String "/" n). simpl. now rewrite Hn.
  - change (String c s +:+ "/" +:+ n) with (String c (s +:+ "/" +:+ n)).
    change (String c s +:+ "/") with (String c (s +:+ "/")).
    simpl. rewrite hasSlash_append.
    change (path.hasSlash ("/" +:+ n)) with (true || path.hasSlash n).
    rewrite orb_true_r. now rewrite IH.
Qed.

Lemma cleanElements_plain (rooted : bool) (names : list string) (out : list string) :
  forallb plainName names = true ->
  fold_left (path.cleanStep rooted) names out = rev names ++ out.
Proof.
  revert out. induction names as [|n names IH]; intros out H; [reflexivity|].
  simpl in H. apply andb_true_iff in H as [Hn H]. apply plainName_spec in Hn as (H1 & H2 & H3 & _).
  simpl. unfold path.cleanStep at 2.
  rewrite (proj2 (String.eqb_neq n "")), (proj2 (String.eqb_neq n ".")),
    (proj2 (String.eqb_neq n "..")) by assumption.
  simpl. rewrite IH by exact H. now rewrite <- app_assoc.
Qed.

Lemma elements_snoc_slash (s : string) :
  path.elements (s +:+ "/") = path.elements s ++ [""].
Proof.
  induction s as [|c s IH]; [reflexivity|].
  change (String c s +:+ "/") with (String c (s +:+ "/")). simpl.
  destruct (Ascii.eqb c path.slash); simpl; [now rewrite IH|].
  rewrite IH. pose proof (elements_nonempty s) as Hne.
  now destruct (path.elements s).
Qed.

Lemma Clean_join_slash (names : list string) :
  names <> [] -> forallb plainName names = true ->
  path.Clean (path.join names +:+ "/") = path.join names.
Proof.
  intros Hne H. unfold path.Clean.
  pose proof (join_nonempty names Hne H) as Hj.
  assert (path.join names +:+ "/" <> "") as Hj'.
  { intros E. apply (f_equal String.length) in E. rewrite length_append in E. simpl in E. lia. }
  rewrite (proj2 (String.eqb_neq _ "")) by exact Hj'.
  assert (path.IsAbs (path.join names +:+ "/") = false) as ->.
  { pose proof (IsAbs_join names H) as Ha. destruct (path.join names); [congruence | exact Ha]. }
  rewrite elements_snoc_slash, elements_join by assumption.
  unfold path.cleanElements. rewrite fold_left_app.
  rewrite (cleanElements_plain false names []) by exact H.
  simpl. change (path.cleanStep false (rev names ++ []) "") with (rev names ++ []).
  rewrite app_nil_r, rev_involutive.
  now rewrite (proj2 (String.eqb_neq _ "")).
Qed.

(** [path.Dir] of a path of plain names. *)
Lemma Dir_join_one (n : string) : plainName n = true -> path.Dir (path.join [n]) = ".".
Proof.
  intros H. apply plainName_spec in H as (_ & _ & _ & H).
  unfold path.Dir. simpl. now rewrite splitDir_noSlash.
Qed.

Lemma Dir_join_snoc (names : list string) (n : string) :
  names <> [] -> forallb plainName names = true -> plainName n = true ->
  path.Dir (path.join (names ++ [n])) = path.join names.
Proof.
  intros Hne H Hn. apply plainName_spec in Hn as (_ & _ & _ & Hn).
  unfold path.Dir. rewrite join_snoc by exact Hne.
  rewrite splitDir_append_slash by exact Hn. now apply Clean_join_slash.
Qed.

Lemma join_plain_not_dot (names : list string) :
  names <> [] -> forallb plainName names = true -> path.join names <> ".".
Proof.
  intros Hne H E. pose proof (elements_join names Hne H) as He. rewrite E in He.
  simpl in He. subst names. discriminate.
Qed.

(** ** The file system: making directories and files *)

Lemma grows_refl (r : os.Node) : grows r r.
Proof. now intros q _. Qed.

Lemma grows_trans (r1 r2 r3 : os.Node) : grows r1 r2 -> grows r2 r3 -> grows r1 r3.
Proof.
  intros H12 H23 q Hq. rewrite <- (H12 q Hq). apply H23. now rewrite (H12 q Hq).
Qed.

Lemma kindAt_app_None (r : os.Node) (c q : list string) :
  kindAt r c = None -> kindAt r (c ++ q) = None.
Proof.
  unfold kindAt. rewrite nodeAt_app. now destruct (os.nodeAt r c).
Qed.

(** Setting a place that held nothing makes the tree grow. *)
Lemma grows_setNodeAt_new (r : os.Node) (c : list string) (new : os.Node) :
  kindAt r c = None -> grows r (os.setNodeAt r c new).
Proof.
  intros Hc q Hq. apply kindAt_setNodeAt_other. intros [q' ->].
  apply Hq. now apply kindAt_app_None.
Qed.

Lemma kindAt_setNodeAt (r : os.Node) (c : list string) (new : os.Node) :
  kindAt r (removelast c) = Some true ->
  kindAt (os.setNodeAt r c new) c = Some (os.IsDir new).
Proof.
  intros H. unfold kindAt. rewrite <- (app_nil_r c) at 2.
  rewrite nodeAt_setNodeAt; [reflexivity|]. right. now apply kindAt_Some_Dir.
Qed.

Lemma kindAt_setNodeAt_below (r : os.Node) (c : list string) (e : string) :
  kindAt r (removelast c) = Some true ->
  kindAt (os.setNodeAt r c (os.Dir [])) (c ++ [e]) = None.
Proof.
  intros H. unfold kindAt.
  rewrite nodeAt_setNodeAt; [reflexivity|]. right. now apply kindAt_Some_Dir.
Qed.

Lemma walkStep_plain (r : os.Node) (at_ : list string) (e : string) :
  plainName e = true -> kindAt r at_ = Some true ->
  os.walkStep r at_ e =
  match kindAt r (at_ ++ [e]) with
  | Some _ => inr (at_ ++ [e])
  | None => inl ENOENT
  end.
Proof.
  intros He Hat. apply plainName_spec in He as (H1 & H2 & H3 & _).
  rewrite walkStep_kinds, Hat.
  now rewrite (proj2 (String.eqb_neq e "")), (proj2 (String.eqb_neq e ".")),
    (proj2 (String.eqb_neq e "..")).
Qed.

Lemma walkStep_grows (r r' : os.Node) (at_ c : list string) (e : string) :
  grows r r' -> os.walkStep r at_ e = inr c -> os.walkStep r' at_ e = inr c.
Proof.
  intros Hg. rewrite !walkStep_kinds.
  destruct (kindAt r at_) as [[|]|] eqn:Hat; try discriminate.
  rewrite (Hg at_), Hat by congruence.
  destruct (String.eqb e "" || String.eqb e "."); [easy|].
  destruct (String.eqb e ".."); [easy|].
  destruct (kindAt r (at_ ++ [e])) as [k|] eqn:Hk; [|discriminate].
  now rewrite (Hg (at_ ++ [e])), Hk by congruence.
Qed.

(** A walk that succeeds still succeeds, the same way, in a tree that has
    grown. *)
Lemma walk_grows (r r' : os.Node) (at_ c : list string) (es : list string) :
  grows r r' -> os.walk r at_ es = inr c -> os.walk r' at_ es = inr c.
Proof.
  intros Hg. revert at_. induction es as [|e es IH]; intros at_; simpl; [easy|].
  destruct (os.walkStep r at_ e) as [err|at'] eqn:Hs; [discriminate|].
  rewrite (walkStep_grows r r' at_ at' e Hg Hs). apply IH.
Qed.

(** The walk of plain names through directories. *)
Lemma walk_plain_dirs (r : os.Node) (at_ : list string) (names : list string) :
  forallb plainName names = true ->
  (forall k, k <= length names -> kindAt r (at_ ++ take k names) = Some true) ->
  os.walk r at_ names = inr (at_ ++ names).
Proof.
  revert at_. induction names as [|n names IH]; intros at_ H Hk.
  - simpl. now rewrite app_nil_r.
  - simpl in H. apply andb_true_iff in H as [Hn H]. simpl.
    rewrite walkStep_plain; [|exact Hn|].
    + pose proof (Hk 1 ltac:(simpl; lia)) as Hk1. simpl in Hk1. rewrite ?take_0 in Hk1.
      rewrite Hk1.
      rewrite IH; [now rewrite <- app_assoc | exact H |].
      intros k Hle. rewrite <- app_assoc. apply (Hk (S k)). simpl. lia.
    + specialize (Hk 0). simpl in Hk. rewrite ?take_0, app_nil_r in Hk. apply Hk. lia.
Qed.

(** [mkdirAll] along plain names below which [n] is not there: the
    directories are made, what was there stays, and [n] is still not
    there. *)
Lemma mkdirAll_plain (names : list string) (n : string) :
  forall (r : os.Node) (at_ : list string) (done : string),
    forallb plainName (names ++ [n]) = true ->
    kindAt r at_ = Some true ->
    os.walk r at_ (names ++ [n]) = inl ENOENT ->
    exists r',
      os.mkdirAll r at_ done names = (None, r') /\
      grows r r' /\
      (forall k, k <= length names -> kindAt r' (at_ ++ take k names) = Some true) /\
      kindAt r' (at_ ++ names ++ [n]) = None.
Proof.
  induction names as [|e names IH]; intros r at_ done H Hat Hw.
  - exists r. simpl. split; [reflexivity|]. split; [apply grows_refl|]. split.
    + intros k Hk. replace k with 0 by lia. simpl. now rewrite app_nil_r.
    + simpl in Hw, H. rewrite andb_true_r in H. rewrite walkStep_plain in Hw by assumption.
      now destruct (kindAt r (at_ ++ [n])).
  - change ((e :: names) ++ [n]) with (e :: (names ++ [n])) in *.
    simpl in H. apply andb_true_iff in H as [He H].
    pose proof (plainName_spec e He) as (H1 & H2 & H3 & _).
    simpl in Hw. rewrite walkStep_plain in Hw by assumption.
    apply kindAt_Some_Dir in Hat as Hdir. destruct Hdir as [ents Hdir].
    cbn [os.mkdirAll]. rewrite Hdir.
    rewrite (proj2 (String.eqb_neq e "")), (proj2 (String.eqb_neq e ".")),
      (proj2 (String.eqb_neq e "..")) by assumption.
    cbn [orb].
    set (here := if String.eqb done "" then e else done +:+ "/" +:+ e).
    assert (forall r', grows r r' ->
              (forall k, k <= length names -> kindAt r' ((at_ ++ [e]) ++ take k names) = Some true) ->
              forall k, k <= length (e :: names) ->
                kindAt r' (at_ ++ take k (e :: names)) = Some true) as Hks.
    { intros r' Hg Hk k Hle. destruct k as [|k].
      - simpl. rewrite app_nil_r. rewrite (Hg at_), Hat; congruence.
      - simpl. specialize (Hk k). rewrite <- app_assoc in Hk. apply Hk. simpl in Hle. lia. }
    destruct (os.nodeAt r (at_ ++ [e])) as [[data|ents']|] eqn:Hn.
    + (* a file is in the way: the walk would have said so *)
      exfalso. assert (kindAt r (at_ ++ [e]) = Some false) as Hk
        by (unfold kindAt; now rewrite Hn).
      rewrite Hk in Hw. destruct (names ++ [n]) as [|x l] eqn:E; [now destruct names|].
      simpl in Hw. rewrite walkStep_kinds, Hk in Hw. discriminate.
    + assert (kindAt r (at_ ++ [e]) = Some true) as Hk
        by (unfold kindAt; now rewrite Hn).
      rewrite Hk in Hw.
      destruct (IH r (at_ ++ [e]) here H Hk Hw) as (r' & Hm & Hg & Hks' & Hnone).
      exists r'. split; [exact Hm|]. split; [exact Hg|]. split; [now apply Hks|].
      now rewrite <- app_assoc in Hnone.
    + assert (kindAt r (at_ ++ [e]) = None) as Hk
        by (unfold kindAt; now rewrite Hn).
      set (r1 := os.setNodeAt r (at_ ++ [e]) (os.Dir [])).
      assert (grows r r1) as Hg1 by (now apply grows_setNodeAt_new).
      assert (kindAt r1 (at_ ++ [e]) = Some true) as Hk1.
      { unfold r1. rewrite kindAt_setNodeAt; [reflexivity|]. now rewrite removelast_last. }
      assert (os.walk r1 (at_ ++ [e]) (names ++ [n]) = inl ENOENT) as Hw1.
      { destruct (names ++ [n]) as [|x l] eqn:E; [now destruct names|].
        simpl. rewrite walkStep_plain; [| |exact Hk1].
        - unfold r1. rewrite kindAt_setNodeAt_below; [reflexivity|].
          now rewrite removelast_last.
        - simpl in H. now apply andb_true_iff in H as [Hx _]. }
      destruct (IH r1 (at_ ++ [e]) here H Hk1 Hw1) as (r' & Hm & Hg & Hks' & Hnone).
      exists r'. split; [exact Hm|]. split; [now apply (grows_trans r r1 r')|].
      split; [apply Hks; [now apply (grows_trans r r1 r') | exact Hks']|].
      now rewrite <- app_assoc in Hnone.
Qed.

(** The place a walk of at least one element ends at holds something. *)
Lemma walk_inr_exists (r : os.Node) (at_ c : list string) (es : list string) :
  es <> [] -> os.walk r at_ es = inr c -> kindAt r c <> None.
Proof.
  intros Hes Hw. destruct (exists_last Hes) as (es' & e & ->).
  rewrite walk_app in Hw. destruct (os.walk r at_ es') as [err|dir]; [discriminate|].
  simpl in Hw. destruct (os.walkStep r dir e) as [err|c'] eqn:Hs; [discriminate|].
  injection Hw as ->. apply walkStep_inr in Hs as [_ [[es0 H0]|(_ & _ & _ & _ & n & Hn)]];
    unfold kindAt; [now rewrite H0 | now rewrite Hn].
Qed.

(** Reading reports [ENOENT] when the walk does. *)
Lemma ReadFile_ENOENT (p : string) (fs : os.FileSystem) :
  os.ReadFile p fs = Err (PathError "open" p ENOENT) ->
  p = "" \/ os.walk (os.root fs) (os.start fs p) (path.elements p) = inl ENOENT.
Proof.
  destruct (String.eqb_spec p "") as [->|Hp]; [now left|]. right.
  revert H. unfold os.ReadFile. rewrite resolve_walk by exact Hp.
  destruct (os.walk (os.root fs) (os.start fs p) (path.elements p)) as [e|c] eqn:Hw.
  - now intros [= ->].
  - pose proof (walk_inr_exists _ _ _ _ (elements_nonempty p) Hw) as Hex.
    unfold kindAt in Hex. destruct (os.nodeAt (os.root fs) c) as [[d|es]|]; try discriminate.
    now elim Hex.
Qed.

Lemma forallb_take (names : list string) (k : nat) :
  forallb plainName names = true -> forallb plainName (take k names) = true.
Proof.
  revert k. induction names as [|n names IH]; intros [|k] H; simpl; try reflexivity.
  simpl in H. apply andb_true_iff in H as [-> H]. now apply IH.
Qed.


(** *** Relative and absolute paths of plain names *)

Lemma elements_plainPath (abs : bool) (names : list string) :
  names <> [] -> forallb plainName names = true ->
  path.elements (plainPath abs names) = (if abs then [""] else []) ++ names.
Proof.
  intros Hne H. unfold plainPath. destruct abs.
  - change ("/" +:+ path.join names) with (String "/" (path.join names)). simpl.
    now rewrite elements_join.
  - rewrite append_nil_l. now apply elements_join.
Qed.

Lemma IsAbs_plainPath (abs : bool) (names : list string) :
  forallb plainName names = true -> path.IsAbs (plainPath abs names) = abs.
Proof.
  intros H. unfold plainPath. destruct abs; [reflexivity|].
  rewrite append_nil_l. now apply IsAbs_join.
Qed.

Lemma plainPath_nonempty (abs : bool) (names : list string) :
  names <> [] -> forallb plainName names = true -> plainPath abs names <> "".
Proof.
  intros Hne H. unfold plainPath. destruct abs; [discriminate|].
  rewrite append_nil_l. now apply join_nonempty.
Qed.

Lemma start_plainPath (abs : bool) (names : list string) (fs : os.FileSystem) :
  forallb plainName names = true -> os.start fs (plainPath abs names) = base abs fs.
Proof. intros H. unfold os.start, base. now rewrite IsAbs_plainPath. Qed.

Lemma Dir_plainPath_one (abs : bool) (n : string) :
  plainName n = true -> path.Dir (plainPath abs [n]) = if abs then "/" else ".".
Proof.
  intros H. destruct abs; [|now apply Dir_join_one].
  apply plainName_spec in H as (_ & _ & _ & H).
  unfold path.Dir. change (plainPath true [n]) with ("" +:+ "/" +:+ n).
  now rewrite splitDir_append_slash.
Qed.

Lemma Dir_plainPath_snoc (abs : bool) (names : list string) (n : string) :
  names <> [] -> forallb plainName names = true -> plainName n = true ->
  path.Dir (plainPath abs (names ++ [n])) = plainPath abs names.
Proof.
  intros Hne H Hn. destruct abs; [|now apply Dir_join_snoc].
  apply plainName_spec in Hn as (_ & _ & _ & Hn).
  unfold path.Dir.
  change (plainPath true (names ++ [n])) with ("/" +:+ path.join (names ++ [n])).
  change (plainPath true names) with ("/" +:+ path.join names).
  rewrite join_snoc by exact Hne.
  rewrite <- append_assoc. rewrite splitDir_append_slash by exact Hn.
  unfold path.Clean.
  change (("/" +:+ path.join names) +:+ "/") with (String "/" (path.join names +:+ "/")).
  cbn [String.eqb path.IsAbs Ascii.eqb Bool.eqb path.slash path.elements].
  rewrite elements_snoc_slash, elements_join by assumption.
  unfold path.cleanElements.
  change (fold_left (path.cleanStep true) ("" :: names ++ [""]) [])
    with (fold_left (path.cleanStep true) (names ++ [""]) []).
  rewrite fold_left_app. rewrite (cleanElements_plain true names []) by exact H.
  simpl fold_left. change (path.cleanStep true (rev names ++ []) "") with (rev names ++ []).
  now rewrite app_nil_r, rev_involutive.
Qed.

Lemma kindAt_root (r : os.Node) (q : list string) :
  kindAt r q = Some true -> kindAt r [] = Some true.
Proof.
  unfold kindAt. destruct r as [data|es]; [|reflexivity].
  now rewrite nodeAt_File; destruct q.
Qed.

Lemma kindAt_base (abs : bool) (fs : os.FileSystem) :
  kindAt (os.root fs) (os.cwd fs) = Some true ->
  kindAt (os.root fs) (base abs fs) = Some true.
Proof. destruct abs; [apply kindAt_root | easy]. Qed.

(** The walk of a path of plain names is the walk of its names. *)
Lemma walk_plainPath (abs : bool) (names : list string) (r : os.Node) (cwd : list string) :
  kindAt r [] = Some true ->
  os.walk r (if abs then [] else cwd) ((if abs then [""] else []) ++ names) =
  os.walk r (if abs then [] else cwd) names.
Proof.
  intros Hr. destruct abs; [|reflexivity]. simpl. rewrite walkStep_kinds, Hr. reflexivity.
Qed.

Lemma mkdirAll_root (r : os.Node) (es : list string) :
  kindAt r [] = Some true -> os.mkdirAll r [] "" ("" :: es) = os.mkdirAll r [] "" es.
Proof.
  intros Hr. apply kindAt_Some_Dir in Hr as [ents Hr]. cbn [os.mkdirAll]. now rewrite Hr.
Qed.

(** [createNewFile] for a path of plain names that is not there: the
    missing directories are made and the file is written. *)
Lemma createNewFile_plain (abs : bool) (init : list string) (n X : string)
  (fs : os.FileSystem) :
  forallb plainName (init ++ [n]) = true ->
  kindAt (os.root fs) (os.cwd fs) = Some true ->
  os.walk (os.root fs) (base abs fs) (init ++ [n]) = inl ENOENT ->
  exists r',
    createNewFile (plainPath abs (init ++ [n])) X fs =
      (Ok ("Successfully created file " +:+ plainPath abs (init ++ [n])),
       {| os.root := r'; os.cwd := os.cwd fs |}) /\
    grows (os.root fs) r' /\
    (forall k, k <= length init -> kindAt r' (base abs fs ++ take k init) = Some true) /\
    os.nodeAt r' (base abs fs ++ init ++ [n]) = Some (os.File X).
Proof.
  intros H Hcwd Hw.
  pose proof (kindAt_base abs fs Hcwd) as Hbase.
  pose proof (kindAt_root _ _ Hcwd) as Hroot.
  pose proof H as Hin. rewrite forallb_app in Hin. apply andb_true_iff in Hin as [Hinit Hn].
  simpl in Hn. rewrite andb_true_r in Hn.
  pose proof (plainName_spec n Hn) as (Hn1 & Hn2 & Hn3 & _).
  assert (init ++ [n] <> []) as Hne by (now destruct init).
  pose proof (plainPath_nonempty abs _ Hne H) as Hp.
  (* the directories *)
  assert (exists r1,
            (if negb (String.eqb (path.Dir (plainPath abs (init ++ [n]))) ".")
             then os.MkdirAll (path.Dir (plainPath abs (init ++ [n]))) fs else (None, fs)) =
            (None, {| os.root := r1; os.cwd := os.cwd fs |}) /\
            grows (os.root fs) r1 /\
            (forall k, k <= length init -> kindAt r1 (base abs fs ++ take k init) = Some true) /\
            kindAt r1 (base abs fs ++ init ++ [n]) = None) as (r1 & Hmk & Hg1 & Hk1 & Hnone).
  { destruct (mkdirAll_plain init n (os.root fs) (base abs fs) "" H Hbase Hw)
      as (r1 & Hm & Hg & Hk & Hnone).
    destruct init as [|i0 init].
    - simpl in Hm. injection Hm as <-. exists (os.root fs). rewrite !app_nil_l.
      rewrite Dir_plainPath_one by exact Hn. rewrite app_nil_l in Hnone.
      split; [|now repeat split].
      destruct abs; cbn [String.eqb Ascii.eqb Bool.eqb negb]; [|now destruct fs].
      unfold os.MkdirAll. cbn [String.eqb]. unfold os.start.
      cbn [path.IsAbs Ascii.eqb Bool.eqb path.slash path.elements].
      rewrite !mkdirAll_root by exact Hroot. cbn [os.mkdirAll]. now destruct fs.
    - exists r1. rewrite Dir_plainPath_snoc by (try discriminate; assumption).
      assert (plainPath abs (i0 :: init) <> ".") as Hnd.
      { unfold plainPath. destruct abs.
        - intros E. apply (f_equal path.IsAbs) in E. discriminate.
        - rewrite append_nil_l. apply join_plain_not_dot; [discriminate | exact Hinit]. }
      rewrite (proj2 (String.eqb_neq _ ".")) by exact Hnd.
      simpl negb. cbv iota. unfold os.MkdirAll.
      rewrite (proj2 (String.eqb_neq _ ""))
        by (apply plainPath_nonempty; [discriminate | exact Hinit]).
      rewrite start_plainPath by exact Hinit.
      rewrite elements_plainPath by (try discriminate; exact Hinit).
      split; [|now repeat split].
      destruct abs; [|simpl app; now rewrite Hm].
      change (([""] ++ i0 :: init)) with ("" :: i0 :: init).
      unfold base in *. rewrite mkdirAll_root by exact Hroot. now rewrite Hm. }
  set (c := base abs fs ++ init ++ [n]) in *.
  exists (os.setNodeAt r1 c (os.File X)).
  assert (kindAt r1 (removelast c) = Some true) as Hparent.
  { unfold c. rewrite !app_assoc, removelast_last.
    specialize (Hk1 (length init) (le_n _)). now rewrite firstn_all in Hk1. }
  assert (grows r1 (os.setNodeAt r1 c (os.File X))) as Hg2 by (now apply grows_setNodeAt_new).
  split; [|split; [|split]].
  - unfold createNewFile. rewrite Hmk. unfold os.WriteFile.
    rewrite (proj2 (String.eqb_neq _ "")) by exact Hp.
    rewrite start_plainPath by exact H. unfold base at 1. cbn [os.root os.cwd].
    rewrite elements_plainPath by assumption.
    rewrite app_assoc, removelast_last, last_last.
    fold (base abs fs).
    assert (os.walk r1 (base abs fs) ((if abs then [""] else []) ++ init) =
            inr (base abs fs ++ init)) as ->.
    { unfold base. rewrite walk_plainPath by (rewrite (Hg1 []); congruence).
      now apply walk_plain_dirs. }
    specialize (Hk1 (length init) (le_n _)). rewrite firstn_all in Hk1.
    apply kindAt_Some_Dir in Hk1 as [ents ->].
    rewrite (proj2 (String.eqb_neq n "")), (proj2 (String.eqb_neq n ".")),
      (proj2 (String.eqb_neq n "..")) by assumption.
    cbn [orb]. rewrite <- app_assoc. fold c.
    unfold kindAt in Hnone. destruct (os.nodeAt r1 c); [discriminate|]. reflexivity.
  - now apply (grows_trans _ r1).
  - intros k Hk. rewrite (Hg2 _); [now apply Hk1 | rewrite Hk1 by exact Hk; discriminate].
  - rewrite <- (app_nil_r c) at 2. rewrite nodeAt_setNodeAt; [reflexivity|].
    right. now apply kindAt_Some_Dir.
Qed.

(** ** Creating a file with [edit_file] *)

Lemma resolve_plainPath (abs : bool) (names : list string) (fs : os.FileSystem) :
  names <> [] -> forallb plainName names = true ->
  kindAt (os.root fs) [] = Some true ->
  os.resolve fs (plainPath abs names) = os.walk (os.root fs) (base abs fs) names.
Proof.
  intros Hne H Hroot. rewrite resolve_walk by (now apply plainPath_nonempty).
  rewrite start_plainPath, elements_plainPath by assumption.
  unfold base. now apply walk_plainPath.
Qed.

Lemma resolve_plain_dirs (abs : bool) (names : list string) (fs : os.FileSystem) :
  names <> [] -> forallb plainName names = true ->
  (forall k, k <= length names -> kindAt (os.root fs) (base abs fs ++ take k names) = Some true) ->
  os.resolve fs (plainPath abs names) = inr (base abs fs ++ names).
Proof.
  intros Hne H Hk. rewrite resolve_plainPath; [now apply walk_plain_dirs | exact Hne | exact H |].
  apply (kindAt_root _ (base abs fs ++ take 0 names)). apply Hk. lia.
Qed.

Section CreateFile.

Variable foldName : string -> string.

(** C3 (amended). For every path p made of one or more plain names
    separated by single slashes, relative or absolute, such that reading
    p reports that it does not exist, and for every string X (the working
    directory being there): edit_file(p, old="", new=X) succeeds with the
    result "Successfully created file p", and afterwards p is a file with
    content exactly X and every directory on the way to p exists.  The
    empty path is left out: it is replaced by ./failed.txt. *)
Theorem C3_creates_missing_file (abs : bool) (names : list string) (X : string)
  (fs : os.FileSystem) :
  names <> [] -> forallb plainName names = true ->
  kindAt (os.root fs) (os.cwd fs) = Some true ->
  os.ReadFile (plainPath abs names) fs =
    Err (PathError "open" (plainPath abs names) ENOENT) ->
  exists fs',
    EditFile foldName (editArgs (plainPath abs names) "" X) fs =
      Returns (Ok ("Successfully created file " +:+ plainPath abs names), fs') /\
    os.ReadFile (plainPath abs names) fs' = Ok X /\
    forall k, 0 < k < length names ->
      exists d, os.Lstat (plainPath abs (take k names)) fs' = Ok d /\
                os.entryIsDir d = true.
Proof.
  intros Hne H Hcwd Hread.
  pose proof (kindAt_root _ _ Hcwd) as Hroot.
  pose proof (plainPath_nonempty abs names Hne H) as Hp.
  destruct (ReadFile_ENOENT _ _ Hread) as [E|Hw]; [contradiction|].
  rewrite <- resolve_walk, resolve_plainPath in Hw by assumption.
  destruct (exists_last Hne) as (init & n & ->).
  destruct (createNewFile_plain abs init n X fs H Hcwd Hw) as (r' & Hc & Hg & Hk & Hfile).
  pose proof H as Hin. rewrite forallb_app in Hin. apply andb_true_iff in Hin as [Hinit Hn].
  simpl in Hn. rewrite andb_true_r in Hn.
  set (fs' := {| os.root := r'; os.cwd := os.cwd fs |}).
  assert (kindAt r' [] = Some true) as Hroot' by (rewrite (Hg []); congruence).
  exists fs'. split; [|split].
  - rewrite EditFile_editArgs. unfold editFile. cbn [Path OldStr NewStr].
    rewrite (proj2 (String.eqb_neq (plainPath abs (init ++ [n])) "")) by exact Hp.
    rewrite Hread. cbn [String.eqb negb andb os.IsNotExist].
    rewrite andb_false_r. now rewrite Hc.
  - apply ReadFile_Ok. exists (base abs fs ++ init ++ [n]). split; [|exact Hfile].
    rewrite resolve_plainPath by assumption. change (base abs fs') with (base abs fs).
    cbn [os.root fs']. rewrite walk_app, (walk_plain_dirs r' _ init Hinit Hk).
    simpl. rewrite walkStep_plain; [| exact Hn |].
    + rewrite <- !app_assoc. unfold kindAt. now rewrite Hfile.
    + specialize (Hk (length init) (le_n _)). now rewrite firstn_all in Hk.
  - intros k [Hk0 Hk1]. rewrite length_app in Hk1. simpl in Hk1.
    assert (take k (init ++ [n]) = take k init) as ->
      by (rewrite take_app_le by lia; reflexivity).
    assert (take k init <> []) as Hne'.
    { destruct init as [|i0 init]; [simpl in Hk1; lia|].
      destruct k as [|k]; [lia|]. simpl. discriminate. }
    pose proof (forallb_take init k Hinit) as Htake.
    assert (os.resolve fs' (plainPath abs (take k init)) = inr (base abs fs ++ take k init)) as Hr.
    { apply (resolve_plain_dirs abs (take k init) fs' Hne' Htake).
      intros j Hj. rewrite length_take in Hj. rewrite take_take.
      apply Hk. lia. }
    unfold os.Lstat. rewrite Hr. cbn [os.root fs'].
    pose proof (Hk k ltac:(lia)) as Hkk. apply kindAt_Some_Dir in Hkk as [ents ->].
    eexists. split; reflexivity.
Qed.

End CreateFile.

(** ** Decoding the arguments of a tool *)

Section Decoding.

Variable foldName : string -> string.
Variable MarshalText : json.Value -> string.

Context {T : Type} (ty : json.StructType T).

(** Once an error is saved it is the one returned. *)
Lemma decode_error_sticky (members : list (string * json.Value)) (v : T) (e : error) :
  exists v', fold_left (json.decodeMember foldName ty) members (v, Some e) = (v', Some e).
Proof.
  revert v. induction members as [|[k x] members IH]; intros v; [now exists v|].
  cbn [fold_left].
  assert (exists v1, json.decodeMember foldName ty (v, Some e) (k, x) = (v1, Some e))
    as [v1 ->]; [|apply IH].
  unfold json.decodeMember. cbn [fst snd].
  destruct (json.findField foldName ty k) as [f|]; [|now exists v].
  destruct x; eexists; reflexivity.
Qed.

(** A member that is decoded into a field and is neither a string nor
    null makes [Unmarshal] return an error. *)
Lemma decode_bad_member (members : list (string * json.Value)) (k f : string)
  (x : json.Value) (v : T) (saved : option error) :
  In (k, x) members -> json.findField foldName ty k = Some f ->
  (forall s, x <> json.JString s) -> x <> json.JNull ->
  exists v' e, fold_left (json.decodeMember foldName ty) members (v, saved) = (v', Some e).
Proof.
  intros Hin Hf Hs Hn. revert v saved.
  induction members as [|[k' x'] members IH]; intros v saved; [contradiction|].
  destruct saved as [e|].
  { destruct (decode_error_sticky ((k', x') :: members) v e) as [v' H]. now exists v', e. }
  destruct Hin as [[= -> ->]|Hin].
  - cbn [fold_left].
    assert (exists e, json.decodeMember foldName ty (v, None) (k, x) = (v, Some e))
      as [e ->].
    { unfold json.decodeMember. cbn [fst snd]. rewrite Hf.
      destruct x; try (now elim Hn); try (now elim (Hs s)); eexists; reflexivity. }
    destruct (decode_error_sticky members v e) as [v' H]. now exists v', e.
  - cbn [fold_left]. destruct (json.decodeMember foldName ty (v, None) (k', x')) as [v1 s1].
    now apply IH.
Qed.


End Decoding.

(** ** Arguments that do not fit *)

Section BadArguments.

Variable foldName : string -> string.
Variable MarshalText : json.Value -> string.








End BadArguments.

(** ** The agent loop *)

Section AgentLoop.

Variable Session : Type.
Variable SendMessage :
  Session -> list genai.Part -> result genai.GenerateContentResponse * Session.

Lemma emit_nil (w : World Session) : emit [] w = w.
Proof. destruct w. unfold emit. simpl. now rewrite app_nil_r. Qed.

Lemma emit_emit (a b : list Event) (w : World Session) :
  emit b (emit a w) = emit (a ++ b) w.
Proof. unfold emit. simpl. now rewrite app_assoc. Qed.

(** The first loop over the parts prints the texts and collects the
    calls, in order. *)
Lemma processParts_spec (parts : list genai.Part) (toolCalls : list genai.FunctionCall)
  (w : World Session) :
  processParts parts toolCalls w =
  (toolCalls ++ callsOf parts, emit (map EvGemini (textsOf parts)) w).
Proof.
  revert toolCalls w. induction parts as [|p parts IH]; intros toolCalls w; simpl.
  - now rewrite app_nil_r, emit_nil.
  - destruct p; rewrite IH; simpl.
    + now rewrite emit_emit.
    + now rewrite <- app_assoc.
    + reflexivity.
    + reflexivity.
Qed.

(** The last loop over the parts prints the texts and nothing else. *)
Lemma printTexts_spec (parts : list genai.Part) (w : World Session) :
  printTexts parts w = emit (map EvGemini (textsOf parts)) w.
Proof.
  revert w. induction parts as [|p parts IH]; intros w; simpl.
  - now rewrite emit_nil.
  - destruct p; rewrite IH; simpl; try reflexivity. now rewrite emit_emit.
Qed.

(** A call that names no registered tool gets the result "tool not
    found"; nothing is run and nothing is printed. *)
Lemma executeTool_not_found (a : Agent) (name : string)
  (input : option (gmap string json.Value)) (w : World Session) :
  (forall tool, In tool (agentTools a) -> Name tool <> name) ->
  executeTool a name input w = Done toolNotFound w.
Proof.
  intros H. unfold executeTool.
  destruct (List.find _ (agentTools a)) as [tool|] eqn:E; [|reflexivity].
  apply find_some in E as [Hin Hn]. apply String.eqb_eq in Hn. now elim (H tool Hin).
Qed.

(** When the tool calls of a turn all return, there is one result per
    call, in the order of the calls and under the name of its call; the
    result of a call that names no registered tool is "tool not found". *)
Lemma runToolCalls_one_result_per_call (a : Agent) (toolCalls : list genai.FunctionCall)
  (toolParts toolParts' : list genai.Part) (w w' : World Session) :
  runToolCalls a toolCalls toolParts w = Done toolParts' w' ->
  exists results,
    toolParts' = toolParts ++ results /\
    oneResultPerCall a toolCalls results.
Proof.
  unfold oneResultPerCall. revert toolParts w. induction toolCalls as [|call toolCalls IH]; intros toolParts w; simpl.
  - intros [= <- <-]. exists []. now rewrite app_nil_r.
  - destruct (executeTool a (genai.Name call) (genai.Args call) w) as [result w1|msg w1] eqn:E;
      [|discriminate].
    intros H. apply IH in H as (results & -> & HF).
    eexists (_ :: results). rewrite <- app_assoc. split; [reflexivity|].
    constructor; [|exact HF]. exists result. split; [reflexivity|].
    intros Hno. rewrite (executeTool_not_found a _ _ w Hno) in E. now injection E.
Qed.

(** A turn in which the model asks for tools and the tools all return:
    the results are sent in one message, and on its answer the texts are
    printed and the loop is back at its start. *)
Lemma loop_tool_turn (a : Agent) (userInput : string)
  (lines : list string) (w w2 : World Session) (s1 : Session)
  (resp1 : genai.GenerateContentResponse) (parts1 toolParts : list genai.Part) :
  SendMessage (session w) [genai.Text userInput] = (Ok resp1, s1) ->
  firstParts resp1 = Returns parts1 ->
  callsOf parts1 <> [] ->
  runToolCalls a (callsOf parts1) [] (beforeToolCalls w userInput s1 parts1)
    = Done toolParts w2 ->
  loop SendMessage a (userInput :: lines) w =
  followUp SendMessage a lines w2 toolParts.
Proof.
  intros H1 Hp1 Hcalls Hrun. unfold followUp.
  cbn [loop]. unfold iteration, runInference. cbn [session emit].
  rewrite H1. cbn [files trace]. rewrite Hp1, processParts_spec. cbn [app].
  destruct (callsOf parts1) as [|c cs] eqn:Ec; [congruence|].
  cbn [length Nat.ltb Nat.leb].
  match goal with
  | |- context [runToolCalls a (c :: cs) [] ?x] =>
      replace x with (beforeToolCalls w userInput s1 parts1)
        by (unfold beforeToolCalls, emit; cbn [session files trace];
            now rewrite <- !app_assoc)
  end.
  rewrite Hrun. cbn [session emit].
  destruct (SendMessage (session w2) toolParts) as [[resp2|err] s2]; cbn [files trace].
  - destruct (firstParts resp2) as [parts2|msg]; [|reflexivity].
    rewrite printTexts_spec. unfold afterFollowUp, emit. cbn [session files trace].
    now rewrite <- !app_assoc.
  - unfold emit. cbn [session files trace]. now rewrite <- !app_assoc.
Qed.

(** C1. In a turn whose response holds at least one tool call, when the
    tool calls all return: there is exactly one result per call, in the
    order of the calls, each under the name of its call, and the result
    of a call that names no registered tool is the failure "tool not
    found"; the results are sent to the model gateway together, in one
    message, and only on its answer does the loop go back to read the
    next line of input.  (A tool that panics ends the program instead:
    the loop does not recover.) *)
Theorem C1_one_result_per_call (a : Agent) (userInput : string)
  (lines : list string) (w w2 : World Session) (s1 : Session)
  (resp1 : genai.GenerateContentResponse) (parts1 toolParts : list genai.Part) :
  SendMessage (session w) [genai.Text userInput] = (Ok resp1, s1) ->
  firstParts resp1 = Returns parts1 ->
  callsOf parts1 <> [] ->
  runToolCalls a (callsOf parts1) [] (beforeToolCalls w userInput s1 parts1)
    = Done toolParts w2 ->
  oneResultPerCall a (callsOf parts1) toolParts /\
  loop SendMessage a (userInput :: lines) w =
  followUp SendMessage a lines w2 toolParts.
Proof.
  intros H1 Hp1 Hcalls Hrun. split.
  - apply runToolCalls_one_result_per_call in Hrun as (results & -> & HF). exact HF.
  - now apply (loop_tool_turn a userInput lines w w2 s1 resp1 parts1 toolParts).
Qed.

(** C8. After the agent loop has sent the tool results of a turn back to
    the model gateway and got the follow-up response: when that response
    has its parts (a first candidate with content), the loop only displays
    the text parts and goes back to awaiting user input; when it has none,
    the program panics reading them.  Either way the tool calls of the
    follow-up response are not dispatched: nothing more is run or sent, and
    the files are those the one round of tool calls left.  So a user turn
    sets off at most one round of tool execution. *)
Theorem C8_follow_up_calls_not_dispatched (a : Agent) (userInput : string)
  (lines : list string) (w w2 : World Session) (s1 s2 : Session)
  (resp1 resp2 : genai.GenerateContentResponse)
  (parts1 toolParts : list genai.Part) :
  SendMessage (session w) [genai.Text userInput] = (Ok resp1, s1) ->
  firstParts resp1 = Returns parts1 ->
  callsOf parts1 <> [] ->
  runToolCalls a (callsOf parts1) [] (beforeToolCalls w userInput s1 parts1)
    = Done toolParts w2 ->
  SendMessage (session w2) toolParts = (Ok resp2, s2) ->
  loop SendMessage a (userInput :: lines) w =
  match firstParts resp2 with
  | Returns parts2 =>
      loop SendMessage a lines
        {| session := s2;
           files := files w2;
           trace := trace w2 ++ [EvSendMessage toolParts]
                             ++ map EvGemini (textsOf parts2) |}
  | Panics msg =>
      Crash msg
        {| session := s2;
           files := files w2;
           trace := trace w2 ++ [EvSendMessage toolParts] |}
  end.
Proof.
  intros H1 Hp1 Hcalls Hrun H2.
  rewrite (loop_tool_turn a userInput lines w w2 s1 resp1 parts1 toolParts H1 Hp1 Hcalls Hrun).
  unfold followUp. rewrite H2. now destruct (firstParts resp2).
Qed.

End AgentLoop.

(** ** Sorting by name *)

Lemma insertBy_map {A B : Type} (key1 : A -> string) (key2 : B -> string) (g : A -> B)
  (x : A) (l : list A) :
  (forall a, key2 (g a) = key1 a) ->
  insertBy key2 (g x) (map g l) = map g (insertBy key1 x l).
Proof.
  intros Hk. induction l as [|y l IH]; simpl; [reflexivity|].
  rewrite !Hk. destruct (String.leb (key1 x) (key1 y)); simpl; [reflexivity|].
  now rewrite IH.
Qed.

Lemma sortBy_map {A B : Type} (key1 : A -> string) (key2 : B -> string) (g : A -> B)
  (l : list A) :
  (forall a, key2 (g a) = key1 a) ->
  sortBy key2 (map g l) = map g (sortBy key1 l).
Proof.
  intros Hk. induction l as [|x l IH]; simpl; [reflexivity|].
  rewrite IH. now apply insertBy_map.
Qed.

Lemma In_insertBy {A : Type} (key : A -> string) (x y : A) (l : list A) :
  In y (insertBy key x l) <-> y = x \/ In y l.
Proof.
  induction l as [|z l IH]; simpl; [intuition congruence|].
  destruct (String.leb (key x) (key z)); simpl; [intuition congruence|].
  rewrite IH. intuition congruence.
Qed.

Lemma In_sortBy {A : Type} (key : A -> string) (y : A) (l : list A) :
  In y (sortBy key l) <-> In y l.
Proof.
  induction l as [|x l IH]; simpl; [reflexivity|].
  rewrite In_insertBy, IH. intuition congruence.
Qed.

(** The keys come out in order. *)
Lemma insertBy_sorted {A : Type} (key : A -> string) (x : A) (l : list A) :
  Sorted (fun a b => String.le (key a) (key b)) l ->
  Sorted (fun a b => String.le (key a) (key b)) (insertBy key x l).
Proof.
  induction 1 as [|y l Hs IH Hd]; simpl.
  - repeat constructor.
  - destruct (String.leb (key x) (key y)) eqn:E.
    + constructor; [now constructor|]. constructor. unfold String.le. now rewrite E.
    + constructor; [exact IH|].
      assert (String.le (key y) (key x)) as Hyx.
      { destruct (String.le_total (key x) (key y)) as [H|H]; [|exact H].
        unfold String.le in H. rewrite E in H. contradiction. }
      destruct l as [|z l]; simpl; [now constructor|].
      destruct (String.leb (key x) (key z)); constructor; [exact Hyx|].
      now inversion Hd.
Qed.

Lemma sortBy_sorted {A : Type} (key : A -> string) (l : list A) :
  Sorted (fun a b => String.le (key a) (key b)) (sortBy key l).
Proof.
  induction l as [|x l IH]; simpl; [constructor | now apply insertBy_sorted].
Qed.

(** ** Cleaned paths *)

Lemma cleanStep_real (rooted : bool) (out : list string) (e : string) :
  e <> "" -> e <> "." -> e <> ".." -> path.cleanStep rooted out e = e :: out.
Proof.
  intros H1 H2 H3. unfold path.cleanStep.
  now rewrite (proj2 (String.eqb_neq e "")), (proj2 (String.eqb_neq e ".")),
    (proj2 (String.eqb_neq e "..")).
Qed.

Lemma cleanStep_skip (rooted : bool) (out : list string) (e : string) :
  e = "" \/ e = "." -> path.cleanStep rooted out e = out.
Proof. intros [-> | ->]; reflexivity. Qed.

Lemma cleanInv_nil (rooted : bool) : cleanInv rooted [].
Proof. split; [constructor | reflexivity]. Qed.

Lemma cleanStep_inv (rooted : bool) (out : list string) (e : string) :
  path.hasSlash e = false -> cleanInv rooted out -> cleanInv rooted (path.cleanStep rooted out e).
Proof.
  intros He [Hreal Hfold].
  destruct (String.eqb_spec e "") as [->|H1]; [exact (conj Hreal Hfold)|].
  destruct (String.eqb_spec e ".") as [->|H2]; [exact (conj Hreal Hfold)|].
  destruct (String.eqb_spec e "..") as [->|H3].
  - unfold path.cleanStep. simpl.
    destruct out as [|x out].
    + destruct rooted; [apply cleanInv_nil|]. split; [|reflexivity].
      constructor; [|constructor]. now repeat split.
    + destruct (String.eqb_spec x "..") as [->|Hx].
      * split; [constructor; [now repeat split | exact Hreal]|].
        simpl. rewrite fold_left_app. simpl in Hfold. rewrite Hfold. reflexivity.
      * inversion Hreal as [|? ? (Hx1 & Hx2 & _) Hreal']; subst. split; [exact Hreal'|].
        simpl in Hfold. rewrite fold_left_app in Hfold. simpl in Hfold.
        rewrite cleanStep_real in Hfold by assumption. now injection Hfold.
  - rewrite cleanStep_real by assumption. split.
    + constructor; [now repeat split | exact Hreal].
    + simpl. rewrite fold_left_app, Hfold. simpl. now apply cleanStep_real.
Qed.

Lemma fold_cleanStep_inv (rooted : bool) (es out : list string) :
  Forall (fun e => path.hasSlash e = false) es -> cleanInv rooted out ->
  cleanInv rooted (fold_left (path.cleanStep rooted) es out).
Proof.
  revert out. induction es as [|e es IH]; intros out Hes Hinv; [exact Hinv|].
  inversion Hes; subst. simpl. apply IH; [assumption|]. now apply cleanStep_inv.
Qed.

Lemma elements_slashFree (s : string) :
  Forall (fun e => path.hasSlash e = false) (path.elements s).
Proof.
  induction s as [|c s IH]; simpl; [now repeat constructor|].
  destruct (Ascii.eqb c path.slash) eqn:E; [now constructor|].
  destruct (path.elements s) as [|x r]; [now repeat constructor; simpl; rewrite E|].
  inversion IH; subst. constructor; [simpl; now rewrite E | assumption].
Qed.

Lemma cleaned_inv (p : string) : cleanInv (path.IsAbs p) (rev (cleaned p)).
Proof.
  unfold cleaned, path.cleanElements. rewrite rev_involutive.
  apply fold_cleanStep_inv; [apply elements_slashFree | apply cleanInv_nil].
Qed.

Lemma Clean_cleaned (p : string) :
  p <> "" -> path.Clean p = path.assemble (path.IsAbs p) (cleaned p).
Proof. intros Hp. unfold path.Clean. now rewrite (proj2 (String.eqb_neq p "")). Qed.

Lemma elements_join_slashFree (names : list string) :
  names <> [] -> Forall (fun e => path.hasSlash e = false) names ->
  path.elements (path.join names) = names.
Proof.
  induction names as [|n names IH]; [congruence|]. intros _ H.
  inversion H as [|? ? Hn H']; subst.
  destruct names as [|m names]; [now apply elements_noSlash|].
  rewrite join_cons by discriminate. rewrite elements_append_slash by exact Hn.
  now rewrite IH.
Qed.

Lemma realElement_slashFree (l : list string) :
  Forall realElement l -> Forall (fun e => path.hasSlash e = false) l.
Proof. intros H. eapply Forall_impl; [exact H|]. now intros e (_ & _ & He). Qed.

Lemma join_real_nonempty (st : list string) :
  st <> [] -> Forall realElement st -> path.join st <> "".
Proof.
  intros Hne H E.
  pose proof (elements_join_slashFree st Hne (realElement_slashFree st H)) as He.
  rewrite E in He. simpl in He. subst st. inversion H as [|? ? (H1 & _) _]. congruence.
Qed.

Lemma IsAbs_join_real (st : list string) :
  Forall realElement st -> path.IsAbs (path.join st) = false.
Proof.
  destruct st as [|n st]; [reflexivity|]. intros H. inversion H as [|? ? (H1 & _ & Hs) _]; subst.
  destruct n as [|c n]; [congruence|]. simpl in Hs. apply orb_false_iff in Hs as [Hc _].
  destruct st as [|m st]; [exact Hc|].
  rewrite join_cons by discriminate. rewrite append_cons. exact Hc.
Qed.

Lemma assemble_real (rooted : bool) (st : list string) :
  cleanInv rooted (rev st) -> Forall realElement st.
Proof. intros [H _]. apply Forall_rev in H. now rewrite rev_involutive in H. Qed.

Lemma assemble_nonempty (rooted : bool) (st : list string) :
  path.assemble rooted st <> "".
Proof.
  unfold path.assemble. destruct rooted; [discriminate|].
  destruct (String.eqb_spec (path.join st) ""); [discriminate | assumption].
Qed.

Lemma IsAbs_assemble (rooted : bool) (st : list string) :
  cleanInv rooted (rev st) -> path.IsAbs (path.assemble rooted st) = rooted.
Proof.
  intros Hinv. apply assemble_real in Hinv.
  unfold path.assemble. destruct rooted; [reflexivity|].
  destruct (String.eqb_spec (path.join st) ""); [reflexivity|].
  now apply IsAbs_join_real.
Qed.

Lemma assemble_cons (rooted : bool) (st : list string) :
  cleanInv rooted (rev st) -> st <> [] ->
  path.assemble rooted st = (if rooted then "/" else "") +:+ path.join st.
Proof.
  intros Hinv Hne. apply assemble_real in Hinv.
  unfold path.assemble. destruct rooted; [reflexivity|].
  now rewrite (proj2 (String.eqb_neq _ "")) by (now apply join_real_nonempty).
Qed.

Lemma elements_assemble (rooted : bool) (st : list string) :
  cleanInv rooted (rev st) -> st <> [] ->
  path.elements (path.assemble rooted st) = (if rooted then [""] else []) ++ st.
Proof.
  intros Hinv Hne. rewrite assemble_cons by assumption.
  apply assemble_real in Hinv.
  pose proof (elements_join_slashFree st Hne (realElement_slashFree st Hinv)) as He.
  destruct rooted.
  - change ("/" +:+ path.join st) with (String "/" (path.join st)). simpl. now rewrite He.
  - now rewrite append_nil_l.
Qed.

(** Cleaning a cleaned path gives it back. *)
Lemma cleaned_assemble (rooted : bool) (st : list string) :
  cleanInv rooted (rev st) -> cleaned (path.assemble rooted st) = st.
Proof.
  intros Hinv. unfold cleaned. rewrite IsAbs_assemble by exact Hinv.
  destruct (decide (st = [])) as [E|Hne].
  - rewrite E. unfold path.assemble. now destruct rooted.
  - rewrite elements_assemble by assumption.
    unfold path.cleanElements. rewrite fold_left_app.
    assert (fold_left (path.cleanStep rooted) (if rooted then [""] else []) [] = []) as ->
      by (now destruct rooted).
    destruct Hinv as [_ Hf]. rewrite rev_involutive in Hf. rewrite Hf.
    apply rev_involutive.
Qed.

Lemma Clean_assemble (rooted : bool) (st : list string) :
  cleanInv rooted (rev st) -> path.Clean (path.assemble rooted st) = path.assemble rooted st.
Proof.
  intros Hinv. rewrite Clean_cleaned by apply assemble_nonempty.
  now rewrite IsAbs_assemble, cleaned_assemble.
Qed.

(** One more plain name. *)
Lemma cleanInv_snoc (rooted : bool) (st : list string) (n : string) :
  cleanInv rooted (rev st) -> plainName n = true -> cleanInv rooted (rev (st ++ [n])).
Proof.
  intros Hinv Hn. apply plainName_spec in Hn as (H1 & H2 & H3 & H4).
  rewrite rev_app_distr. simpl.
  rewrite <- (cleanStep_real rooted (rev st) n) by assumption.
  now apply cleanStep_inv.
Qed.

Lemma cleanInv_app (rooted : bool) (st names : list string) :
  cleanInv rooted (rev st) -> forallb plainName names = true ->
  cleanInv rooted (rev (st ++ names)).
Proof.
  revert st. induction names as [|n names IH]; intros st Hinv H.
  - now rewrite app_nil_r.
  - simpl in H. apply andb_true_iff in H as [Hn H].
    change (n :: names) with ([n] ++ names). rewrite app_assoc.
    apply IH; [|exact H]. now apply cleanInv_snoc.
Qed.

Lemma elements_append (a b : string) :
  path.elements (a +:+ "/" +:+ b) = path.elements a ++ path.elements b.
Proof.
  induction a as [|c a IH]; [reflexivity|].
  change (String c a +:+ "/" +:+ b) with (String c (a +:+ "/" +:+ b)). simpl.
  destruct (Ascii.eqb c path.slash); [now rewrite IH|]. rewrite IH.
  pose proof (elements_nonempty a). now destruct (path.elements a).
Qed.

Lemma IsAbs_append (a b : string) : a <> "" -> path.IsAbs (a +:+ b) = path.IsAbs a.
Proof. destruct a; [congruence | reflexivity]. Qed.

(** [Join] of a path and a plain name: the cleaned path with one more
    element. *)
Lemma Join_plain (x n : string) :
  x <> "" -> plainName n = true ->
  filepath.Join x n = path.assemble (path.IsAbs x) (cleaned x ++ [n]).
Proof.
  intros Hx Hn. pose proof (plainName_spec n Hn) as (H1 & H2 & H3 & H4).
  unfold filepath.Join.
  rewrite (proj2 (String.eqb_neq x "")), (proj2 (String.eqb_neq n "")) by assumption.
  unfold filepath.Clean.
  assert (x +:+ "/" +:+ n <> "") as Hne by (destruct x; [congruence | discriminate]).
  rewrite Clean_cleaned by exact Hne. rewrite IsAbs_append by exact Hx.
  f_equal. unfold cleaned. rewrite IsAbs_append by exact Hx.
  rewrite elements_append, (elements_noSlash n H4).
  unfold path.cleanElements. rewrite fold_left_app. simpl.
  now rewrite cleanStep_real by assumption.
Qed.

Lemma Join_assemble (rooted : bool) (st : list string) (n : string) :
  cleanInv rooted (rev st) -> plainName n = true ->
  filepath.Join (path.assemble rooted st) n = path.assemble rooted (st ++ [n]).
Proof.
  intros Hinv Hn. rewrite Join_plain by (try exact Hn; apply assemble_nonempty).
  now rewrite IsAbs_assemble, cleaned_assemble.
Qed.

Lemma dropCommon_app (X names : list string) :
  filepath.dropCommon X (X ++ names) = ([], names).
Proof.
  induction X as [|x X IH]; simpl; [now destruct names|]. now rewrite String.eqb_refl.
Qed.

Lemma cleaned_slash : cleaned "/" = [].
Proof. reflexivity. Qed.

Lemma cleaned_dot : cleaned "." = [].
Proof. reflexivity. Qed.

(** [Rel] of a directory and something below it: the names that lead
    down. *)
Lemma Rel_descendant (dir : string) (names : list string) :
  dir <> "" -> names <> [] -> forallb plainName names = true ->
  filepath.Rel dir (path.assemble (path.IsAbs dir) (cleaned dir ++ names)) =
  Ok (path.join names).
Proof.
  intros Hdir Hne Hnames.
  set (r := path.IsAbs dir). set (st := cleaned dir).
  pose proof (cleaned_inv dir) as Hinv. fold r st in Hinv.
  pose proof (cleanInv_app r st names Hinv Hnames) as Hinv'.
  assert (st ++ names <> []) as Hne' by (destruct st; [simpl; exact Hne | discriminate]).
  unfold filepath.Rel, filepath.Clean.
  rewrite (Clean_cleaned dir Hdir). fold r st. rewrite (Clean_assemble r (st ++ names) Hinv').
  (* the target is not the base *)
  assert (path.assemble r (st ++ names) <> path.assemble r st) as Hdiff.
  { intros E. apply (f_equal cleaned) in E. rewrite !cleaned_assemble in E by assumption.
    rewrite <- (app_nil_r st) in E at 2. apply app_inv_head in E. contradiction. }
  rewrite (proj2 (String.eqb_neq _ _)) by exact Hdiff.
  (* the elements of the base and of the target *)
  assert (path.assemble r (st ++ names) <> "/") as Hts.
  { intros E. apply (f_equal cleaned) in E. rewrite cleaned_assemble in E by assumption.
    now rewrite cleaned_slash in E. }
  assert (filepath.relElements (path.assemble r (st ++ names)) =
          ((if r then [""] else []) ++ st) ++ names) as Ht.
  { unfold filepath.relElements.
    rewrite (proj2 (String.eqb_neq _ "")) by apply assemble_nonempty.
    rewrite (proj2 (String.eqb_neq _ "/")) by exact Hts.
    rewrite elements_assemble by assumption. now rewrite app_assoc. }
  set (base' := if String.eqb (path.assemble r st) "." then "" else path.assemble r st).
  assert (path.IsAbs base' = r /\
          filepath.relElements base' = (if r then [""] else []) ++ st) as [Ha Hb].
  { unfold base'. destruct (String.eqb_spec (path.assemble r st) ".") as [E|E].
    - pose proof (f_equal cleaned E) as E1. rewrite cleaned_assemble, cleaned_dot in E1 by exact Hinv.
      pose proof (f_equal path.IsAbs E) as E2. rewrite IsAbs_assemble in E2 by exact Hinv.
      simpl in E2. rewrite E1, E2. now split.
    - split; [now apply IsAbs_assemble|]. unfold filepath.relElements.
      rewrite (proj2 (String.eqb_neq _ "")) by apply assemble_nonempty.
      destruct (String.eqb_spec (path.assemble r st) "/") as [E'|E'].
      + pose proof (f_equal cleaned E') as E1.
        rewrite cleaned_assemble, cleaned_slash in E1 by exact Hinv.
        pose proof (f_equal path.IsAbs E') as E2. rewrite IsAbs_assemble in E2 by exact Hinv.
        simpl in E2. now rewrite E1, E2.
      + apply elements_assemble; [exact Hinv|]. intros E1. rewrite E1 in E, E'.
        destruct r; [now elim E' | now elim E]. }
  rewrite Ha, IsAbs_assemble by exact Hinv'. rewrite eqb_reflx. cbn [negb].
  rewrite Hb, Ht, dropCommon_app. now destruct names.
Qed.

(** ** The walk of a path and of the cleaned path *)

Lemma cleanStep_real_all (rooted : bool) (out : list string) (e : string) :
  path.hasSlash e = false -> Forall realElement out ->
  Forall realElement (path.cleanStep rooted out e).
Proof.
  intros He Hreal.
  destruct (String.eqb_spec e "") as [->|H1]; [exact Hreal|].
  destruct (String.eqb_spec e ".") as [->|H2]; [exact Hreal|].
  destruct (String.eqb_spec e "..") as [->|H3].
  - unfold path.cleanStep. simpl. destruct out as [|x out].
    + destruct rooted; [constructor|]. constructor; [now repeat split | constructor].
    + destruct (String.eqb x ".."); [constructor; [now repeat split | exact Hreal]|].
      now inversion Hreal.
  - rewrite cleanStep_real by assumption. constructor; [now repeat split | exact Hreal].
Qed.

Lemma walkStep_real (r : os.Node) (at_ c : list string) (x : string) :
  x <> "" -> x <> "." -> x <> ".." -> os.walkStep r at_ x = inr c -> c = at_ ++ [x].
Proof.
  intros H1 H2 H3. unfold os.walkStep.
  destruct (os.nodeAt r at_) as [[d|es]|]; try discriminate.
  rewrite (proj2 (String.eqb_neq x "")), (proj2 (String.eqb_neq x ".")),
    (proj2 (String.eqb_neq x "..")) by assumption.
  simpl. destruct (os.nodeAt r (at_ ++ [x])); [now intros [= <-] | discriminate].
Qed.

Lemma walk_snoc (r : os.Node) (at_ : list string) (es : list string) (e : string) :
  os.walk r at_ (es ++ [e]) =
  match os.walk r at_ es with
  | inl err => inl err
  | inr at' => os.walkStep r at' e
  end.
Proof.
  rewrite walk_app. destruct (os.walk r at_ es); [reflexivity|]. simpl.
  now destruct (os.walkStep r l e).
Qed.

(** One element: the walk of what [Clean] has written ends where the walk
    of what it has read ends. *)
Lemma walk_cleanStep (r : os.Node) (rooted : bool) (s0 out c : list string) (e : string) :
  (rooted = true -> s0 = []) -> Forall realElement out ->
  os.walk r s0 (rev out ++ [e]) = inr c ->
  os.walk r s0 (rev (path.cleanStep rooted out e)) = inr c.
Proof.
  intros Hroot Hreal. rewrite walk_snoc.
  destruct (os.walk r s0 (rev out)) as [err|a] eqn:Hw; [discriminate|].
  intros Hs.
  destruct (String.eqb_spec e "") as [->|H1].
  { rewrite cleanStep_skip by now left. rewrite Hw. revert Hs. unfold os.walkStep.
    now destruct (os.nodeAt r a) as [[d|es]|]. }
  destruct (String.eqb_spec e ".") as [->|H2].
  { rewrite cleanStep_skip by now right. rewrite Hw. revert Hs. unfold os.walkStep.
    now destruct (os.nodeAt r a) as [[d|es]|]. }
  destruct (String.eqb_spec e "..") as [->|H3].
  - assert (c = removelast a) as ->.
    { revert Hs. unfold os.walkStep. destruct (os.nodeAt r a) as [[d|es]|]; try discriminate.
      simpl. now intros [= <-]. }
    unfold path.cleanStep. simpl. destruct out as [|x out].
    + simpl in Hw. injection Hw as <-. destruct rooted.
      * rewrite (Hroot eq_refl). reflexivity.
      * simpl. rewrite Hs. reflexivity.
    + destruct (String.eqb_spec x "..") as [->|Hx].
      * change (rev (".." :: ".." :: out)) with (rev (".." :: out) ++ [".."]).
        now rewrite walk_snoc, Hw.
      * inversion Hreal as [|? ? (Hx1 & Hx2 & _) _]; subst.
        simpl in Hw. rewrite walk_snoc in Hw.
        destruct (os.walk r s0 (rev out)) as [err|a1]; [discriminate|].
        apply walkStep_real in Hw; try assumption. subst a.
        now rewrite removelast_last.
  - rewrite cleanStep_real by assumption. simpl. now rewrite walk_snoc, Hw.
Qed.

Lemma walk_cleanElements (r : os.Node) (rooted : bool) (s0 c : list string)
  (es out : list string) :
  (rooted = true -> s0 = []) ->
  Forall (fun e => path.hasSlash e = false) es -> Forall realElement out ->
  os.walk r s0 (rev out ++ es) = inr c ->
  os.walk r s0 (rev (fold_left (path.cleanStep rooted) es out)) = inr c.
Proof.
  intros Hroot. revert out. induction es as [|e es IH]; intros out Hes Hreal Hw.
  - now rewrite app_nil_r in Hw.
  - inversion Hes; subst. simpl. apply IH; [assumption | now apply cleanStep_real_all |].
    change (e :: es) with ([e] ++ es) in Hw. rewrite app_assoc, walk_app in Hw.
    destruct (os.walk r s0 (rev out ++ [e])) as [err|a] eqn:Ha; [discriminate|].
    rewrite walk_app. now rewrite (walk_cleanStep r rooted s0 out a e Hroot Hreal Ha).
Qed.

(** The cleaned path names the place the path names. *)
Lemma walk_cleaned (fs : os.FileSystem) (dir : string) (c : list string) :
  os.resolve fs dir = inr c ->
  os.walk (os.root fs) (os.start fs dir) (cleaned dir) = inr c.
Proof.
  intros Hr. pose proof (resolve_nonempty _ _ _ Hr) as Hdir.
  rewrite resolve_walk in Hr by exact Hdir.
  unfold cleaned, path.cleanElements.
  apply walk_cleanElements; [| apply elements_slashFree | constructor | exact Hr].
  unfold os.start. now intros ->.
Qed.

(** The walk of plain names down to something that is there. *)
Lemma walk_plain_exists (r : os.Node) (at_ : list string) (names : list string)
  (nd : os.Node) :
  forallb plainName names = true ->
  os.nodeAt r (at_ ++ names) = Some nd ->
  os.walk r at_ names = inr (at_ ++ names).
Proof.
  revert at_. induction names as [|n names IH]; intros at_ H Hn.
  - simpl. now rewrite app_nil_r.
  - simpl in H. apply andb_true_iff in H as [Hp H].
    change (n :: names) with ([n] ++ names) in Hn. rewrite app_assoc in Hn.
    simpl. rewrite walkStep_plain; [| exact Hp |].
    + pose proof Hn as Hn'. rewrite nodeAt_app in Hn'. unfold kindAt.
      destruct (os.nodeAt r (at_ ++ [n])); [|discriminate]. simpl.
      rewrite (IH (at_ ++ [n]) H Hn). now rewrite <- app_assoc.
    + pose proof Hn as Hn'. rewrite <- app_assoc, nodeAt_app in Hn'. unfold kindAt.
      destruct (os.nodeAt r at_) as [[d|es]|]; try discriminate; reflexivity.
Qed.

Lemma walk_start_dir (r : os.Node) (at_ c : list string) (es : list string) :
  es <> [] -> os.walk r at_ es = inr c -> kindAt r at_ = Some true.
Proof.
  destruct es as [|e es]; [congruence|]. intros _. simpl.
  rewrite walkStep_kinds. now destruct (kindAt r at_) as [[|]|].
Qed.

(** The path [WalkDir] builds for something below [dir] names it. *)
Lemma resolve_descendant (fs : os.FileSystem) (dir : string) (c : list string)
  (names : list string) (nd : os.Node) :
  os.resolve fs dir = inr c ->
  names <> [] -> forallb plainName names = true ->
  os.nodeAt (os.root fs) (c ++ names) = Some nd ->
  os.resolve fs (path.assemble (path.IsAbs dir) (cleaned dir ++ names)) = inr (c ++ names).
Proof.
  intros Hr Hne Hnames Hnd.
  pose proof (resolve_nonempty _ _ _ Hr) as Hdir.
  pose proof (cleaned_inv dir) as Hinv.
  pose proof (cleanInv_app _ _ names Hinv Hnames) as Hinv'.
  assert (cleaned dir ++ names <> []) as Hne'
    by (destruct (cleaned dir); [simpl; exact Hne | discriminate]).
  pose proof (walk_cleaned fs dir c Hr) as Hw.
  rewrite resolve_walk in Hr by exact Hdir.
  pose proof (walk_start_dir _ _ _ _ (elements_nonempty dir) Hr) as Hstart.
  rewrite resolve_walk by apply assemble_nonempty.
  unfold os.start in *. rewrite IsAbs_assemble by exact Hinv'.
  rewrite elements_assemble by assumption.
  rewrite walk_plainPath by (now apply (kindAt_root _ _ Hstart)).
  rewrite walk_app, Hw. now apply (walk_plain_exists _ _ _ nd).
Qed.

(** ** Well-formed trees *)

Lemma wfNode_Dir (es : list (string * os.Node)) :
  wfNode (os.Dir es) = true ->
  forallb plainName (map fst es) = true /\ NoDup (map fst es) /\
  forall name c, In (name, c) es -> wfNode c = true.
Proof.
  simpl. rewrite !andb_true_iff, bool_decide_eq_true. intros [[Hp Hn] Hw].
  split; [exact Hp|]. split; [exact Hn|].
  clear Hp Hn. induction es as [|[k x] es IH]; [contradiction|].
  apply andb_true_iff in Hw as [Hx Hw]. intros name c [[= <- <-]|Hin]; [exact Hx|].
  now apply (IH Hw name c).
Qed.

Lemma entry_In (es : list (string * os.Node)) (name : string) (c : os.Node) :
  NoDup (map fst es) -> In (name, c) es -> os.entry name es = Some c.
Proof.
  induction es as [|[k x] es IH]; [contradiction|]. simpl. intros Hnd Hin.
  apply NoDup_cons in Hnd as [Hk Hnd].
  destruct Hin as [[= -> ->]|Hin]; [now rewrite String.eqb_refl|].
  destruct (String.eqb_spec k name) as [->|Hne]; [|now apply IH].
  elim Hk. apply list_elem_of_In. apply (in_map fst) in Hin. exact Hin.
Qed.

Lemma entry_Some_In (es : list (string * os.Node)) (name : string) (c : os.Node) :
  os.entry name es = Some c -> In (name, c) es.
Proof.
  induction es as [|[k x] es IH]; simpl; [discriminate|].
  destruct (String.eqb_spec k name) as [->|Hne]; [intros [= ->]; now left|].
  intros H. right. now apply IH.
Qed.

Lemma height_entry (es : list (string * os.Node)) (name : string) (c : os.Node) :
  In (name, c) es -> filepath.height c < filepath.height (os.Dir es).
Proof.
  simpl. induction es as [|[k x] es IH]; [contradiction|].
  intros [[= -> ->]|Hin]; [lia|]. specialize (IH Hin). lia.
Qed.

Lemma height_nodeAt (r : os.Node) (q : list string) (n : os.Node) :
  os.nodeAt r q = Some n -> filepath.height n <= filepath.height r.
Proof.
  revert r. induction q as [|name q IH]; intros r; simpl; [now intros [= ->]|].
  destruct r as [d|es]; [discriminate|].
  destruct (os.entry name es) as [c|] eqn:E; [|discriminate].
  intros H. apply IH in H. apply entry_Some_In in E. apply height_entry in E. lia.
Qed.

Lemma plainName_entry (es : list (string * os.Node)) (name : string) (c : os.Node) :
  forallb plainName (map fst es) = true -> In (name, c) es -> plainName name = true.
Proof.
  intros H Hin. rewrite forallb_forall in H. apply H.
  apply (in_map fst) in Hin. exact Hin.
Qed.

(** ** What is below a directory *)

(** The items of a directory: for each entry in the order of the names,
    the entry and what is below it. *)
Lemma treeItems_Dir (es : list (string * os.Node)) :
  treeItems (os.Dir es) =
  flat_map (fun kn => ([kn.1], os.IsDir kn.2) :: below kn.1 (treeItems kn.2))
           (os.sortedEntries es).
Proof.
  cbn [treeItems].
  set (g := fun kn : string * os.Node =>
              (kn.1, ([kn.1], os.IsDir kn.2) :: below kn.1 (treeItems kn.2))).
  assert (forall l,
            (fix blocks (l : list (string * os.Node)) :=
               match l with
               | [] => []
               | (name, c) :: l' =>
                   (name, ([name], os.IsDir c) :: below name (treeItems c)) :: blocks l'
               end) l = map g l) as ->.
  { induction l as [|[k x] l IH]; [reflexivity|]. now rewrite IH. }
  rewrite (sortBy_map fst fst g) by reflexivity.
  unfold os.sortedEntries. rewrite map_map.
  induction (sortBy fst es) as [|kn l IH]; [reflexivity|].
  simpl. do 2 f_equal. exact IH.
Qed.

Lemma under_below (names : list string) (name : string) (items : list (list string * bool)) :
  map (under names) (below name items) = map (under (names ++ [name])) items.
Proof.
  unfold below. rewrite map_map. apply map_ext. intros [ns b]. unfold under. simpl.
  now rewrite <- app_assoc.
Qed.

Lemma under_nil (items : list (list string * bool)) : map (under []) items = items.
Proof. rewrite <- (map_id items) at 2. apply map_ext. now intros [ns b]. Qed.

(** ** The walk of [ListFiles] *)

Lemma items_flat_map (names : list string) (l : list (string * os.Node)) :
  map itemText
    (map (under names)
       (flat_map (fun kn => ([kn.1], os.IsDir kn.2) :: below kn.1 (treeItems kn.2)) l)) =
  flat_map
    (fun kn => itemText (names ++ [kn.1], os.IsDir kn.2)
               :: map itemText (map (under (names ++ [kn.1])) (treeItems kn.2))) l.
Proof.
  induction l as [|kn l IH]; [reflexivity|].
  cbn [flat_map]. rewrite !map_app, IH. cbn [map]. now rewrite under_below.
Qed.

(** What the callback of [ListFiles] does with something below [dir]: it
    adds its text to the list. *)
Lemma listFilesWalkFn_item (dir : string) (names : list string) (d : os.DirEntry)
  (files : list string) :
  dir <> "" -> names <> [] -> forallb plainName names = true ->
  listFilesWalkFn dir (pathBelow dir names) (Some d) None files =
  (files ++ [itemText (names, os.entryIsDir d)], None).
Proof.
  intros Hdir Hne Hnames. unfold listFilesWalkFn, pathBelow.
  rewrite Rel_descendant by assumption.
  rewrite (proj2 (String.eqb_neq _ ".")) by (now apply join_plain_not_dot).
  unfold itemText. cbn [negb fst snd]. destruct (os.entryIsDir d); [reflexivity|].
  now rewrite append_nil_r.
Qed.

(** What it does with [dir] itself: nothing. *)
Lemma listFilesWalkFn_root (dir : string) (d : os.DirEntry) (files : list string) :
  listFilesWalkFn dir dir (Some d) None files = (files, None).
Proof.
  unfold listFilesWalkFn, filepath.Rel. now rewrite String.eqb_refl.
Qed.

Section ListFilesWalk.

Variable fs : os.FileSystem.
Variable dir : string.
Variable c : list string.
Hypothesis Hres : os.resolve fs dir = inr c.

Lemma walkEntries_items (f : nat) (path : string) (names : list string)
  (es : list (string * os.Node)) :
  walkedBelow fs dir c f ->
  (forall name, plainName name = true ->
                filepath.Join path name = pathBelow dir (names ++ [name])) ->
  forallb plainName names = true ->
  os.nodeAt (os.root fs) (c ++ names) = Some (os.Dir es) ->
  wfNode (os.Dir es) = true ->
  (forall kn, In kn es -> filepath.height kn.2 < f) ->
  forall l files,
    (forall kn, In kn l -> In kn es) ->
    filepath.walkEntries (fun path1 d1 a => filepath.walkDir f fs path1 d1 (listFilesWalkFn dir) a)
      path (map toDirEntry l) files =
    (files ++ flat_map
               (fun kn => itemText (names ++ [kn.1], os.IsDir kn.2)
                          :: map itemText (map (under (names ++ [kn.1])) (treeItems kn.2)))
               l, None).
Proof.
  intros IHf Hjoin Hnames Hnode Hwf Hh.
  apply wfNode_Dir in Hwf as (Hplain & Hnd & Hwfc).
  induction l as [|[name ch] l IH]; intros files Hin.
  - simpl. now rewrite app_nil_r.
  - assert (In (name, ch) es) as Hk by (apply Hin; now left).
    pose proof (plainName_entry es name ch Hplain Hk) as Hp.
    cbn [map filepath.walkEntries toDirEntry os.Name fst snd].
    rewrite (Hjoin name Hp).
    rewrite (IHf (names ++ [name]) ch).
    + rewrite IH by (intros kn H; apply Hin; now right).
      cbn [flat_map fst snd]. now rewrite <- !app_assoc.
    + now destruct names.
    + rewrite forallb_app, Hnames. simpl. now rewrite Hp.
    + rewrite app_assoc, nodeAt_app, Hnode. simpl.
      now rewrite (entry_In es name ch Hnd Hk).
    + now apply (Hwfc name ch).
    + now apply (Hh (name, ch)).
    + reflexivity.
Qed.

Lemma ReadDir_below (names : list string) (es : list (string * os.Node)) :
  names <> [] -> forallb plainName names = true ->
  os.nodeAt (os.root fs) (c ++ names) = Some (os.Dir es) ->
  os.ReadDir (pathBelow dir names) fs = Ok (map toDirEntry (os.sortedEntries es)).
Proof.
  intros Hne Hnames Hnode. unfold os.ReadDir, pathBelow.
  rewrite (resolve_descendant fs dir c names (os.Dir es) Hres Hne Hnames Hnode).
  now rewrite Hnode.
Qed.

Lemma walkDir_items (fuel : nat) : walkedBelow fs dir c fuel.
Proof.
  pose proof (resolve_nonempty _ _ _ Hres) as Hdir.
  unfold walkedBelow.
  induction fuel as [|f IHf]; intros names nd d files Hne Hnames Hnode Hwf Hh Hd; [lia|].
  cbn [filepath.walkDir].
  rewrite listFilesWalkFn_item by assumption. rewrite Hd.
  destruct nd as [data|es].
  - simpl. reflexivity.
  - cbn [os.IsDir negb]. rewrite (ReadDir_below names es Hne Hnames Hnode).
    rewrite (walkEntries_items f (pathBelow dir names) names es IHf); try assumption.
    + rewrite treeItems_Dir, items_flat_map. now rewrite <- app_assoc.
    + intros name Hp. unfold pathBelow. rewrite Join_assemble.
      * now rewrite <- app_assoc.
      * apply cleanInv_app; [apply cleaned_inv | exact Hnames].
      * exact Hp.
    + intros [name ch] Hin. apply height_entry in Hin. simpl. lia.
    + intros kn Hin. now apply In_sortBy in Hin.
Qed.

(** [WalkDir] from a directory lists everything below it. *)
Lemma WalkDir_listing (es : list (string * os.Node)) :
  os.nodeAt (os.root fs) c = Some (os.Dir es) ->
  wfNode (os.Dir es) = true ->
  filepath.WalkDir dir (listFilesWalkFn dir) fs [] = (listing (os.Dir es), None).
Proof.
  intros Hnode Hwf. pose proof (resolve_nonempty _ _ _ Hres) as Hdir.
  unfold filepath.WalkDir, os.Lstat. rewrite Hres, Hnode.
  cbn [filepath.walkDir os.IsDir]. rewrite listFilesWalkFn_root.
  cbn [os.entryIsDir negb]. unfold os.ReadDir. rewrite Hres, Hnode.
  change (map _ (os.sortedEntries es)) with (map toDirEntry (os.sortedEntries es)).
  rewrite (walkEntries_items (filepath.height (os.root fs)) dir [] es).
  - unfold listing. rewrite treeItems_Dir. rewrite <- (under_nil (flat_map _ _)).
    now rewrite items_flat_map.
  - apply walkDir_items.
  - intros name Hp. unfold pathBelow. now apply Join_plain.
  - reflexivity.
  - now rewrite app_nil_r.
  - exact Hwf.
  - intros [name ch] Hin. apply height_entry in Hin. apply height_nodeAt in Hnode.
    simpl in *. lia.
  - intros kn Hin. now apply In_sortBy in Hin.
Qed.

End ListFilesWalk.

(** ** The items of a tree *)

Lemma insertBy_Permutation {A : Type} (key : A -> string) (x : A) (l : list A) :
  insertBy key x l ≡ₚ x :: l.
Proof.
  induction l as [|y l IH]; simpl; [reflexivity|].
  destruct (String.leb (key x) (key y)); [reflexivity|].
  rewrite IH. apply Permutation_swap.
Qed.

Lemma sortBy_Permutation {A : Type} (key : A -> string) (l : list A) :
  sortBy key l ≡ₚ l.
Proof.
  induction l as [|x l IH]; simpl; [reflexivity|].
  now rewrite insertBy_Permutation, IH.
Qed.

(** Every item has a name. *)
Lemma treeItems_named (nd : os.Node) (b : bool) : ~ In ([], b) (treeItems nd).
Proof.
  destruct nd as [data|es]; [intros []|]. rewrite treeItems_Dir, in_flat_map.
  intros ([k ch] & _ & [H|H]); [discriminate|].
  unfold below in H. apply in_map_iff in H as ([names b'] & H & _). discriminate.
Qed.

Lemma In_below (name : string) (items : list (list string * bool)) (names : list string)
  (b : bool) :
  In (names, b) (below name items) <->
  exists rest, names = name :: rest /\ In (rest, b) items.
Proof.
  unfold below. rewrite in_map_iff. split.
  - intros ([rest b'] & [= <- <-] & Hin). now exists rest.
  - intros (rest & -> & Hin). now exists (rest, b).
Qed.

(** The items of a tree are the nodes below its root, each with the names
    that lead to it. *)
Lemma In_treeItems (names : list string) :
  forall (nd : os.Node) (b : bool),
    wfNode nd = true ->
    In (names, b) (treeItems nd) <->
    names <> [] /\ exists n, os.nodeAt nd names = Some n /\ os.IsDir n = b.
Proof.
  induction names as [|name rest IH]; intros nd b Hwf.
  - split; [intros H; now apply treeItems_named in H | now intros [H _]].
  - destruct nd as [data|es].
    + simpl. split; [intros [] | intros (_ & n & H & _); discriminate].
    + pose proof Hwf as (Hplain & Hnd & Hwfc)%wfNode_Dir.
      rewrite treeItems_Dir, in_flat_map. cbn [os.nodeAt]. split.
      * intros ([k ch] & Hin & H). apply In_sortBy in Hin. cbn [fst snd] in H.
        split; [discriminate|].
        destruct H as [[= <- <- <-]|(rest' & [= <- <-] & H)%In_below];
          rewrite (entry_In es _ ch Hnd Hin).
        -- now exists ch.
        -- apply (IH ch b (Hwfc _ _ Hin)) in H as (_ & H). exact H.
      * intros (_ & n & H & Hb).
        destruct (os.entry name es) as [ch|] eqn:E; [|discriminate].
        apply entry_Some_In in E. exists (name, ch).
        split; [now apply In_sortBy|]. cbn [fst snd In]. rewrite In_below.
        destruct rest as [|r rest'].
        -- left. simpl in H. injection H as ->. now rewrite Hb.
        -- right. exists (r :: rest'). split; [reflexivity|].
           apply (IH ch b (Hwfc _ _ E)). split; [discriminate|]. now exists n.
Qed.

Lemma NoDup_blocks (f : string * os.Node -> list (list string * bool))
  (l : list (string * os.Node)) :
  NoDup (map fst l) ->
  (forall kn, In kn l -> NoDup (f kn)) ->
  (forall kn names b, In kn l -> In (names, b) (f kn) -> exists rest, names = kn.1 :: rest) ->
  NoDup (flat_map f l).
Proof.
  induction l as [|kn l IH]; intros Hnd Hb Hh; cbn [flat_map]; [constructor|].
  cbn [map] in Hnd. apply NoDup_cons in Hnd as [Hk Hnd].
  apply NoDup_app. split; [apply Hb; now left|]. split.
  - intros [names b] H1 H2. apply list_elem_of_In in H1. apply list_elem_of_In in H2.
    apply in_flat_map in H2 as (kn' & Hin & H2).
    destruct (Hh kn names b (or_introl eq_refl) H1) as (r1 & E1).
    destruct (Hh kn' names b (or_intror Hin) H2) as (r2 & E2).
    rewrite E1 in E2. injection E2 as E2 _. apply Hk. rewrite E2.
    apply list_elem_of_In. now apply (in_map fst) in Hin.
  - apply IH; [exact Hnd | intros; apply Hb; now right | intros; eapply Hh; [now right|eassumption]].
Qed.

(** No item is listed twice. *)
Lemma NoDup_treeItems (n : nat) :
  forall nd, filepath.height nd < n -> wfNode nd = true -> NoDup (treeItems nd).
Proof.
  induction n as [|n IH]; intros nd Hh Hwf; [lia|].
  destruct nd as [data|es]; [constructor|].
  pose proof Hwf as (Hplain & Hnd & Hwfc)%wfNode_Dir.
  rewrite treeItems_Dir. apply NoDup_blocks.
  - unfold os.sortedEntries.
    assert (map fst (sortBy fst es) ≡ₚ map fst es) as ->; [|exact Hnd].
    apply Permutation_map, sortBy_Permutation.
  - intros [k ch] Hin%In_sortBy. cbn [fst snd]. apply NoDup_cons. split.
    + intros H%list_elem_of_In%In_below. destruct H as (rest & [= <-] & H).
      now apply treeItems_named in H.
    + unfold below. change (map ?f ?l) with (f <$> l). apply NoDup_fmap_2.
      * intros [n1 b1] [n2 b2] [= -> ->]. reflexivity.
      * apply IH; [|now apply (Hwfc k ch)]. apply height_entry in Hin. lia.
  - intros [k ch] names b Hin. cbn [fst snd]. intros [[= <- _]|H]; [now exists []|].
    apply In_below in H as (rest & -> & _). now exists rest.
Qed.

(** ** [ListFiles] *)

Section ListFilesProperties.

Variable foldName : string -> string.
Variable MarshalText : json.Value -> string.

Lemma decode_listArgs (p : option string) :
  json.Unmarshal foldName ListFilesInputType (listArgs p) {| ListFilesInput_Path := "" |} =
  ({| ListFilesInput_Path := match p with Some s => s | None => "" end |}, None).
Proof. destruct p; reflexivity. Qed.

Lemma ListFiles_listArgs (p : option string) (fs : os.FileSystem) :
  ListFiles foldName MarshalText (listArgs p) fs =
  match filepath.WalkDir (listDir p) (listFilesWalkFn (listDir p)) fs [] with
  | (_, Some err) => Returns (Err err, fs)
  | (files, None) => Returns (Ok (MarshalText (json.JArray (map json.JString files))), fs)
  end.
Proof.
  unfold ListFiles. rewrite decode_listArgs. cbn [ListFilesInput_Path].
  destruct p as [s|]; [|reflexivity]. simpl. now destruct (String.eqb s "").
Qed.

(** C7. For every existing directory p, list_files(p) succeeds, changes
    nothing, and returns the JSON text of the list [listing] of the
    directory: its items are exactly the files and directories below p,
    each once, each as the names that lead to it from p joined by
    slashes, with a slash appended for a directory and nothing for a
    file, and with no item for p itself; within every directory the
    entries come in the byte-wise order of their names, each directory
    followed at once by what is below it.  With no path, or the empty
    path, the directory listed is [.]. *)
Theorem C7_list_files (p : option string) (fs : os.FileSystem) (c : list string)
  (es : list (string * os.Node)) :
  os.resolve fs (listDir p) = inr c ->
  os.nodeAt (os.root fs) c = Some (os.Dir es) ->
  wfNode (os.Dir es) = true ->
  ListFiles foldName MarshalText (listArgs p) fs =
    Returns (Ok (MarshalText (json.JArray (map json.JString (listing (os.Dir es))))), fs) /\
  listing (os.Dir es) =
    map (fun item : list string * bool =>
           path.join item.1 +:+ (if item.2 then "/" else ""))
        (treeItems (os.Dir es)) /\
  (forall names b,
     In (names, b) (treeItems (os.Dir es)) <->
     names <> [] /\
     exists n, os.nodeAt (os.root fs) (c ++ names) = Some n /\ os.IsDir n = b) /\
  NoDup (treeItems (os.Dir es)) /\
  (forall es',
     treeItems (os.Dir es') =
       flat_map (fun kn => ([kn.1], os.IsDir kn.2) :: below kn.1 (treeItems kn.2))
                (os.sortedEntries es') /\
     Sorted (fun a b : string * os.Node => String.le a.1 b.1) (os.sortedEntries es') /\
     os.sortedEntries es' ≡ₚ es') /\
  listDir None = "." /\ listDir (Some "") = ".".
Proof.
  intros Hres Hnode Hwf. split; [|split; [|split; [|split; [|split]]]].
  - rewrite ListFiles_listArgs.
    now rewrite (WalkDir_listing fs (listDir p) c Hres es Hnode Hwf).
  - reflexivity.
  - intros names b. rewrite nodeAt_app, Hnode. now apply In_treeItems.
  - now apply (NoDup_treeItems (S (filepath.height (os.Dir es)))); [lia|].
  - intros es'. split; [apply treeItems_Dir|]. split.
    + apply (sortBy_sorted fst).
    + apply sortBy_Permutation.
  - split; reflexivity.
Qed.

End ListFilesProperties.

(** * Part III. The properties on examples *)

(** ** The agent loop *)

(** C1 on the example of two tool calls, an unknown name and then
    [read_file]: two results, the first "tool not found", the second the
    content of the file, sent together; then the loop goes on. *)
Lemma C1_unknown_and_known_tool :
  runToolCalls sampleAgent (callsOf unknownAndKnown) []
    (beforeToolCalls (worldOf sampleScript) "go" [answer followUpAnswer] unknownAndKnown)
    = Done twoResults afterTwoCalls /\
  oneResultPerCall sampleAgent (callsOf unknownAndKnown) twoResults /\
  loop scriptedSend sampleAgent ["go"] (worldOf sampleScript) =
  followUp scriptedSend sampleAgent [] afterTwoCalls twoResults.
Proof.
  split; [vm_compute; reflexivity|].
  apply (C1_one_result_per_call Script scriptedSend sampleAgent "go" []
           (worldOf sampleScript) afterTwoCalls [answer followUpAnswer]
           {| genai.Candidates :=
                [Some {| genai.Content_ := Some {| genai.Parts := unknownAndKnown |} |}] |}
           unknownAndKnown twoResults).
  - reflexivity.
  - reflexivity.
  - discriminate.
  - vm_compute; reflexivity.
Defined.

(** C1, the input on which the program fails: the model asks for
    [edit_file] with the number 5 as path.  The decoding into the struct
    fails, the recovery branch of [EditFile] asserts that the path is a
    string, and the panic ends the program: no result is made for the call
    and nothing is sent back. *)
Lemma C1_tool_panic_ends_the_program :
  Run scriptedSend sampleAgent ["edit it"] (worldOf [answer [editNumberedPath]]) =
  Crash "interface conversion: interface {} is float64, not string"
    {| session := [];
       files := sampleFS;
       trace := [EvBanner; EvPrompt; EvUserMessage (Some "edit it");
                 EvSendMessage [genai.Text "edit it"];
                 EvTool "edit_file"
                   (json.Encoded (json.JObject [("path", json.JNumber "5")]))] |}.
Proof. vm_compute. reflexivity. Qed.

(** C8 on an example: the answer to the tool results holds a text and a
    call of [edit_file] on [a.txt]; the text is printed, the call is not
    run, and the loop is back at its start with the files as they were. *)
Lemma C8_follow_up_call_not_run :
  loop scriptedSend sampleAgent ["go"] (worldOf sampleScript) =
  loop scriptedSend sampleAgent [] (afterFollowUp afterTwoCalls twoResults [] followUpAnswer) /\
  callsOf followUpAnswer <> [] /\
  files (afterFollowUp afterTwoCalls twoResults [] followUpAnswer) = sampleFS /\
  trace (afterFollowUp afterTwoCalls twoResults [] followUpAnswer) =
  trace afterTwoCalls ++ [EvSendMessage twoResults; EvGemini "done"].
Proof.
  split; [|split; [discriminate | split; reflexivity]].
  etransitivity.
  - apply (C8_follow_up_calls_not_dispatched Script scriptedSend sampleAgent "go" []
             (worldOf sampleScript) afterTwoCalls [answer followUpAnswer] []
             {| genai.Candidates :=
                  [Some {| genai.Content_ := Some {| genai.Parts := unknownAndKnown |} |}] |}
             {| genai.Candidates :=
                  [Some {| genai.Content_ := Some {| genai.Parts := followUpAnswer |} |}] |}
             unknownAndKnown twoResults).
    + reflexivity.
    + reflexivity.
    + discriminate.
    + vm_compute; reflexivity.
    + reflexivity.
  - reflexivity.
Defined.

(** C8, the input on which the program fails: the tools have run and
    their results are sent, and the answer to them holds no candidate.
    Reading its first candidate panics, and the program ends with a stack
    trace; it does not come back to read the next line. *)
Lemma C8_follow_up_without_candidate_panics :
  Run scriptedSend sampleAgent ["go"; "more"] (worldOf [answer unknownAndKnown; noCandidates]) =
  Crash "runtime error: index out of range [0] with length 0"
    {| session := [];
       files := sampleFS;
       trace := EvBanner :: trace afterTwoCalls ++ [EvSendMessage twoResults] |}.
Proof. vm_compute. reflexivity. Qed.

(** ** Arguments that do not fit *)



(** ** [edit_file] that creates *)

(** C3 on an example: a file two new directories down. *)
Lemma C3_creates_file_and_parents :
  exists fs',
    EditFile foldASCII (editArgs "new/dir/f.txt" "" "hi") sampleFS =
      Returns (Ok "Successfully created file new/dir/f.txt", fs') /\
    os.ReadFile "new/dir/f.txt" fs' = Ok "hi" /\
    forall k, 0 < k < 3 ->
      exists d, os.Lstat (plainPath false (take k ["new"; "dir"; "f.txt"])) fs' = Ok d /\
                os.entryIsDir d = true.
Proof.
  apply (C3_creates_missing_file foldASCII false ["new"; "dir"; "f.txt"] "hi" sampleFS).
  - discriminate.
  - reflexivity.
  - reflexivity.
  - reflexivity.
Defined.

(** C3, where the claim fails.  The path [a.txt/x] does not exist, and
    [edit_file] fails on it: [a.txt] is a file, the error of reading is not
    "does not exist".  The path [newdir/] does not exist, and [edit_file]
    fails on it after making the directory [newdir].  The empty path does
    not exist, and [edit_file] creates [./failed.txt] instead. *)
Lemma C3_missing_paths_not_created :
  os.ReadFile "a.txt/x" sampleFS = Err (PathError "open" "a.txt/x" ENOTDIR) /\
  EditFile foldASCII (editArgs "a.txt/x" "" "X") sampleFS =
    Returns (Err (PathError "open" "a.txt/x" ENOTDIR), sampleFS) /\
  os.ReadFile "newdir/" sampleFS = Err (PathError "open" "newdir/" ENOENT) /\
  match EditFile foldASCII (editArgs "newdir/" "" "X") sampleFS with
  | Returns (Err err, fs') =>
      err = wrapError "failed to create file" (PathError "open" "newdir/" EISDIR) /\
      os.ReadFile "newdir/" fs' = Err (PathError "read" "newdir/" EISDIR)
  | _ => False
  end /\
  os.ReadFile "" sampleFS = Err (PathError "open" "" ENOENT) /\
  match EditFile foldASCII (editArgs "" "" "X") sampleFS with
  | Returns (Ok msg, fs') =>
      msg = "Successfully created file ./failed.txt" /\
      os.ReadFile "" fs' = Err (PathError "open" "" ENOENT) /\
      os.ReadFile "./failed.txt" fs' = Ok "X"
  | _ => False
  end.
Proof. vm_compute. repeat split; reflexivity. Qed.

(** ** [edit_file] that replaces *)

(** C4 on an example: [aa] replaced by [c] in [aab]. *)
Lemma C4_replaces_in_a_txt :
  exists fs' C',
    EditFile foldASCII (editArgs "a.txt" "aa" "c") sampleFS =
      Returns (Ok "File a.txt updated successfully", fs') /\
    os.ReadFile "a.txt" fs' = Ok C' /\
    replacedAll "aa" "c" "aab" C' /\ C' <> "aab" /\
    (~ occursIn "aa" C' ->
     EditFile foldASCII (editArgs "a.txt" "aa" "c") fs' =
       Returns (Err (errorString "old_str not found in file"), fs')) /\
    (occursIn "aa" C' ->
     exists fs'' C'',
       EditFile foldASCII (editArgs "a.txt" "aa" "c") fs' =
         Returns (Ok "File a.txt updated successfully", fs'') /\
       os.ReadFile "a.txt" fs'' = Ok C'' /\ replacedAll "aa" "c" C' C'' /\ C'' <> C').
Proof.
  apply (C4_replaces_every_occurrence foldASCII "a.txt" "aa" "c" "aab" sampleFS).
  - reflexivity.
  - discriminate.
  - discriminate.
  - exists "", "b". reflexivity.
Defined.

(** C4, where the claim fails: the file holds [aab], old is [ab], new is
    [b], which contains no [ab].  The edit leaves [ab]; the same edit again
    finds [ab], succeeds and leaves [b]. *)
Lemma C4_old_found_again :
  os.ReadFile "a.txt" sampleFS = Ok "aab" /\
  strings.Index "b" "ab" = None /\
  match EditFile foldASCII (editArgs "a.txt" "ab" "b") sampleFS with
  | Returns (Ok _, fs') =>
      os.ReadFile "a.txt" fs' = Ok "ab" /\
      match EditFile foldASCII (editArgs "a.txt" "ab" "b") fs' with
      | Returns (Ok msg, fs'') =>
          msg = "File a.txt updated successfully" /\ os.ReadFile "a.txt" fs'' = Ok "b"
      | _ => False
      end
  | _ => False
  end.
Proof. vm_compute. repeat split; reflexivity. Qed.

(** C5 on an example: [zz] is not in [aab]. *)
Lemma C5_no_match_in_a_txt :
  EditFile foldASCII (editArgs "a.txt" "zz" "y") sampleFS =
  Returns (Err (errorString "old_str not found in file"), sampleFS).
Proof.
  apply (C5_no_match_unchanged foldASCII "a.txt" "zz" "y" "aab" sampleFS).
  - reflexivity.
  - discriminate.
  - discriminate.
  - apply Index_None. reflexivity.
Defined.

(** C6 on examples: a file that is there and one that is not. *)
Lemma C6_same_strings_on_examples :
  EditFile foldASCII (editArgs "a.txt" "a" "a") sampleFS =
    Returns (Err (errorString "old_str and new_str must be different"), sampleFS) /\
  EditFile foldASCII (editArgs "nope.txt" "a" "a") sampleFS =
    Returns (Err (errorString "old_str and new_str must be different"), sampleFS).
Proof.
  split.
  - apply (C6_same_strings_rejected foldASCII "a.txt" "a" sampleFS). discriminate.
  - apply (C6_same_strings_rejected foldASCII "nope.txt" "a" sampleFS). discriminate.
Defined.


(** ** Default paths *)



(** ** [list_files] *)

(** C7 on the example of the specification: a directory that holds
    [a.txt] and the directory [b] with [b/c.txt]. *)
Lemma C7_lists_the_sample_directory :
  ListFiles foldASCII plainJSON (listArgs None) sampleFS =
    Returns (Ok (plainJSON (json.JArray (map json.JString ["a.txt"; "b/"; "b/c.txt"]))),
             sampleFS) /\
  ListFiles foldASCII plainJSON (listArgs (Some "b")) sampleFS =
    Returns (Ok (plainJSON (json.JArray (map json.JString ["c.txt"]))), sampleFS).
Proof.
  split.
  - apply (C7_list_files foldASCII plainJSON None sampleFS ["work"]
             [("a.txt", os.File "aab"); ("b", os.Dir [("c.txt", os.File "hello")])]);
      reflexivity.
  - apply (C7_list_files foldASCII plainJSON (Some "b") sampleFS ["work"; "b"]
             [("c.txt", os.File "hello")]); reflexivity.
Defined.

(** * Part IV. Further properties of the program *)

(** ** The loop of [Run] outside the turns with tool calls *)

Section RunProperties.

Variable Session : Type.
Variable SendMessage :
  Session -> list genai.Part -> result genai.GenerateContentResponse * Session.

(** The body of the loop when the response holds no tool call. *)
Lemma iteration_text_turn (a : Agent) (userInput : string) (w : World Session)
  (s1 : Session) (resp1 : genai.GenerateContentResponse) (parts1 : list genai.Part) :
  SendMessage (session w) [genai.Text userInput] = (Ok resp1, s1) ->
  firstParts resp1 = Returns parts1 ->
  callsOf parts1 = [] ->
  iteration SendMessage a userInput w =
  Done None
    {| session := s1;
       files := files w;
       trace := trace w ++ [EvSendMessage [genai.Text userInput]]
                        ++ map EvGemini (textsOf parts1) |}.
Proof.
  intros H1 Hp1 Hcalls. unfold iteration, runInference. cbn [session emit].
  rewrite H1. cbn [files trace]. rewrite Hp1, processParts_spec, Hcalls.
  cbn [app length Nat.ltb Nat.leb]. unfold emit. cbn [session files trace].
  now rewrite <- !app_assoc.
Qed.

(** The body of the loop when sending the user's line fails. *)
Lemma iteration_inference_error (a : Agent) (userInput : string) (w : World Session)
  (s1 : Session) (err : error) :
  SendMessage (session w) [genai.Text userInput] = (Err err, s1) ->
  iteration SendMessage a userInput w =
  Done (Some (errorString ("error sending message: " +:+ Error err)))
    {| session := s1;
       files := files w;
       trace := trace w ++ [EvSendMessage [genai.Text userInput];
                            EvLog ("ERROR running inference: error sending message: "
                                   +:+ Error err)] |}.
Proof.
  intros H1. unfold iteration, runInference. cbn [session emit].
  rewrite H1. cbn [files trace Error]. unfold emit. cbn [session files trace].
  now rewrite <- !app_assoc.
Qed.

(** The body of the loop when reading the parts of the response panics. *)
Lemma iteration_no_parts (a : Agent) (userInput : string) (w : World Session)
  (s1 : Session) (resp1 : genai.GenerateContentResponse) (msg : string) :
  SendMessage (session w) [genai.Text userInput] = (Ok resp1, s1) ->
  firstParts resp1 = Panics msg ->
  iteration SendMessage a userInput w =
  Crash msg
    {| session := s1;
       files := files w;
       trace := trace w ++ [EvSendMessage [genai.Text userInput]] |}.
Proof.
  intros H1 Hp1. unfold iteration, runInference. cbn [session emit].
  rewrite H1. cbn [files trace]. now rewrite Hp1.
Qed.

(** X1. A turn whose response holds no tool call.  When the response has
    a first candidate with a content, the texts are printed, nothing more
    is sent, no tool runs, the files stay as they are, and the loop goes on
    with the next line.  When it has none, reading the parts panics and
    the program ends there, with the files as they were. *)
Theorem text_turn_goes_on (a : Agent) (userInput : string) (lines : list string)
  (w : World Session) (s1 : Session) (resp1 : genai.GenerateContentResponse) :
  SendMessage (session w) [genai.Text userInput] = (Ok resp1, s1) ->
  (forall parts1, firstParts resp1 = Returns parts1 -> callsOf parts1 = []) ->
  loop SendMessage a (userInput :: lines) w =
  match firstParts resp1 with
  | Returns parts1 =>
      loop SendMessage a lines
        {| session := s1;
           files := files w;
           trace := trace w ++ [EvPrompt; EvUserMessage (Some userInput);
                                EvSendMessage [genai.Text userInput]]
                            ++ map EvGemini (textsOf parts1) |}
  | Panics msg =>
      Crash msg
        {| session := s1;
           files := files w;
           trace := trace w ++ [EvPrompt; EvUserMessage (Some userInput);
                                EvSendMessage [genai.Text userInput]] |}
  end.
Proof.
  intros H1 Hcalls. cbn [loop]. destruct (firstParts resp1) as [parts1|msg] eqn:Hp1.
  - rewrite (iteration_text_turn a userInput _ s1 resp1 parts1)
      by (try apply Hcalls; assumption || reflexivity).
    cbn [emit session files trace]. now rewrite <- !app_assoc.
  - rewrite (iteration_no_parts a userInput _ s1 resp1 msg) by assumption.
    cbn [emit session files trace]. now rewrite <- !app_assoc.
Qed.

(** X2. When sending the user's line fails, [Run] logs the failure and
    returns the error "error sending message: ..."; the lines that are left
    are not read and the files stay as they are. *)
Theorem inference_error_ends_the_loop (a : Agent) (userInput : string)
  (lines : list string) (w : World Session) (s1 : Session) (err : error) :
  SendMessage (session w) [genai.Text userInput] = (Err err, s1) ->
  loop SendMessage a (userInput :: lines) w =
  Done (Some (errorString ("error sending message: " +:+ Error err)))
    {| session := s1;
       files := files w;
       trace := trace w ++ [EvPrompt; EvUserMessage (Some userInput);
                            EvSendMessage [genai.Text userInput];
                            EvLog ("ERROR running inference: error sending message: "
                                   +:+ Error err)] |}.
Proof.
  intros H1. cbn [loop].
  rewrite (iteration_inference_error a userInput _ s1 err) by assumption.
  cbn [emit session files trace]. now rewrite <- !app_assoc.
Qed.

(** X3. A response without a candidate, or whose first candidate or its
    content is nil, ends the program with a panic: the loop reads
    [resp.Candidates[0].Content.Parts] unchecked. *)
Theorem response_without_parts_panics (a : Agent) (userInput : string)
  (lines : list string) (w : World Session) (s1 : Session)
  (resp1 : genai.GenerateContentResponse) :
  SendMessage (session w) [genai.Text userInput] = (Ok resp1, s1) ->
  (genai.Candidates resp1 = [] \/
   (exists rest, genai.Candidates resp1 = None :: rest) \/
   (exists rest, genai.Candidates resp1 = Some {| genai.Content_ := None |} :: rest)) ->
  exists msg,
    loop SendMessage a (userInput :: lines) w =
    Crash msg
      {| session := s1;
         files := files w;
         trace := trace w ++ [EvPrompt; EvUserMessage (Some userInput);
                              EvSendMessage [genai.Text userInput]] |} /\
    msg = if bool_decide (genai.Candidates resp1 = [])
          then "runtime error: index out of range [0] with length 0"
          else "runtime error: invalid memory address or nil pointer dereference".
Proof.
  intros H1 Hc.
  cbn [loop]. unfold iteration, runInference. cbn [session emit].
  rewrite H1. cbn [files trace]. unfold firstParts.
  destruct Hc as [E|[[rest E]|[rest E]]]; rewrite E; cbn [genai.Content_];
    unfold emit; cbn [session files trace]; rewrite <- ?app_assoc;
    eexists; (split; [reflexivity|]);
    [now rewrite bool_decide_eq_true_2 | now rewrite bool_decide_eq_false_2 ..].
Qed.

(** The two panics of reading the parts of a response. *)
Lemma firstParts_panics (resp : genai.GenerateContentResponse) (msg : string) :
  firstParts resp = Panics msg ->
  msg = "runtime error: index out of range [0] with length 0" \/
  msg = "runtime error: invalid memory address or nil pointer dereference".
Proof.
  unfold firstParts. destruct (genai.Candidates resp) as [|[c|] rest].
  - intros [= <-]. now left.
  - destruct (genai.Content_ c); [discriminate|]. intros [= <-]. now right.
  - intros [= <-]. now right.
Qed.

(** X4. When no response of the model holds a tool call, [Run] leaves the
    files as they were, however it ends.  It returns nil only after it has
    read every line of its input; it returns an error when sending fails;
    and when it panics, the panic is the one of reading the parts of a
    response without a candidate or without a content. *)
Theorem no_tool_call_no_file_change (a : Agent) (lines : list string) :
  (forall s parts resp s' ps,
     SendMessage s parts = (Ok resp, s') ->
     firstParts resp = Returns ps -> callsOf ps = []) ->
  forall w,
    match Run SendMessage a lines w with
    | Done r w' =>
        files w' = files w /\
        (r = None -> Forall (fun line => In (EvUserMessage (Some line)) (trace w')) lines)
    | Crash msg w' =>
        files w' = files w /\
        (msg = "runtime error: index out of range [0] with length 0" \/
         msg = "runtime error: invalid memory address or nil pointer dereference")
    end.
Proof.
  intros Hsend. unfold Run.
  assert (forall w,
            match loop SendMessage a lines w with
            | Done r w' =>
                files w' = files w /\
                (exists evs, trace w' = trace w ++ evs) /\
                (r = None ->
                 Forall (fun line => In (EvUserMessage (Some line)) (trace w')) lines)
            | Crash msg w' =>
                files w' = files w /\
                (msg = "runtime error: index out of range [0] with length 0" \/
                 msg = "runtime error: invalid memory address or nil pointer dereference")
            end)
    as Hloop.
  { induction lines as [|line lines IH]; intros w.
    - cbn [loop emit files trace]. split; [reflexivity|]. split; [now eexists | constructor].
    - destruct (SendMessage (session w) [genai.Text line]) as [[resp|err] s1] eqn:E.
      + destruct (firstParts resp) as [ps|msg] eqn:Hp.
        * pose proof (Hsend _ _ _ _ ps E Hp) as Hcalls.
          cbn [loop].
          rewrite (iteration_text_turn a line _ s1 resp ps) by assumption.
          match goal with
          | |- context [loop _ _ lines ?x] =>
              pose proof (IH x) as H; destruct (loop SendMessage a lines x) as [r w'|msg w']
          end.
          -- destruct H as (Hf & (evs & Ht) & Hin).
             split; [exact Hf|]. cbn [trace emit] in Ht. split.
             ++ eexists. rewrite Ht, <- !app_assoc. reflexivity.
             ++ intros Hr. constructor; [|now apply Hin].
                rewrite Ht, !in_app_iff. left. left. right. right. now left.
          -- exact H.
        * cbn [loop]. rewrite (iteration_no_parts a line _ s1 resp msg) by assumption.
          split; [reflexivity|]. now apply (firstParts_panics resp).
      + cbn [loop]. rewrite (iteration_inference_error a line _ s1 err) by assumption.
        split; [reflexivity|].
        split; [|discriminate]. cbn [trace emit]. eexists. now rewrite <- !app_assoc. }
  intros w. pose proof (Hloop (emit [EvBanner] w)) as H.
  destruct (loop SendMessage a lines (emit [EvBanner] w)) as [r w'|msg w'].
  - destruct H as (Hf & _ & Hin). now split.
  - exact H.
Qed.

End RunProperties.

(** ** The tool calls of a turn *)

Section ToolCalls.

Variable Session : Type.

Lemma find_registered (ts : list ToolDefinition) (call : genai.FunctionCall) :
  registered ts call =
  match List.find (fun tool => String.eqb (Name tool) (genai.Name call)) ts with
  | Some _ => true
  | None => false
  end.
Proof.
  unfold registered. induction ts as [|t ts IH]; [reflexivity|]. simpl.
  now destruct (String.eqb (Name t) (genai.Name call)).
Qed.

(** What one call does to the session and to what is printed. *)
Lemma executeTool_world (a : Agent) (call : genai.FunctionCall) (w w' : World Session)
  (result : gmap string json.Value) :
  executeTool a (genai.Name call) (genai.Args call) w = Done result w' ->
  session w' = session w /\
  trace w' = trace w ++ (if registered (agentTools a) call then [toolLine call] else []).
Proof.
  rewrite find_registered. unfold executeTool.
  destruct (List.find _ (agentTools a)) as [tool|].
  - cbn [emit files session trace].
    destruct (Function tool _ (files w)) as [[[response|err] fs]|msg]; [| |discriminate];
      intros [= _ <-]; split; reflexivity.
  - intros [= _ <-]. now rewrite app_nil_r.
Qed.

(** X5. The tool calls of a turn never touch the chat session, and what
    they print is one line [tool: name(arguments)] for each call that names
    a registered tool, in the order of the calls; a call of an unknown name
    prints nothing. *)
Theorem tool_calls_leave_the_session (a : Agent) (calls : list genai.FunctionCall)
  (parts parts' : list genai.Part) (w w' : World Session) :
  runToolCalls a calls parts w = Done parts' w' ->
  session w' = session w /\
  trace w' = trace w ++ map toolLine (List.filter (registered (agentTools a)) calls).
Proof.
  revert parts w. induction calls as [|call calls IH]; intros parts w; cbn [runToolCalls].
  - intros [= _ <-]. now rewrite app_nil_r.
  - destruct (executeTool a (genai.Name call) (genai.Args call) w) as [result w1|msg w1] eqn:E;
      [|discriminate].
    apply executeTool_world in E as [Hs Ht].
    intros H. apply IH in H as [Hs' Ht']. split; [congruence|].
    rewrite Ht', Ht, <- app_assoc. f_equal. cbn [List.filter].
    now destruct (registered (agentTools a) call).
Qed.

Variable foldName : string -> string.
Variable MarshalText : json.Value -> string.

(** [ReadFile] and [ListFiles] return, whatever the input, and leave the
    file system alone. *)
Lemma ReadFile_returns (raw : json.RawMessage) (fs : os.FileSystem) :
  exists r, ReadFile foldName raw fs = Returns (r, fs).
Proof.
  unfold ReadFile. destruct (json.Unmarshal _ _ raw _) as [v [e|]]; [eauto|].
  destruct (os.ReadFile _ fs); eauto.
Qed.

Lemma ListFiles_returns (raw : json.RawMessage) (fs : os.FileSystem) :
  exists r, ListFiles foldName MarshalText raw fs = Returns (r, fs).
Proof.
  unfold ListFiles. destruct (json.Unmarshal _ _ raw _) as [v [e|]]; [eauto|].
  destruct (filepath.WalkDir _ _ fs []) as [files [e|]]; eauto.
Qed.

(** X6. With the tools [main] registers, tool calls that do not name
    [edit_file] (calls of [read_file], of [list_files], of unknown names,
    with whatever arguments) never panic and leave the files as they are:
    the files change through [edit_file] only. *)
Theorem only_edit_file_changes_files (calls : list genai.FunctionCall)
  (parts : list genai.Part) (w : World Session) :
  Forall (fun call => genai.Name call <> "edit_file") calls ->
  exists parts' w',
    runToolCalls {| agentTools := tools foldName MarshalText |} calls parts w
      = Done parts' w' /\
    files w' = files w.
Proof.
  intros Hcalls. revert parts w.
  induction Hcalls as [|call calls Hn _ IH]; intros parts w; cbn [runToolCalls].
  - now exists parts, w.
  - assert (exists result w1,
              executeTool {| agentTools := tools foldName MarshalText |}
                (genai.Name call) (genai.Args call) w = Done result w1 /\
              files w1 = files w) as (result & w1 & -> & Hf).
    { unfold executeTool, tools. cbn [agentTools List.find Name ReadFileDefinition
                                       ListFilesDefinition EditFileDefinition].
      destruct (String.eqb "read_file" (genai.Name call)).
      - change (Function (ReadFileDefinition foldName)) with (ReadFile foldName).
        cbn [emit files].
        destruct (ReadFile_returns (json.MarshalMap (genai.Args call)) (files w)) as [[r|e] ->];
          eauto.
      - destruct (String.eqb "list_files" (genai.Name call)).
        + change (Function (ListFilesDefinition foldName MarshalText))
            with (ListFiles foldName MarshalText).
          cbn [emit files].
          destruct (ListFiles_returns (json.MarshalMap (genai.Args call)) (files w))
            as [[r|e] ->]; eauto.
        + rewrite (proj2 (String.eqb_neq "edit_file" (genai.Name call)))
            by (intros E; now apply Hn). eauto. }
    destruct (IH (parts ++ [genai.Resp {| genai.respName := genai.Name call;
                                          genai.Response := result |}]) w1)
      as (parts' & w' & -> & Hf').
    exists parts', w'. split; [reflexivity | congruence].
Qed.

(** X7. What the model gets for [read_file(p)]: the content of the file
    under the key [result], or the text of the error of reading under the
    key [error] ([open p: no such file or directory] for a missing file,
    [read p: is a directory] for a directory); the files are not changed. *)
Theorem read_file_result (p : string) (w : World Session) :
  executeTool {| agentTools := tools foldName MarshalText |} "read_file"
    (Some {[ "path" := json.JString p ]}) w =
  Done match os.ReadFile p (files w) with
       | Ok content => {[ "result" := json.JString content ]}
       | Err err => {[ "error" := json.JString (Error err) ]}
       end
       {| session := session w;
          files := files w;
          trace := trace w ++ [EvTool "read_file" (readArgs p)] |}.
Proof.
  unfold executeTool, tools. cbn [agentTools List.find Name ReadFileDefinition].
  change (String.eqb "read_file" "read_file") with true.
  cbn [emit files session trace].
  change (Function (ReadFileDefinition foldName)) with (ReadFile foldName).
  change (json.MarshalMap (Some {[ "path" := json.JString p ]})) with (readArgs p).
  assert (ReadFile foldName (readArgs p) (files w) =
          Returns (match os.ReadFile p (files w) with
                   | Ok content => Ok content
                   | Err err => Err err
                   end, files w)) as ->.
  { unfold ReadFile.
    assert (json.Unmarshal foldName ReadFileInputType (readArgs p)
              {| ReadFileInput_Path := "" |} = ({| ReadFileInput_Path := p |}, None)) as ->
      by reflexivity.
    cbn [ReadFileInput_Path]. now destruct (os.ReadFile p (files w)). }
  now destruct (os.ReadFile p (files w)).
Qed.

End ToolCalls.

(** ** [EditFile]: when it fails, when it panics *)

Section EditFileFurther.

Variable foldName : string -> string.

(** X8. When the file [edit_file] is to work on cannot be read, and this
    is not the case of a missing file with an empty old_str (which creates
    the file), [edit_file] fails and changes nothing: with "file does not
    exist and old_str is not empty" for a missing file, else with the
    error of reading (the path names a directory, or lies below a regular
    file). *)
Theorem edit_file_unreadable_target (p old new : string) (fs : os.FileSystem)
  (err : error) :
  os.ReadFile (editedPath p) fs = Err err ->
  old <> new \/ old = "" ->
  os.IsNotExist err = false \/ old <> "" ->
  EditFile foldName (editArgs p old new) fs =
  Returns (Err (if os.IsNotExist err
                then errorString "file does not exist and old_str is not empty"
                else err), fs).
Proof.
  intros Hread Hdiff Hcase. rewrite EditFile_editArgs. unfold editFile.
  cbn [Path OldStr NewStr]. fold (editedPath p). rewrite Hread.
  assert (String.eqb old new && negb (String.eqb old "") = false) as ->.
  { destruct Hdiff as [H| ->]; [|now rewrite andb_false_r].
    now rewrite (proj2 (String.eqb_neq old new)). }
  destruct (os.IsNotExist err); [|reflexivity].
  destruct Hcase as [H|H]; [discriminate|].
  now rewrite (proj2 (String.eqb_neq old "")).
Qed.

(** The members of the map come from the object. *)
Lemma UnmarshalMap_lookup (members : list (string * json.Value))
  (m : gmap string json.Value) (k : string) (x : json.Value) :
  json.UnmarshalMap (json.Encoded (json.JObject members)) = Ok m ->
  m !! k = Some x -> In (k, x) members.
Proof.
  cbn [json.UnmarshalMap]. destruct (forallb _ members); [|discriminate]. intros [= <-].
  assert (forall (m0 : gmap string json.Value),
            fold_left (fun m kv => <[kv.1 := kv.2]> m) members m0 !! k = Some x ->
            In (k, x) members \/ m0 !! k = Some x) as H.
  { induction members as [|[k' x'] members IH]; intros m0; cbn [fold_left]; [now right|].
    intros H. apply IH in H as [H|H]; [left; now right|]. cbn [fst snd] in H.
    destruct (decide (k' = k)) as [->|Hne].
    - rewrite lookup_insert_eq in H. injection H as ->. left. now left.
    - rewrite lookup_insert_ne in H by exact Hne. now right. }
  intros Hl. apply H in Hl as [Hl|Hl]; [exact Hl|]. now rewrite lookup_empty in Hl.
Qed.

(** What [UnmarshalMap] accepts is [null] or an object. *)
Lemma UnmarshalMap_Ok (raw : json.RawMessage) (m : gmap string json.Value) :
  json.UnmarshalMap raw = Ok m ->
  (raw = json.Encoded json.JNull /\ m = ∅) \/
  exists members, raw = json.Encoded (json.JObject members).
Proof.
  destruct raw as [|v]; [discriminate|]. destruct v; try discriminate.
  - intros [= <-]. now left.
  - right. now exists members.
Qed.

(** X9. On arguments that decode into a map (a JSON object in which
    every number fits a float64), a member [path] that is neither a string
    nor null makes [edit_file] panic, whatever the other members are: the
    decoding into the struct fails, and the recovery branch asserts that
    the path is a string.  (Arguments with a number outside the float64
    do not decode into a map; on them [edit_file] returns "invalid input
    format".) *)
Theorem edit_file_panics_on_path (raw : json.RawMessage) (fs : os.FileSystem)
  (m : gmap string json.Value) (x : json.Value) :
  json.UnmarshalMap raw = Ok m ->
  m !! "path" = Some x ->
  ~ stringOrNull x ->
  EditFile foldName raw fs =
  Panics ("interface conversion: interface {} is " +:+ goTypeName x +:+ ", not string").
Proof.
  intros Hm Hx Hbad.
  assert (forall s, x <> json.JString s) as Hs
    by (intros s ->; apply Hbad; right; now exists s).
  assert (x <> json.JNull) as Hnull by (intros ->; apply Hbad; now left).
  destruct (UnmarshalMap_Ok raw m Hm) as [[-> ->]|[members ->]];
    [now rewrite lookup_empty in Hx|].
  pose proof (UnmarshalMap_lookup members m "path" x Hm Hx) as Hin.
  destruct (decode_bad_member foldName EditFileInputType members "path" "path" x
              {| Path := ""; OldStr := ""; NewStr := "" |} None Hin) as (v' & e & He);
    [unfold json.findField; now rewrite bool_decide_eq_true_2 by (simpl; set_solver)
    | exact Hs | exact Hnull |].
  unfold EditFile, decodeEditFileInput.
  change (json.Unmarshal foldName EditFileInputType (json.Encoded (json.JObject members))
            {| Path := ""; OldStr := ""; NewStr := "" |})
    with (fold_left (json.decodeMember foldName EditFileInputType) members
            ({| Path := ""; OldStr := ""; NewStr := "" |}, None)).
  rewrite He, Hm, Hx.
  destruct x; try (now elim Hnull); try (now elim (Hs s)); reflexivity.
Qed.

(** X10. [edit_file] does not panic when the members [path], [old_str]
    and [new_str] of its arguments, where present, are strings, whatever
    else the arguments hold (and it does not panic on arguments that are not
    an object). *)
Theorem edit_file_returns_on_strings (raw : json.RawMessage) (fs : os.FileSystem) :
  (forall members k x,
     raw = json.Encoded (json.JObject members) -> In (k, x) members ->
     k = "path" \/ k = "old_str" \/ k = "new_str" ->
     exists s, x = json.JString s) ->
  exists r fs', EditFile foldName raw fs = Returns (r, fs').
Proof.
  intros Hstr. unfold EditFile, decodeEditFileInput.
  destruct (json.Unmarshal foldName EditFileInputType raw _) as [v [err|]];
    [|destruct (editFile v fs) as [r fs']; now exists r, fs'].
  destruct (json.UnmarshalMap raw) as [m|e] eqn:Hm; [|eauto].
  assert (forall k x, k = "path" \/ k = "old_str" \/ k = "new_str" ->
                      m !! k = Some x -> exists s, x = json.JString s) as Hk.
  { intros k x Hkey Hx.
    destruct (UnmarshalMap_Ok raw m Hm) as [[-> ->]|[members ->]];
      [now rewrite lookup_empty in Hx|].
    apply (Hstr members k x eq_refl); [|exact Hkey].
    now apply (UnmarshalMap_lookup members m). }
  assert (forall o : option json.Value,
            (forall x, o = Some x -> exists s, x = json.JString s) ->
            forall d, exists s,
              match o with
              | None => Returns d
              | Some json.JNull => Returns d
              | Some y => assertString y
              end = Returns s) as Hfield.
  { intros [y|] Ho d; [|now exists d]. destruct (Ho y eq_refl) as [s ->]. now exists s. }
  assert (exists s, match m !! "path" with
                    | None => Returns "./fizzbuzz.js"
                    | Some path =>
                        if (if path is json.JString "" then true else false)
                        then Returns "./fizzbuzz.js"
                        else assertString path
                    end = Returns s) as [sp ->].
  { destruct (m !! "path") as [x|] eqn:Ep; [|now eexists].
    destruct (Hk "path" x (or_introl eq_refl) Ep) as [s ->].
    destruct s; now eexists. }
  assert (exists s, match m !! "old_str" with
                    | None => Returns ""
                    | Some json.JNull => Returns (OldStr v)
                    | Some oldStr => assertString oldStr
                    end = Returns s) as [so ->].
  { destruct (m !! "old_str") as [x|] eqn:Eo; [|now eexists].
    destruct (Hk "old_str" x (or_intror (or_introl eq_refl)) Eo) as [s ->]. now eexists. }
  destruct (Hfield (m !! "new_str")
              (fun x => Hk "new_str" x (or_intror (or_intror eq_refl))) (NewStr v))
    as [sn ->].
  destruct (editFile {| Path := sp; OldStr := so; NewStr := sn |} fs) as [r fs'].
  now exists r, fs'.
Qed.

End EditFileFurther.

(** ** [ListFiles] on what is not a directory *)

Section ListFilesFurther.

Variable foldName : string -> string.
Variable MarshalText : json.Value -> string.

(** X11. [list_files] of a path that does not lead anywhere (a name is
    missing, or a name on the way is a regular file) fails with the error of
    [lstat] on the path, and changes nothing. *)
Theorem list_files_missing_path (p : option string) (fs : os.FileSystem) (e : Errno) :
  os.resolve fs (listDir p) = inl e ->
  ListFiles foldName MarshalText (listArgs p) fs =
  Returns (Err (PathError "lstat" (listDir p) e), fs).
Proof.
  intros Hres. rewrite ListFiles_listArgs.
  unfold filepath.WalkDir, os.Lstat. rewrite Hres. reflexivity.
Qed.

(** X12. [list_files] of a path that names a regular file succeeds with
    the empty list: the file itself is the root of the walk, which has no
    entry. *)
Theorem list_files_of_a_file (p : option string) (fs : os.FileSystem) (c : list string)
  (data : string) :
  os.resolve fs (listDir p) = inr c ->
  os.nodeAt (os.root fs) c = Some (os.File data) ->
  ListFiles foldName MarshalText (listArgs p) fs =
  Returns (Ok (MarshalText (json.JArray [])), fs).
Proof.
  intros Hres Hnode. rewrite ListFiles_listArgs.
  unfold filepath.WalkDir, os.Lstat. rewrite Hres, Hnode.
  cbn [filepath.walkDir os.IsDir]. rewrite listFilesWalkFn_root.
  reflexivity.
Qed.

End ListFilesFurther.

(** ** What [EditFile] leaves alone *)

(** Setting a place that is not a directory leaves the other files of the
    tree as they are. *)
Lemma nodeAt_setNodeAt_file (c : list string) :
  forall (r : os.Node) (q : list string) (new : os.Node) (d : string),
    kindAt r c <> Some true ->
    os.nodeAt r q = Some (os.File d) -> q <> c ->
    os.nodeAt (os.setNodeAt r c new) q = Some (os.File d).
Proof.
  induction c as [|name c IH]; intros r q new d Hk Hq Hne.
  - destruct r as [data|es]; [|now elim Hk]. rewrite nodeAt_File in Hq.
    destruct q; [now elim Hne | discriminate].
  - destruct r as [data|es]; [exact Hq|].
    destruct q as [|k q]; [discriminate|]. cbn [os.nodeAt] in Hq.
    destruct (os.entry k es) as [ch|] eqn:Ek; [|discriminate].
    cbn [os.setNodeAt]. destruct c as [|n2 c].
    + cbn [os.nodeAt]. destruct (String.eqb_spec name k) as [->|Hnk].
      * exfalso. unfold kindAt in Hk. cbn [os.nodeAt] in Hk. rewrite Ek in Hk. cbn in Hk.
        destruct ch as [data|es']; [|now elim Hk]. rewrite nodeAt_File in Hq.
        destruct q; [now elim Hne | discriminate].
      * rewrite entry_setEntry_ne by exact Hnk. now rewrite Ek.
    + destruct (os.entry name es) as [ch0|] eqn:En; [|cbn [os.nodeAt]; now rewrite Ek].
      cbn [os.nodeAt]. destruct (String.eqb_spec name k) as [->|Hnk].
      * rewrite entry_setEntry_eq. rewrite Ek in En. injection En as <-.
        apply IH; [|exact Hq|congruence].
        unfold kindAt in *. cbn [os.nodeAt] in Hk. now rewrite Ek in Hk.
      * rewrite entry_setEntry_ne by exact Hnk. now rewrite Ek.
Qed.

(** [r'] holds every file of [r], with its content, but maybe the one at
    [c]. *)
Lemma grows_setNodeAt (r : os.Node) (c : list string) (data : string) :
  kindAt r c <> Some true ->
  grows r (os.setNodeAt r c (os.File data)).
Proof.
  intros Hk. destruct (kindAt r c) as [[|]|] eqn:E; [now elim Hk| |].
  - unfold kindAt in E. destruct (os.nodeAt r c) as [[old|es]|] eqn:En; try discriminate.
    intros q _. now apply (sameShape_setFile r c old data).
  - now apply grows_setNodeAt_new.
Qed.

(** [mkdirAll] only adds directories: what was there stays, the files with
    their contents. *)
Lemma mkdirAll_keeps (es : list string) :
  forall (r : os.Node) (at_ : list string) (done : string) (err : option error) (r' : os.Node),
    os.mkdirAll r at_ done es = (err, r') ->
    grows r r' /\
    forall q d, os.nodeAt r q = Some (os.File d) -> os.nodeAt r' q = Some (os.File d).
Proof.
  induction es as [|e es IH]; intros r at_ done err r'; cbn [os.mkdirAll].
  - intros [= _ <-]. split; [apply grows_refl | auto].
  - destruct (os.nodeAt r at_) as [[data|ents]|]; try (intros [= _ <-]; split; [apply grows_refl | auto]).
    destruct (String.eqb e "" || String.eqb e "."); [apply IH|].
    destruct (String.eqb e ".."); [apply IH|].
    destruct (os.nodeAt r (at_ ++ [e])) as [[data|ents']|] eqn:En;
      [intros [= _ <-]; split; [apply grows_refl | auto] | apply IH |].
    intros H. apply IH in H as [Hg Hf].
    assert (kindAt r (at_ ++ [e]) = None) as Hk by (unfold kindAt; now rewrite En).
    split.
    + eapply grows_trans; [|exact Hg]. now apply grows_setNodeAt_new.
    + intros q d Hq. apply Hf. apply nodeAt_setNodeAt_file; [congruence|exact Hq|].
      intros ->. congruence.
Qed.

Lemma MkdirAll_keeps (name : string) (fs fs' : os.FileSystem) (err : option error) :
  os.MkdirAll name fs = (err, fs') ->
  os.cwd fs' = os.cwd fs /\ grows (os.root fs) (os.root fs') /\
  forall q d, os.nodeAt (os.root fs) q = Some (os.File d) ->
              os.nodeAt (os.root fs') q = Some (os.File d).
Proof.
  unfold os.MkdirAll. destruct (String.eqb name "").
  - intros [= _ <-]. split; [reflexivity|]. split; [apply grows_refl | auto].
  - destruct (os.mkdirAll _ _ _ _) as [e r] eqn:E. intros [= _ <-].
    split; [reflexivity|]. now apply mkdirAll_keeps in E.
Qed.

(** What a call of [WriteFile] that succeeds has done: the place [c] the
    name leads to, in a directory that was there, holds the data. *)
Lemma WriteFile_done (name data : string) (fs fs' : os.FileSystem) :
  os.WriteFile name data fs = (None, fs') ->
  exists c,
    os.cwd fs' = os.cwd fs /\
    os.root fs' = os.setNodeAt (os.root fs) c (os.File data) /\
    kindAt (os.root fs) c <> Some true /\
    kindAt (os.root fs) (removelast c) = Some true /\
    c <> [] /\
    (kindAt (os.root fs) c = Some false -> os.resolve fs name = inr c) /\
    os.resolve fs' name = inr c.
Proof.
  unfold os.WriteFile. destruct (String.eqb_spec name "") as [->|Hne]; [discriminate|].
  set (es := path.elements name). set (final := List.last es "").
  destruct (os.walk (os.root fs) (os.start fs name) (removelast es)) as [e|dir] eqn:Hw;
    [discriminate|].
  destruct (os.nodeAt (os.root fs) dir) as [[d|ents]|] eqn:Hd; try discriminate.
  destruct (String.eqb final "" || String.eqb final "." || String.eqb final "..") eqn:Hf;
    [discriminate|].
  assert (kindAt (os.root fs) dir = Some true) as Hkd by (unfold kindAt; now rewrite Hd).
  assert (kindAt (os.root fs) (dir ++ [final]) <> Some true ->
          (@None error,
           {| os.root := os.setNodeAt (os.root fs) (dir ++ [final]) (os.File data);
              os.cwd := os.cwd fs |}) = (None, fs') ->
          exists c,
            os.cwd fs' = os.cwd fs /\
            os.root fs' = os.setNodeAt (os.root fs) c (os.File data) /\
            kindAt (os.root fs) c <> Some true /\
            kindAt (os.root fs) (removelast c) = Some true /\
            c <> [] /\
            (kindAt (os.root fs) c = Some false -> os.resolve fs name = inr c) /\
            os.resolve fs' name = inr c) as Hgo.
  { intros Hk [= <-]. exists (dir ++ [final]). cbn [os.cwd os.root].
    rewrite removelast_last.
    split; [reflexivity|]. split; [reflexivity|]. split; [exact Hk|]. split; [exact Hkd|].
    split; [now destruct dir|].
    assert (es = removelast es ++ [final]) as Hes
      by (apply app_removelast_last, elements_nonempty).
    assert (forall r, kindAt r dir = Some true -> kindAt r (dir ++ [final]) <> None ->
                      os.walk r (os.start fs name) (removelast es) = inr dir ->
                      os.walk r (os.start fs name) es = inr (dir ++ [final])) as Hwalk.
    { intros r Hrd Hrf Hrw. rewrite Hes, walk_app, Hrw. cbn [os.walk].
      pose proof Hf as [Hf1 Hf2]%orb_false_iff.
      rewrite walkStep_kinds, Hrd, Hf1, Hf2.
      destruct (kindAt r (dir ++ [final])); [reflexivity | now elim Hrf]. }
    split.
    - intros Hfile. unfold os.resolve. rewrite (proj2 (String.eqb_neq name "")) by exact Hne.
      apply Hwalk; [exact Hkd | congruence | exact Hw].
    - unfold os.resolve. rewrite (proj2 (String.eqb_neq name "")) by exact Hne.
      cbn [os.root]. change (os.start _ name) with (os.start fs name).
      pose proof (grows_setNodeAt (os.root fs) (dir ++ [final]) data Hk) as Hg.
      apply Hwalk.
      + rewrite Hg; congruence.
      + rewrite kindAt_setNodeAt by (now rewrite removelast_last). discriminate.
      + now apply (walk_grows (os.root fs)). }
  destruct (os.nodeAt (os.root fs) (dir ++ [final])) as [[d|ents']|] eqn:Hn;
    [|discriminate|]; apply Hgo; unfold kindAt; rewrite Hn; discriminate.
Qed.

(** Reading gives back what [WriteFile] wrote. *)
Lemma WriteFile_ReadFile (name data : string) (fs fs' : os.FileSystem) :
  os.WriteFile name data fs = (None, fs') -> os.ReadFile name fs' = Ok data.
Proof.
  intros H. apply WriteFile_done in H as (c & _ & Hr & _ & Hd & Hc & _ & Hres).
  unfold os.ReadFile. rewrite Hres, Hr.
  rewrite <- (app_nil_r c) at 2. rewrite nodeAt_setNodeAt; [reflexivity|].
  right. now apply kindAt_Some_Dir.
Qed.

Lemma WriteFile_error (name data : string) (fs fs' : os.FileSystem) (e : error) :
  os.WriteFile name data fs = (Some e, fs') -> fs' = fs.
Proof.
  unfold os.WriteFile. destruct (String.eqb name ""); [now intros [= _ <-]|].
  destruct (os.walk _ _ _) as [e'|dir]; [now intros [= _ <-]|].
  destruct (os.nodeAt (os.root fs) dir) as [[d|ents]|]; try (now intros [= _ <-]).
  destruct (_ || _); [now intros [= _ <-]|].
  destruct (os.nodeAt (os.root fs) (dir ++ _)) as [[d|ents']|];
    (discriminate || now intros [= _ <-]).
Qed.

(** In a tree that has grown, with the same working directory, a path
    leads where it led. *)
Lemma resolve_grows (fs fs' : os.FileSystem) (q : string) (c : list string) :
  os.cwd fs' = os.cwd fs -> grows (os.root fs) (os.root fs') ->
  os.resolve fs q = inr c -> os.resolve fs' q = inr c.
Proof.
  intros Hcwd Hg. unfold os.resolve, os.start. rewrite Hcwd.
  destruct (String.eqb q ""); [discriminate|]. now apply walk_grows.
Qed.

Lemma Lstat_grows (fs fs' : os.FileSystem) (q : string) (d : os.DirEntry) :
  os.cwd fs' = os.cwd fs -> grows (os.root fs) (os.root fs') ->
  os.Lstat q fs = Ok d -> os.Lstat q fs' = Ok d.
Proof.
  intros Hcwd Hg. unfold os.Lstat.
  destruct (os.resolve fs q) as [e|c] eqn:Hres; [discriminate|].
  rewrite (resolve_grows fs fs' q c Hcwd Hg Hres).
  destruct (os.nodeAt (os.root fs) c) as [n|] eqn:Hn; [|discriminate]. intros [= <-].
  assert (kindAt (os.root fs') c = Some (os.IsDir n)) as Hk.
  { rewrite Hg; unfold kindAt; now rewrite Hn. }
  unfold kindAt in Hk. destruct (os.nodeAt (os.root fs') c) as [n'|]; [|discriminate].
  cbn in Hk. injection Hk as ->. reflexivity.
Qed.

(** How [editFile] ends.  It may first have made directories ([fs1]);
    then either it reports success, having written the file with
    [WriteFile], or it fails and leaves [fs1]. *)
Lemma editFile_steps (v : EditFileInput) (fs : os.FileSystem) (r : result string)
  (fs' : os.FileSystem) :
  editFile v fs = (r, fs') ->
  exists fs1,
    (os.cwd fs1 = os.cwd fs /\ grows (os.root fs) (os.root fs1) /\
     forall q d, os.nodeAt (os.root fs) q = Some (os.File d) ->
                 os.nodeAt (os.root fs1) q = Some (os.File d)) /\
    ((fs' = fs1 /\ exists e, r = Err e) \/
     (exists msg,
        r = Ok msg /\
        os.WriteFile (editedPath (Path v))
          match os.ReadFile (editedPath (Path v)) fs with
          | Ok C => strings.Replace C (OldStr v) (NewStr v) (-1)
          | Err _ => NewStr v
          end fs1 = (None, fs'))).
Proof.
  assert (os.cwd fs = os.cwd fs /\ grows (os.root fs) (os.root fs) /\
          forall q d, os.nodeAt (os.root fs) q = Some (os.File d) ->
                      os.nodeAt (os.root fs) q = Some (os.File d)) as Hrefl
    by (split; [reflexivity|]; split; [apply grows_refl | auto]).
  unfold editFile. fold (editedPath (Path v)).
  destruct (String.eqb (OldStr v) (NewStr v) && negb (String.eqb (OldStr v) "")).
  { intros [= <- <-]. exists fs. split; [exact Hrefl|]. left. split; [reflexivity | eauto]. }
  destruct (os.ReadFile (editedPath (Path v)) fs) as [C|err].
  - destruct (String.eqb C _ && _).
    { intros [= <- <-]. exists fs. split; [exact Hrefl|]. left. split; [reflexivity | eauto]. }
    destruct (os.WriteFile _ _ fs) as [[e|] fs2] eqn:Hw.
    + intros [= <- <-]. apply WriteFile_error in Hw as ->.
      exists fs. split; [exact Hrefl|]. left. split; [reflexivity | eauto].
    + intros [= <- <-]. exists fs. split; [exact Hrefl|]. right. eauto.
  - destruct (os.IsNotExist err);
      [|intros [= <- <-]; exists fs; split; [exact Hrefl|]; left; split; [reflexivity | eauto]].
    destruct (negb (String.eqb (OldStr v) ""));
      [intros [= <- <-]; exists fs; split; [exact Hrefl|]; left; split; [reflexivity | eauto]|].
    unfold createNewFile.
    destruct (if negb (String.eqb (path.Dir (editedPath (Path v))) ".")
              then os.MkdirAll (path.Dir (editedPath (Path v))) fs else (None, fs))
      as [[e|] fs1] eqn:Hm.
    + intros [= <- <-]. exists fs1. split; [|left; split; [reflexivity | eauto]].
      destruct (negb _); [now apply MkdirAll_keeps in Hm | discriminate].
    + assert (os.cwd fs1 = os.cwd fs /\ grows (os.root fs) (os.root fs1) /\
              forall q d, os.nodeAt (os.root fs) q = Some (os.File d) ->
                          os.nodeAt (os.root fs1) q = Some (os.File d)) as Hk.
      { destruct (negb _); [now apply MkdirAll_keeps in Hm | now injection Hm as <-]. }
      destruct (os.WriteFile _ _ fs1) as [[e|] fs2] eqn:Hw.
      * intros [= <- <-]. apply WriteFile_error in Hw as ->.
        exists fs1. split; [exact Hk|]. left. split; [reflexivity | eauto].
      * intros [= <- <-]. exists fs1. split; [exact Hk|]. right. eauto.
Qed.

Section EditFileFrame.

Variable foldName : string -> string.

Lemma EditFile_decoded (raw : json.RawMessage) (v : EditFileInput) (fs : os.FileSystem) :
  decodeEditFileInput foldName raw = Returns (Ok v) ->
  EditFile foldName raw fs = Returns (editFile v fs).
Proof. intros H. unfold EditFile. now rewrite H. Qed.

(** X13. Whatever [edit_file] does, with success or not, it removes
    nothing and changes no other file: what [lstat] found before it finds
    after, and every file that was there keeps its content, but maybe the
    one file the path of the call leads to afterwards. *)
Theorem edit_file_keeps_other_files (raw : json.RawMessage) (v : EditFileInput)
  (fs fs' : os.FileSystem) (r : result string) :
  decodeEditFileInput foldName raw = Returns (Ok v) ->
  EditFile foldName raw fs = Returns (r, fs') ->
  os.cwd fs' = os.cwd fs /\
  (forall q d, os.Lstat q fs = Ok d -> os.Lstat q fs' = Ok d) /\
  (forall q C,
     os.ReadFile q fs = Ok C ->
     os.resolve fs' q <> os.resolve fs' (editedPath (Path v)) ->
     os.ReadFile q fs' = Ok C).
Proof.
  intros Hdec. rewrite (EditFile_decoded raw v fs Hdec). intros [= H].
  apply editFile_steps in H as (fs1 & (Hcwd1 & Hg1 & Hf1) & Hend).
  assert (os.cwd fs' = os.cwd fs /\ grows (os.root fs) (os.root fs') /\
          forall q C, os.ReadFile q fs = Ok C ->
                      os.resolve fs' q <> os.resolve fs' (editedPath (Path v)) ->
                      os.ReadFile q fs' = Ok C) as (Hcwd & Hg & Hfiles).
  { destruct Hend as [[-> _]|(msg & _ & Hw)].
    - split; [exact Hcwd1|]. split; [exact Hg1|]. intros q C Hq _.
      apply ReadFile_Ok in Hq as (c & Hres & Hn). apply ReadFile_Ok. exists c.
      split; [now apply (resolve_grows fs) | now apply Hf1].
    - apply WriteFile_done in Hw as (c & Hcwd2 & Hr2 & Hk & _ & _ & _ & Hres2).
      assert (grows (os.root fs1) (os.root fs')) as Hg2
        by (rewrite Hr2; now apply grows_setNodeAt).
      split; [congruence|]. split; [now apply (grows_trans _ (os.root fs1))|].
      intros q C Hq Hne. apply ReadFile_Ok in Hq as (cq & Hres & Hn).
      assert (os.resolve fs' q = inr cq) as Hq'.
      { apply (resolve_grows fs1); [exact Hcwd2 | exact Hg2 |].
        now apply (resolve_grows fs). }
      apply ReadFile_Ok. exists cq. split; [exact Hq'|]. rewrite Hr2.
      apply nodeAt_setNodeAt_file; [exact Hk | now apply Hf1 |].
      intros ->. apply Hne. now rewrite Hq', Hres2. }
  split; [exact Hcwd|]. split; [|exact Hfiles].
  intros q d. now apply Lstat_grows.
Qed.

(** X14. After [edit_file] has reported success, [read_file] of the same
    path returns what [edit_file] was to write: the new string for a file
    that was not there, else the old content with every old_str replaced
    by new_str. *)
Theorem read_file_after_edit_file (raw : json.RawMessage) (v : EditFileInput)
  (fs fs' : os.FileSystem) (msg : string) :
  decodeEditFileInput foldName raw = Returns (Ok v) ->
  EditFile foldName raw fs = Returns (Ok msg, fs') ->
  ReadFile foldName (readArgs (editedPath (Path v))) fs' =
  Returns (Ok match os.ReadFile (editedPath (Path v)) fs with
              | Ok C => strings.Replace C (OldStr v) (NewStr v) (-1)
              | Err _ => NewStr v
              end, fs').
Proof.
  intros Hdec. rewrite (EditFile_decoded raw v fs Hdec). intros [= H].
  apply editFile_steps in H as (fs1 & _ & [[_ [e He]]|(msg' & _ & Hw)]); [discriminate|].
  apply WriteFile_ReadFile in Hw. unfold ReadFile.
  assert (json.Unmarshal foldName ReadFileInputType (readArgs (editedPath (Path v)))
            {| ReadFileInput_Path := "" |}
          = ({| ReadFileInput_Path := editedPath (Path v) |}, None)) as -> by reflexivity.
  cbn [ReadFileInput_Path]. now rewrite Hw.
Qed.

End EditFileFrame.

(** ** A file made by [EditFile] in the listing of [ListFiles] *)

Lemma setEntry_new (name : string) (n : os.Node) (es : list (string * os.Node)) :
  os.entry name es = None -> os.setEntry name n es = es ++ [(name, n)].
Proof.
  induction es as [|[k x] es IH]; simpl; [reflexivity|].
  destruct (String.eqb k name); [discriminate|]. intros H. now rewrite IH.
Qed.

Lemma entry_None_names (name : string) (es : list (string * os.Node)) :
  os.entry name es = None -> ~ In name (map fst es).
Proof.
  induction es as [|[k x] es IH]; simpl; [tauto|].
  destruct (String.eqb_spec k name) as [->|Hne]; [discriminate|].
  intros H [E|Hin]; [congruence | now apply IH].
Qed.

Lemma nodeAt_setNodeAt_parent (c : list string) :
  forall (r : os.Node) (name : string) (new : os.Node) (es : list (string * os.Node)),
    os.nodeAt r c = Some (os.Dir es) ->
    os.nodeAt (os.setNodeAt r (c ++ [name]) new) c = Some (os.Dir (os.setEntry name new es)).
Proof.
  induction c as [|k c IH]; intros r name new es; cbn [os.nodeAt app].
  - now intros [= ->].
  - destruct r as [data|es0]; [discriminate|].
    destruct (os.entry k es0) as [ch|] eqn:Ek; [|discriminate]. intros Hch.
    cbn [os.setNodeAt]. rewrite Ek. destruct (c ++ [name]) as [|x rest] eqn:E;
      [now destruct c|]. rewrite <- E. cbn [os.nodeAt]. rewrite entry_setEntry_eq.
    now apply IH.
Qed.

Lemma wfNode_Dir_intro (es : list (string * os.Node)) :
  forallb plainName (map fst es) = true -> NoDup (map fst es) ->
  (forall name c, In (name, c) es -> wfNode c = true) ->
  wfNode (os.Dir es) = true.
Proof.
  intros Hp Hn Hw. simpl. rewrite Hp, bool_decide_eq_true_2 by exact Hn. simpl.
  clear Hp Hn. induction es as [|[k x] es IH]; [reflexivity|].
  rewrite (Hw k x) by now left. simpl. apply IH. intros name c Hin. apply (Hw name c).
  now right.
Qed.

Lemma wfNode_add_file (es : list (string * os.Node)) (n X : string) :
  wfNode (os.Dir es) = true -> plainName n = true -> os.entry n es = None ->
  wfNode (os.Dir (es ++ [(n, os.File X)])) = true.
Proof.
  intros (Hp & Hn & Hw)%wfNode_Dir Hplain Hnone. apply wfNode_Dir_intro.
  - rewrite map_app, forallb_app, Hp. cbn [map forallb fst]. now rewrite Hplain.
  - rewrite map_app. apply NoDup_app. split; [exact Hn|]. split.
    + intros x Hx Hx2. apply list_elem_of_In in Hx, Hx2.
      destruct Hx2 as [E|[]]. cbn [fst] in E. subst x.
      now apply entry_None_names in Hnone.
    + apply NoDup_singleton.
  - intros name c [Hin|[[= <- <-]|[]]]%in_app_iff; [now apply (Hw name c) | reflexivity].
Qed.

Lemma entry_app_new (es : list (string * os.Node)) (n k : string) (x : os.Node) :
  os.entry k (es ++ [(n, x)]) =
  match os.entry k es with
  | Some c => Some c
  | None => if String.eqb n k then Some x else None
  end.
Proof.
  induction es as [|[k' x'] es IH]; simpl; [reflexivity|].
  now destruct (String.eqb k' k).
Qed.

Section CreateAndList.

Variable foldName : string -> string.
Variable MarshalText : json.Value -> string.

(** [createNewFile] for a new plain name in the working directory. *)
Lemma editFile_creates_here (n X : string) (fs : os.FileSystem)
  (es : list (string * os.Node)) :
  plainName n = true ->
  os.nodeAt (os.root fs) (os.cwd fs) = Some (os.Dir es) ->
  os.entry n es = None ->
  editFile {| Path := n; OldStr := ""; NewStr := X |} fs =
  (Ok ("Successfully created file " +:+ n),
   {| os.root := os.setNodeAt (os.root fs) (os.cwd fs ++ [n]) (os.File X);
      os.cwd := os.cwd fs |}).
Proof.
  intros Hplain Hcwd Hnone.
  pose proof (plainName_spec n Hplain) as (Hne & Hdot & Hdots & Hslash).
  assert (path.elements n = [n]) as Hel by now apply elements_noSlash.
  assert (os.start fs n = os.cwd fs) as Hstart
    by (apply (start_plainPath false [n] fs); simpl; now rewrite Hplain).
  assert (os.nodeAt (os.root fs) (os.cwd fs ++ [n]) = None) as Hmiss
    by (rewrite nodeAt_app, Hcwd; simpl; now rewrite Hnone).
  assert (kindAt (os.root fs) (os.cwd fs) = Some true) as Hk
    by (unfold kindAt; now rewrite Hcwd).
  assert (os.ReadFile n fs = Err (PathError "open" n ENOENT)) as Hread.
  { unfold os.ReadFile, os.resolve. rewrite (proj2 (String.eqb_neq n "")) by exact Hne.
    rewrite Hel, Hstart. cbn [os.walk]. rewrite walkStep_plain by assumption.
    unfold kindAt. now rewrite Hmiss. }
  unfold editFile. cbn [Path OldStr NewStr].
  rewrite (proj2 (String.eqb_neq n "")) by exact Hne.
  assert (String.eqb "" X && negb (String.eqb "" "") = false) as -> by apply andb_false_r.
  rewrite Hread. cbn [os.IsNotExist negb]. change (String.eqb "" "") with true. cbn [negb].
  unfold createNewFile.
  assert (path.Dir n = ".") as -> by (apply (Dir_plainPath_one false n Hplain)).
  change (String.eqb "." ".") with true. cbn [negb].
  unfold os.WriteFile. rewrite (proj2 (String.eqb_neq n "")) by exact Hne.
  rewrite Hel. cbn [removelast List.last os.walk]. rewrite Hstart, Hcwd.
  rewrite (proj2 (String.eqb_neq n "")), (proj2 (String.eqb_neq n ".")),
    (proj2 (String.eqb_neq n "..")) by assumption.
  cbn [orb]. now rewrite Hmiss.
Qed.

(** X15. A file that [edit_file] makes under a new plain name in the
    working directory is in the list [list_files] then gives for the
    working directory, with everything that was listed before. *)
Theorem created_file_is_listed (n X : string) (fs : os.FileSystem)
  (es : list (string * os.Node)) :
  plainName n = true ->
  os.nodeAt (os.root fs) (os.cwd fs) = Some (os.Dir es) ->
  wfNode (os.Dir es) = true ->
  os.entry n es = None ->
  exists fs' files,
    EditFile foldName (editArgs n "" X) fs =
      Returns (Ok ("Successfully created file " +:+ n), fs') /\
    ListFiles foldName MarshalText (listArgs None) fs' =
      Returns (Ok (MarshalText (json.JArray (map json.JString files))), fs') /\
    In n files /\
    forall item, In item (listing (os.Dir es)) -> In item files.
Proof.
  intros Hplain Hcwd Hwf Hnone.
  set (fs' := {| os.root := os.setNodeAt (os.root fs) (os.cwd fs ++ [n]) (os.File X);
                 os.cwd := os.cwd fs |}).
  set (es' := es ++ [(n, os.File X)]).
  assert (os.nodeAt (os.root fs') (os.cwd fs') = Some (os.Dir es')) as Hcwd'.
  { unfold fs', es'. cbn [os.root os.cwd].
    rewrite (nodeAt_setNodeAt_parent _ _ n (os.File X) es Hcwd). now rewrite setEntry_new. }
  assert (wfNode (os.Dir es') = true) as Hwf' by now apply wfNode_add_file.
  assert (os.resolve fs' "." = inr (os.cwd fs')) as Hres.
  { assert (os.walkStep (os.root fs') (os.cwd fs') "." = inr (os.cwd fs')) as Hstep
      by (unfold os.walkStep; now rewrite Hcwd').
    change (os.resolve fs' ".")
      with (match os.walkStep (os.root fs') (os.cwd fs') "." with
            | inl e => inl e
            | inr at' => os.walk (os.root fs') at' []
            end).
    now rewrite Hstep. }
  exists fs', (listing (os.Dir es')). split; [|split; [|split]].
  - rewrite EditFile_editArgs. now rewrite (editFile_creates_here n X fs es).
  - rewrite ListFiles_listArgs. cbn [listDir].
    now rewrite (WalkDir_listing fs' "." (os.cwd fs') Hres es' Hcwd' Hwf').
  - unfold listing. apply in_map_iff. exists ([n], false). split.
    + unfold itemText. cbn [fst snd path.join String.concat]. apply append_nil_r.
    + apply In_treeItems; [exact Hwf'|]. split; [discriminate|].
      exists (os.File X). split; [|reflexivity]. unfold es'. cbn [os.nodeAt].
      rewrite entry_app_new, Hnone. now rewrite String.eqb_refl.
  - intros item Hin. unfold listing in *. apply in_map_iff in Hin as ([names b] & <- & Hin).
    apply in_map_iff. exists (names, b). split; [reflexivity|].
    apply (In_treeItems names (os.Dir es) b Hwf) in Hin as (Hne & nd & Hnd & Hb).
    apply In_treeItems; [exact Hwf'|]. split; [exact Hne|]. exists nd. split; [|exact Hb].
    destruct names as [|k rest]; [now elim Hne|]. cbn [os.nodeAt] in *. unfold es'.
    rewrite entry_app_new. now destruct (os.entry k es).
Qed.

End CreateAndList.

(** ** [GenerateSchema] *)

Lemma Newest_snoc {K V : Type} (om : list (K * V)) (k : K) (v : V) :
  orderedmap.Newest (om ++ [(k, v)]) =
  Some {| orderedmap.older := rev om; orderedmap.Key := k; orderedmap.Value := v;
          orderedmap.newer := [] |}.
Proof. unfold orderedmap.Newest. now rewrite rev_unit. Qed.

(** X16. Of the properties of the reflected schema, [GenerateSchema]
    declares the newest one only (the last field of the struct): its loop
    starts at [Newest()] and steps with [Next()], which is nil there.  The
    other properties are left out, and of the required names only that of
    the newest property is kept.  A schema without properties gives an
    object without properties and without required names. *)
Theorem GenerateSchema_newest_only (t d : string)
  (om : orderedmap.OrderedMap string jsonschema.Schema) (k : string)
  (js : jsonschema.Schema) (req : list string) :
  GenerateSchema (jsonschema.mkSchema t d (om ++ [(k, js)]) req) =
    genai.mkSchema genai.TypeObject ""
      {[ k := genai.mkSchema (schemaTypeOf (jsonschema.Type_ js))
                (jsonschema.Description js) ∅ [] ]}
      (List.filter (fun name => String.eqb name k) req) /\
  GenerateSchema (jsonschema.mkSchema t d [] req) =
    genai.mkSchema genai.TypeObject "" ∅ [].
Proof.
  split.
  - unfold GenerateSchema. cbn [jsonschema.Properties jsonschema.Required].
    rewrite Newest_snoc. cbn [schemaProperties orderedmap.Next orderedmap.newer
                                orderedmap.Key orderedmap.Value].
    assert (forall n (m : gmap string genai.Schema), schemaProperties n None m = m) as ->
      by (now intros [|n] m).
    rewrite insert_empty. f_equal.
    induction req as [|name req IH]; [reflexivity|]. cbn [List.filter]. rewrite IH.
    destruct (String.eqb_spec name k) as [->|Hne].
    + now rewrite lookup_singleton_eq, bool_decide_eq_true_2 by eauto.
    + rewrite lookup_singleton_ne by congruence.
      now rewrite bool_decide_eq_false_2 by (intros [x Hx]; discriminate).
  - unfold GenerateSchema. cbn [jsonschema.Properties jsonschema.Required length
                                  schemaProperties orderedmap.Newest rev].
    f_equal. induction req as [|name req IH]; [reflexivity|]. cbn [List.filter].
    rewrite lookup_empty. now rewrite bool_decide_eq_false_2 by (intros [x Hx]; discriminate).
Qed.

(** ** A failure of [EditFile] that changes the file system *)

Section TrailingSlash.

Variable foldName : string -> string.

(** X17. [edit_file] on a new plain name followed by a slash fails, but
    not without a trace: [createNewFile] first makes the directory of that
    name and only then fails to write the file, so the call returns the
    error "failed to create file" and leaves a new, empty directory. *)
Theorem edit_file_trailing_slash (n X : string) (fs : os.FileSystem)
  (es : list (string * os.Node)) :
  plainName n = true ->
  os.nodeAt (os.root fs) (os.cwd fs) = Some (os.Dir es) ->
  os.entry n es = None ->
  exists fs',
    EditFile foldName (editArgs (n +:+ "/") "" X) fs =
      Returns (Err (wrapError "failed to create file"
                      (PathError "open" (n +:+ "/") EISDIR)), fs') /\
    os.Lstat n fs = Err (PathError "lstat" n ENOENT) /\
    os.Lstat n fs' = Ok {| os.Name := n; os.entryIsDir := true |} /\
    os.ReadDir n fs' = Ok [].
Proof.
  intros Hplain Hcwd Hnone.
  pose proof (plainName_spec n Hplain) as (Hne & Hdot & Hdots & Hslash).
  set (p := n +:+ "/").
  assert (p <> "") as Hp by (unfold p; destruct n; [congruence | discriminate]).
  assert (path.elements n = [n]) as Hel by now apply elements_noSlash.
  assert (path.elements p = [n; ""]) as Help
    by (unfold p; now rewrite elements_snoc_slash, Hel).
  assert (os.start fs n = os.cwd fs) as Hstart
    by (apply (start_plainPath false [n] fs); simpl; now rewrite Hplain).
  assert (forall fs0, os.cwd fs0 = os.cwd fs -> os.start fs0 p = os.cwd fs) as Hstartp.
  { intros fs0 E. unfold os.start, p. rewrite IsAbs_append by exact Hne.
    rewrite E. unfold os.start in Hstart. exact Hstart. }
  assert (os.nodeAt (os.root fs) (os.cwd fs ++ [n]) = None) as Hmiss
    by (rewrite nodeAt_app, Hcwd; simpl; now rewrite Hnone).
  assert (kindAt (os.root fs) (os.cwd fs) = Some true) as Hk
    by (unfold kindAt; now rewrite Hcwd).
  assert (os.walkStep (os.root fs) (os.cwd fs) n = inl ENOENT) as Hstep.
  { rewrite walkStep_plain by assumption. unfold kindAt. now rewrite Hmiss. }
  set (r1 := os.setNodeAt (os.root fs) (os.cwd fs ++ [n]) (os.Dir [])).
  set (fs1 := {| os.root := r1; os.cwd := os.cwd fs |}).
  assert (os.nodeAt r1 (os.cwd fs ++ [n]) = Some (os.Dir [])) as Hnew.
  { unfold r1. rewrite <- (app_nil_r (os.cwd fs ++ [n])) at 2.
    rewrite nodeAt_setNodeAt; [reflexivity|]. right. rewrite removelast_last. now exists es. }
  assert (kindAt r1 (os.cwd fs) = Some true) as Hk1.
  { unfold kindAt, r1. now rewrite (nodeAt_setNodeAt_parent _ _ n (os.Dir []) es Hcwd). }
  assert (os.walkStep r1 (os.cwd fs) n = inr (os.cwd fs ++ [n])) as Hstep1.
  { rewrite walkStep_plain by assumption. unfold kindAt. now rewrite Hnew. }
  exists fs1. split; [|split; [|split]].
  - rewrite EditFile_editArgs. unfold editFile. cbn [Path OldStr NewStr]. fold p.
    rewrite (proj2 (String.eqb_neq p "")) by exact Hp.
    assert (String.eqb "" X && negb (String.eqb "" "") = false) as -> by apply andb_false_r.
    assert (os.ReadFile p fs = Err (PathError "open" p ENOENT)) as ->.
    { unfold os.ReadFile, os.resolve. rewrite (proj2 (String.eqb_neq p "")) by exact Hp.
      rewrite Help, (Hstartp fs eq_refl). cbn [os.walk]. now rewrite Hstep. }
    cbn [os.IsNotExist]. change (String.eqb "" "") with true. cbn [negb].
    unfold createNewFile.
    assert (path.Dir p = n) as ->.
    { unfold path.Dir, p. rewrite <- (append_nil_r (n +:+ "/")) at 1.
      rewrite append_assoc, splitDir_append_slash by reflexivity.
      apply (Clean_join_slash [n]); [discriminate|]. simpl. now rewrite Hplain. }
    rewrite (proj2 (String.eqb_neq n ".")) by exact Hdot. cbn [negb].
    assert (os.MkdirAll n fs = (None, fs1)) as ->.
    { unfold os.MkdirAll. rewrite (proj2 (String.eqb_neq n "")) by exact Hne.
      rewrite Hel, Hstart. cbn [os.mkdirAll]. rewrite Hcwd.
      rewrite (proj2 (String.eqb_neq n "")), (proj2 (String.eqb_neq n ".")),
        (proj2 (String.eqb_neq n "..")) by assumption.
      cbn [orb]. now rewrite Hmiss. }
    unfold os.WriteFile. rewrite (proj2 (String.eqb_neq p "")) by exact Hp.
    rewrite Help. cbn [removelast List.last]. rewrite (Hstartp fs1 eq_refl).
    cbn [os.root fs1 os.walk]. rewrite Hstep1, Hnew. reflexivity.
  - unfold os.Lstat, os.resolve. rewrite (proj2 (String.eqb_neq n "")) by exact Hne.
    rewrite Hel, Hstart. cbn [os.walk]. now rewrite Hstep.
  - unfold os.Lstat, os.resolve. rewrite (proj2 (String.eqb_neq n "")) by exact Hne.
    rewrite Hel. change (os.start fs1 n) with (os.start fs n). rewrite Hstart.
    cbn [os.root fs1 os.walk]. rewrite Hstep1, Hnew. unfold os.baseName. now rewrite Hel.
  - unfold os.ReadDir, os.resolve. rewrite (proj2 (String.eqb_neq n "")) by exact Hne.
    rewrite Hel. change (os.start fs1 n) with (os.start fs n). rewrite Hstart.
    cbn [os.root fs1 os.walk]. rewrite Hstep1, Hnew. reflexivity.
Qed.

End TrailingSlash.

(** * Part V. The further properties on examples *)

(** X1 on examples: the model answers with a text; and the model answers
    without a candidate. *)
Lemma text_turn_goes_on_example :
  loop scriptedSend sampleAgent ["hi"] (worldOf [answer [genai.Text "hello"]]) =
  loop scriptedSend sampleAgent []
    {| session := [];
       files := sampleFS;
       trace := [EvPrompt; EvUserMessage (Some "hi"); EvSendMessage [genai.Text "hi"];
                 EvGemini "hello"] |} /\
  loop scriptedSend sampleAgent ["hi"] (worldOf [noCandidates]) =
  Crash "runtime error: index out of range [0] with length 0"
    {| session := [];
       files := sampleFS;
       trace := [EvPrompt; EvUserMessage (Some "hi"); EvSendMessage [genai.Text "hi"]] |}.
Proof.
  split.
  - etransitivity.
    + apply (text_turn_goes_on Script scriptedSend sampleAgent "hi" []
               (worldOf [answer [genai.Text "hello"]]) []
               {| genai.Candidates :=
                    [Some {| genai.Content_ :=
                               Some {| genai.Parts := [genai.Text "hello"] |} |}] |}).
      * reflexivity.
      * intros parts1 [= <-]. reflexivity.
    + reflexivity.
  - etransitivity.
    + apply (text_turn_goes_on Script scriptedSend sampleAgent "hi" []
               (worldOf [noCandidates]) [] {| genai.Candidates := [] |}).
      * reflexivity.
      * intros parts1 H. discriminate H.
    + reflexivity.
Defined.

(** X2 on an example: the gateway has no answer. *)
Lemma inference_error_ends_the_loop_example :
  loop scriptedSend sampleAgent ["hi"; "more"] (worldOf []) =
  Done (Some (errorString "error sending message: no answer left"))
    {| session := [];
       files := sampleFS;
       trace := [EvPrompt; EvUserMessage (Some "hi"); EvSendMessage [genai.Text "hi"];
                 EvLog "ERROR running inference: error sending message: no answer left"] |}.
Proof.
  apply (inference_error_ends_the_loop Script scriptedSend sampleAgent "hi" ["more"]
           (worldOf []) [] (errorString "no answer left")).
  reflexivity.
Defined.

(** X3 on an example: a response without candidates. *)
Lemma response_without_parts_panics_example :
  exists msg,
    loop scriptedSend sampleAgent ["hi"] (worldOf [Ok {| genai.Candidates := [] |}]) =
    Crash msg
      {| session := [];
         files := sampleFS;
         trace := [EvPrompt; EvUserMessage (Some "hi"); EvSendMessage [genai.Text "hi"]] |} /\
    msg = "runtime error: index out of range [0] with length 0".
Proof.
  apply (response_without_parts_panics Script scriptedSend sampleAgent "hi" []
           (worldOf [Ok {| genai.Candidates := [] |}]) []
           {| genai.Candidates := [] |}).
  - reflexivity.
  - now left.
Defined.

(** X4 on an example: a gateway that only ever answers with a text. *)
Lemma no_tool_call_no_file_change_example :
  match Run textOnlySend sampleAgent ["a"; "b"]
          {| session := 0; files := sampleFS; trace := [] |} with
  | Done r w' =>
      files w' = sampleFS /\
      (r = None ->
       Forall (fun line => In (EvUserMessage (Some line)) (trace w')) ["a"; "b"])
  | Crash msg w' =>
      files w' = sampleFS /\
      (msg = "runtime error: index out of range [0] with length 0" \/
       msg = "runtime error: invalid memory address or nil pointer dereference")
  end.
Proof.
  apply (no_tool_call_no_file_change nat textOnlySend sampleAgent ["a"; "b"]).
  intros s parts resp s' ps [= <- _] [= <-]. reflexivity.
Defined.

(** X5 on the example of the two tool calls. *)
Lemma tool_calls_leave_the_session_example :
  session afterTwoCalls = [answer followUpAnswer] /\
  trace afterTwoCalls =
  trace (beforeToolCalls (worldOf sampleScript) "go" [answer followUpAnswer] unknownAndKnown)
  ++ map toolLine
       (List.filter (registered (agentTools sampleAgent)) (callsOf unknownAndKnown)).
Proof.
  apply (tool_calls_leave_the_session Script sampleAgent (callsOf unknownAndKnown) []
           twoResults
           (beforeToolCalls (worldOf sampleScript) "go" [answer followUpAnswer]
              unknownAndKnown)
           afterTwoCalls).
  vm_compute; reflexivity.
Defined.

(** X6 on the example of the two tool calls. *)
Lemma only_edit_file_changes_files_example :
  exists parts' w',
    runToolCalls {| agentTools := tools foldASCII plainJSON |} (callsOf unknownAndKnown) []
      (worldOf sampleScript) = Done parts' w' /\
    files w' = sampleFS.
Proof.
  apply (only_edit_file_changes_files Script foldASCII plainJSON (callsOf unknownAndKnown) []
           (worldOf sampleScript)).
  repeat constructor; discriminate.
Defined.

(** X8 on examples: a directory, and a missing file with an old_str. *)
Lemma edit_file_unreadable_target_example :
  EditFile foldASCII (editArgs "b" "x" "y") sampleFS =
    Returns (Err (PathError "read" "b" EISDIR), sampleFS) /\
  EditFile foldASCII (editArgs "nope.txt" "x" "y") sampleFS =
    Returns (Err (errorString "file does not exist and old_str is not empty"), sampleFS).
Proof.
  split.
  - apply (edit_file_unreadable_target foldASCII "b" "x" "y" sampleFS
             (PathError "read" "b" EISDIR)).
    + reflexivity.
    + left. discriminate.
    + now left.
  - apply (edit_file_unreadable_target foldASCII "nope.txt" "x" "y" sampleFS
             (PathError "open" "nope.txt" ENOENT)).
    + reflexivity.
    + left. discriminate.
    + right. discriminate.
Defined.

(** X9 on an example: the path is the number 5. *)
Lemma edit_file_panics_on_path_example :
  EditFile foldASCII (json.Encoded (json.JObject [("path", json.JNumber "5")])) sampleFS =
  Panics "interface conversion: interface {} is float64, not string".
Proof.
  apply (edit_file_panics_on_path foldASCII
           (json.Encoded (json.JObject [("path", json.JNumber "5")])) sampleFS
           (<[ "path" := json.JNumber "5" ]> ∅) (json.JNumber "5")).
  - reflexivity.
  - vm_compute; reflexivity.
  - intros [H|[s H]]; discriminate.
Defined.

(** X10 on an example: strings under the three names, a number under
    another. *)
Lemma edit_file_returns_on_strings_example :
  exists r fs',
    EditFile foldASCII
      (json.Encoded (json.JObject [("path", json.JString "a.txt");
                                   ("old_str", json.JString "zz");
                                   ("mode", json.JNumber "7")])) sampleFS
    = Returns (r, fs').
Proof.
  apply (edit_file_returns_on_strings foldASCII).
  intros members k x [= <-] Hin Hk.
  destruct Hin as [[= <- <-]|[[= <- <-]|[[= <- <-]|[]]]]; [eauto | eauto |].
  destruct Hk as [Hk|[Hk|Hk]]; discriminate.
Defined.

(** X11 on an example: a directory that is not there. *)
Lemma list_files_missing_path_example :
  ListFiles foldASCII plainJSON (listArgs (Some "nope")) sampleFS =
  Returns (Err (PathError "lstat" "nope" ENOENT), sampleFS).
Proof.
  apply (list_files_missing_path foldASCII plainJSON (Some "nope") sampleFS ENOENT).
  vm_compute; reflexivity.
Defined.

(** X12 on an example: the file [a.txt]. *)
Lemma list_files_of_a_file_example :
  ListFiles foldASCII plainJSON (listArgs (Some "a.txt")) sampleFS =
  Returns (Ok (plainJSON (json.JArray [])), sampleFS).
Proof.
  apply (list_files_of_a_file foldASCII plainJSON (Some "a.txt") sampleFS
           ["work"; "a.txt"] "aab"); vm_compute; reflexivity.
Defined.

(** X13 on an example: [aa] replaced by [c] in [a.txt]; [b/c.txt] is as
    it was. *)
Lemma edit_file_keeps_other_files_example :
  EditFile foldASCII (editArgs "a.txt" "aa" "c") sampleFS =
    Returns (Ok "File a.txt updated successfully", editedFS) /\
  os.cwd editedFS = os.cwd sampleFS /\
  (forall q d, os.Lstat q sampleFS = Ok d -> os.Lstat q editedFS = Ok d) /\
  (forall q C,
     os.ReadFile q sampleFS = Ok C ->
     os.resolve editedFS q <> os.resolve editedFS "a.txt" ->
     os.ReadFile q editedFS = Ok C).
Proof.
  assert (EditFile foldASCII (editArgs "a.txt" "aa" "c") sampleFS =
          Returns (Ok "File a.txt updated successfully", editedFS)) as H
    by (vm_compute; reflexivity).
  split; [exact H|].
  apply (edit_file_keeps_other_files foldASCII (editArgs "a.txt" "aa" "c")
           {| Path := "a.txt"; OldStr := "aa"; NewStr := "c" |} sampleFS editedFS
           (Ok "File a.txt updated successfully")).
  - apply decode_editArgs.
  - exact H.
Defined.

(** X14 on an example: [read_file] after that edit. *)
Lemma read_file_after_edit_file_example :
  ReadFile foldASCII (readArgs "a.txt") editedFS = Returns (Ok "cb", editedFS).
Proof.
  pose proof (read_file_after_edit_file foldASCII (editArgs "a.txt" "aa" "c")
                {| Path := "a.txt"; OldStr := "aa"; NewStr := "c" |} sampleFS editedFS
                "File a.txt updated successfully") as H.
  assert (match os.ReadFile (editedPath "a.txt") sampleFS with
          | Ok C => strings.Replace C "aa" "c" (-1)
          | Err _ => "c"
          end = "cb") as E by (vm_compute; reflexivity).
  cbn [Path OldStr NewStr] in H. rewrite E in H.
  apply H.
  - apply decode_editArgs.
  - vm_compute; reflexivity.
Defined.

(** X15 on an example: [new.txt] made in the working directory. *)
Lemma created_file_is_listed_example :
  exists fs' files,
    EditFile foldASCII (editArgs "new.txt" "" "hi") sampleFS =
      Returns (Ok "Successfully created file new.txt", fs') /\
    ListFiles foldASCII plainJSON (listArgs None) fs' =
      Returns (Ok (plainJSON (json.JArray (map json.JString files))), fs') /\
    In "new.txt" files /\
    forall item,
      In item (listing (os.Dir [("a.txt", os.File "aab");
                                ("b", os.Dir [("c.txt", os.File "hello")])])) ->
      In item files.
Proof.
  apply (created_file_is_listed foldASCII plainJSON "new.txt" "hi" sampleFS
           [("a.txt", os.File "aab"); ("b", os.Dir [("c.txt", os.File "hello")])]);
    reflexivity.
Defined.

(** X17 on an example: [newdir/]. *)
Lemma edit_file_trailing_slash_example :
  exists fs',
    EditFile foldASCII (editArgs "newdir/" "" "X") sampleFS =
      Returns (Err (wrapError "failed to create file"
                      (PathError "open" "newdir/" EISDIR)), fs') /\
    os.Lstat "newdir" sampleFS = Err (PathError "lstat" "newdir" ENOENT) /\
    os.Lstat "newdir" fs' = Ok {| os.Name := "newdir"; os.entryIsDir := true |} /\
    os.ReadDir "newdir" fs' = Ok [].
Proof.
  apply (edit_file_trailing_slash foldASCII "newdir" "X" sampleFS
           [("a.txt", os.File "aab"); ("b", os.Dir [("c.txt", os.File "hello")])]);
    reflexivity.
Defined.
